(** * SpriteSage: undo history, sprite documents, spritesheet packing,
    frame insertion and the Godot export adapter

  A shallow embedding of the core of the SpriteSage editor
  (src/utils.py, src/sprite_file.py, src/spritesheet.py, src/exporter.py
  and the frame operations of src/sprite_editor.py), with the properties
  of its specification stated and settled against that embedding.

  Conventions.
  - Python [int] is [Z]; Python [str] is [string]; [None] is [None].
  - A Python [list] is a [list] in index order: [append] adds at the
    right end, [pop()] removes the right end, [pop(0)] the left end.
  - A Python [dict] is an association list in insertion order whose keys
    are pairwise distinct.
  - A raised exception is an explicit error value. *)

From Stdlib Require Import ZArith Lia Ascii.
From Stdlib Require DecimalString DecimalZ DecimalPos.
From stdpp Require Import base decidable list strings gmap.

(** ** Python list primitives *)

Section PyList.
Context {A : Type}.

(** [l.pop()] on a non-empty list: the remaining list and the popped
    element; [None] stands for the empty-list case, which the callers
    below guard against. *)
Definition list_pop (l : list A) : option (list A * A) :=
  match last l with
  | Some x => Some (removelast l, x)
  | None => None
  end.

(** [l.insert(i, x)]: a negative index counts from the right end and
    every index is clamped into the list. *)
Definition list_insert_at (l : list A) (i : Z) (x : A) : list A :=
  let n := Z.of_nat (length l) in
  let j := if decide (i < 0)%Z then Z.max 0 (i + n) else Z.min i n in
  take (Z.to_nat j) l ++ x :: drop (Z.to_nat j) l.

(** [l[i]]: a negative index counts from the right end; [None] is the
    [IndexError] case. *)
Definition list_index (l : list A) (i : Z) : option A :=
  let n := Z.of_nat (length l) in
  let j := if decide (i < 0)%Z then (i + n)%Z else i in
  if decide (0 <= j < n)%Z then l !! Z.to_nat j else None.

(** [l.pop(i)]: the remaining list and the popped element; a negative
    index counts from the right end; [None] is the [IndexError] case. *)
Definition list_pop_at (l : list A) (i : Z) : option (list A * A) :=
  let n := Z.of_nat (length l) in
  let j := if decide (i < 0)%Z then (i + n)%Z else i in
  if decide (0 <= j < n)%Z then
    match l !! Z.to_nat j with
    | Some x => Some (take (Z.to_nat j) l ++ drop (S (Z.to_nat j)) l, x)
    | None => None
    end
  else None.

End PyList.

(** ** Exceptions *)

Inductive exn : Type :=
| ValueError (msg : string)
| ZeroDivisionError
| IndexError
| FileNotFoundError (path : string).

Inductive result (A : Type) : Type :=
| Ok (a : A)
| Raise (e : exn).
Arguments Ok {A} a.
Arguments Raise {A} e.

#[global] Instance result_ret : MRet result := fun A a => Ok a.
#[global] Instance result_bind : MBind result := fun A B f m =>
  match m with
  | Ok a => f a
  | Raise e => Raise e
  end.

#[global] Instance result_fmap : FMap result := fun A B f m =>
  match m with
  | Ok a => Ok (f a)
  | Raise e => Raise e
  end.

(** ** Python integers *)

(** [a // b] and [a % b]: floor division and the remainder with the sign
    of the divisor, as [Z.div] and [Z.modulo]; a zero divisor raises. *)
Definition py_floordiv (a b : Z) : result Z :=
  if decide (b = 0)%Z then Raise ZeroDivisionError else Ok (a / b)%Z.

Definition py_mod (a b : Z) : result Z :=
  if decide (b = 0)%Z then Raise ZeroDivisionError else Ok (a mod b)%Z.

(** [n.bit_length()]: the number of bits of [abs n], 0 for 0. *)
Definition bit_length (n : Z) : Z :=
  if decide (n = 0)%Z then 0%Z else (Z.log2 (Z.abs n) + 1)%Z.

(** ** Python dictionaries with string keys *)

Section PyDict.
Context {V : Type}.

Definition dict_keys (d : list (string * V)) : list string := d.*1.
Definition dict_values (d : list (string * V)) : list V := d.*2.

(** [d.get(k)] *)
Fixpoint dict_get (d : list (string * V)) (k : string) : option V :=
  match d with
  | [] => None
  | (k', v) :: d' => if decide (k' = k) then Some v else dict_get d' k
  end.

(** [d[k] = v]: an existing key keeps its place, a new key goes last. *)
Fixpoint dict_set (d : list (string * V)) (k : string) (v : V)
  : list (string * V) :=
  match d with
  | [] => [(k, v)]
  | (k', v') :: d' =>
      if decide (k' = k) then (k', v) :: d' else (k', v') :: dict_set d' k v
  end.

End PyDict.

(** [sorted(keys)] on strings: the ascending rearrangement for the
    code-point order, which on the bytes of a string is [String.leb]. *)
Fixpoint sorted_insert (x : string) (l : list string) : list string :=
  match l with
  | [] => [x]
  | y :: l' => if String.leb x y then x :: l else y :: sorted_insert x l'
  end.

Definition sorted (l : list string) : list string := foldr sorted_insert [] l.

(** ** src/config.py *)

Definition MAX_UNDO_COUNT : nat := 1000.

(** ** src/utils.py: [UndoRedoManager] *)

Module UndoRedoManager.
Section Manager.
Context {T : Type} `{EqDecision T}.

(** The two stacks; the top of a stack is the right end of its list.
    [deepcopy] is the identity on values. *)
Record t : Type := mk {
  _undo_stack : list T;
  _redo_stack : list T
}.

(** [__init__] *)
Definition init : t := {| _undo_stack := []; _redo_stack := [] |}.

(** [save_undo_state]: returns at once when [state] equals the top of
    the undo stack; otherwise drops the oldest entry of a full stack,
    appends [state] and clears the redo stack. *)
Definition save_undo_state (m : t) (state : T) : t :=
  if bool_decide (last (_undo_stack m) = Some state) then m
  else
    let undo :=
      if bool_decide (length (_undo_stack m) = MAX_UNDO_COUNT)
      then tail (_undo_stack m)
      else _undo_stack m in
    {| _undo_stack := undo ++ [state]; _redo_stack := [] |}.

(** [perform_undo]: the returned value and the manager afterwards. *)
Definition perform_undo (m : t) (current_state : T) : option T * t :=
  match list_pop (_undo_stack m) with
  | None => (None, m)
  | Some (rest, top) =>
      (Some top,
       {| _undo_stack := rest;
          _redo_stack := _redo_stack m ++ [current_state] |})
  end.

(** [perform_redo] *)
Definition perform_redo (m : t) : option T * t :=
  match list_pop (_redo_stack m) with
  | None => (None, m)
  | Some (rest, state) =>
      (Some state,
       {| _undo_stack := _undo_stack m ++ [state]; _redo_stack := rest |})
  end.

(** [clear] *)
Definition clear (_ : t) : t := init.

(** A call of one of the three history operations. *)
Inductive op : Type :=
| Save (state : T)
| Undo (current_state : T)
| Redo.

Definition step (m : t) (o : op) : t :=
  match o with
  | Save s => save_undo_state m s
  | Undo c => snd (perform_undo m c)
  | Redo => snd (perform_redo m)
  end.

(** The manager after a sequence of calls, first call first. *)
Definition run (ops : list op) (m : t) : t := fold_left step ops m.

(** The quantity the three operations keep below the capacity. *)
Definition history_size (m : t) : nat :=
  length (_undo_stack m) + length (_redo_stack m).
End Manager.
Arguments t : clear implicits.
Arguments op : clear implicits.
End UndoRedoManager.

(** ** Python strings *)

(** [s.endswith("/")] *)
Fixpoint endswith_sep (s : string) : bool :=
  match s with
  | EmptyString => false
  | String c EmptyString => bool_decide (c = "/"%char)
  | String _ s' => endswith_sep s'
  end.

(** [s.rfind(c)] for a character [c]: the last position of [c], or -1. *)
Fixpoint str_rfind_from (c : ascii) (s : string) (pos found : Z) : Z :=
  match s with
  | EmptyString => found
  | String c' s' =>
      str_rfind_from c s' (pos + 1) (if decide (c' = c) then pos else found)
  end.

Definition str_rfind (c : ascii) (s : string) : Z := str_rfind_from c s 0 (-1).

(** [s[:i]] and [s[i:]] for [0 <= i]. *)
Definition str_take (i : Z) (s : string) : string :=
  String.substring 0 (Z.to_nat i) s.

Definition str_drop (i : Z) (s : string) : string :=
  String.substring (Z.to_nat i) (String.length s - Z.to_nat i) s.

(** [str(n)] for an integer. *)
Definition str_of_int (n : Z) : string :=
  DecimalString.NilZero.string_of_int (Z.to_int n).

(** ** [os.path] on a POSIX system

    The functions of [posixpath] that the editor calls, for [str]
    arguments. The current directory of the process, which [abspath]
    reads, is the explicit argument [cwd]. *)

Module os_path.

(** [s.split("/")] *)
Fixpoint split (s : string) : list string :=
  match s with
  | EmptyString => [EmptyString]
  | String c s' =>
      if decide (c = "/"%char) then EmptyString :: split s'
      else
        match split s' with
        | w :: ws => String c w :: ws
        | [] => [String c EmptyString]
        end
  end.

(** ["/".join(l)] *)
Fixpoint sep_join (l : list string) : string :=
  match l with
  | [] => EmptyString
  | [x] => x
  | x :: l' => x +:+ "/" +:+ sep_join l'
  end.

(** [[x for x in s.split("/") if x]] *)
Definition segments (s : string) : list string :=
  filter (fun x => x <> EmptyString) (split s).

(** [isabs] *)
Definition isabs (s : string) : bool := String.prefix "/" s.

(** One round of the loop of [join(a, *p)]. *)
Definition join_step (path b : string) : string :=
  if String.prefix "/" b then b
  else if bool_decide (path = EmptyString) || endswith_sep path then path +:+ b
  else path +:+ "/" +:+ b.

(** [join(a, *p)] *)
Definition join (a : string) (p : list string) : string :=
  foldl join_step a p.

(** One round of the loop of [normpath] over the components. *)
Definition norm_step (initial_slashes : nat) (new_comps : list string)
    (comp : string) : list string :=
  if bool_decide (comp = EmptyString) || bool_decide (comp = ".") then new_comps
  else if
    bool_decide (comp <> "..")
    || (bool_decide (initial_slashes = O) && bool_decide (new_comps = []))
    || (bool_decide (new_comps <> []) && bool_decide (last new_comps = Some ".."))
  then new_comps ++ [comp]
  else removelast new_comps.

(** [normpath] *)
Definition normpath (path : string) : string :=
  if decide (path = EmptyString) then "."
  else
    let initial_slashes :=
      if String.prefix "/" path then
        if String.prefix "//" path && negb (String.prefix "///" path)
        then 2%nat else 1%nat
      else 0%nat in
    let comps := foldl (norm_step initial_slashes) [] (split path) in
    let path := sep_join comps in
    let path :=
      match initial_slashes with
      | O => path
      | 1%nat => "/" +:+ path
      | _ => "//" +:+ path
      end in
    if decide (path = EmptyString) then "." else path.

(** [abspath] *)
Definition abspath (cwd : string) (path : string) : string :=
  let path := if isabs path then path else join cwd [path] in
  normpath path.

(** [commonprefix] of two lists of components: their longest common
    initial part. *)
Fixpoint commonprefix (a b : list string) : list string :=
  match a, b with
  | x :: a', y :: b' => if decide (x = y) then x :: commonprefix a' b' else []
  | _, _ => []
  end.

(** [relpath(path, start)] *)
Definition relpath (cwd : string) (path start : string) : result string :=
  if decide (path = EmptyString) then Raise (ValueError "no path specified")
  else
    let start_list := segments (abspath cwd start) in
    let path_list := segments (abspath cwd path) in
    let i := length (commonprefix start_list path_list) in
    let rel_list :=
      replicate (length start_list - i) ".." ++ drop i path_list in
    match rel_list with
    | [] => Ok "."
    | a :: p => Ok (join a p)
    end.

(** [basename]: what follows the last separator. *)
Definition basename (p : string) : string :=
  str_drop (str_rfind "/" p + 1) p.

(** [splitext]: the extension starts at the last dot that follows the
    last separator and at least one character of the name that is not a
    dot. *)
Definition splitext (p : string) : string * string :=
  let sepIndex := str_rfind "/" p in
  let dotIndex := str_rfind "." p in
  if decide (dotIndex > sepIndex)%Z then
    let name_start := Z.to_nat (sepIndex + 1) in
    let before_dot :=
      String.list_ascii_of_string
        (String.substring name_start (Z.to_nat dotIndex - name_start) p) in
    if existsb (fun c => bool_decide (c <> "."%char)) before_dot
    then (str_take dotIndex p, str_drop dotIndex p)
    else (p, EmptyString)
  else (p, EmptyString).

(** A string without a separator. *)
Fixpoint slash_free (s : string) : Prop :=
  match s with
  | EmptyString => True
  | String c s' => c <> "/"%char /\ slash_free s'
  end.

(** A component that [normpath] keeps as it is in a rooted path. *)
Definition clean (w : string) : Prop :=
  w <> EmptyString /\ w <> "." /\ w <> ".." /\ slash_free w.

(** The components of a rooted path after [normpath]. *)
Definition resolve (l : list string) : list string := foldl (norm_step 1) [] l.

(** The components of the path that [abspath] normalises. *)
Definition anchored (cwd path : string) : list string :=
  if isabs path then segments path else segments cwd ++ segments path.

(** [s.rstrip("/")] *)
Fixpoint rstrip_sep (s : string) : string :=
  match s with
  | EmptyString => EmptyString
  | String c s' =>
      match rstrip_sep s' with
      | EmptyString =>
          if decide (c = "/"%char) then EmptyString else String c EmptyString
      | r => String c r
      end
  end.

(** [s == "/" * len(s)] *)
Fixpoint all_sep (s : string) : bool :=
  match s with
  | EmptyString => true
  | String c s' => bool_decide (c = "/"%char) && all_sep s'
  end.

(** [dirname]: what precedes the last separator, without its trailing
    separators unless it consists of separators only. *)
Definition dirname (p : string) : string :=
  let i := (str_rfind "/" p + 1)%Z in
  let head := str_take i p in
  if negb (bool_decide (head = EmptyString)) && negb (all_sep head)
  then rstrip_sep head
  else head.

End os_path.

(** ** src/sprite_file.py: the document model *)

Module Animation.
Record t : Type := mk {
  name : string;
  frames : list string
}.
End Animation.

Module SpriteFile.
Record t : Type := mk {
  uuid : string;
  name : string;
  description : string;
  width : Z;
  height : Z;
  base_image : option string;
  animations : list (string * Animation.t)
}.

(** The dict that [to_dict] builds and [from_dict] reads: the content of
    a [.sprite] file. *)
Record data : Type := mk_data {
  data_uuid : string;
  data_name : string;
  data_description : string;
  data_width : Z;
  data_height : Z;
  data_base_image : option string;
  data_animations : list (string * list string)
}.

(** [from_dict] *)
Definition from_dict (d : data) (sage_directory : string) : t :=
  let animations :=
    foldl
      (fun animations animation =>
         dict_set animations animation
           (Animation.mk animation
              ((fun x => os_path.join sage_directory [x])
                 <$> default [] (dict_get (data_animations d) animation))))
      [] (dict_keys (data_animations d)) in
  {| uuid := data_uuid d;
     name := data_name d;
     description := data_description d;
     width := data_width d;
     height := data_height d;
     base_image :=
       match data_base_image d with
       | None => None
       | Some b =>
           if decide (b = EmptyString) then None
           else Some (os_path.join sage_directory [b])
       end;
     animations := animations |}.

(** The value of one key of the dict comprehension of [to_dict]. *)
Definition relative_frames (cwd : string) (self : t) (sage_directory : string)
    (x : string) : result (list string) :=
  mapM (fun y => os_path.relpath cwd y sage_directory)
       (match dict_get (animations self) x with
        | Some a => Animation.frames a
        | None => []
        end).

(** [to_dict]; [relpath] may raise. *)
Definition to_dict (cwd : string) (self : t) (sage_directory : string)
  : result data :=
  base ← match base_image self with
         | None => Ok None
         | Some b =>
             if decide (b = EmptyString) then Ok (Some b)
             else Some <$> os_path.relpath cwd b sage_directory
         end;
  entries ← mapM (fun x =>
                    frames ← relative_frames cwd self sage_directory x;
                    mret (x, frames))
                 (dict_keys (animations self));
  mret {| data_uuid := uuid self;
          data_name := name self;
          data_description := description self;
          data_width := width self;
          data_height := height self;
          data_base_image := base;
          data_animations :=
            foldl (fun d entry => dict_set d entry.1 entry.2) [] entries |}.

(** A valid sprite: the base image is [None] or an absolute path and
    every frame is an absolute path; as in every dict, no animation name
    occurs twice. *)
Definition valid (self : t) : Prop :=
  match base_image self with
  | None => True
  | Some b => os_path.isabs b = true
  end
  /\ Forall (fun entry =>
               Forall (fun y => os_path.isabs y = true) (Animation.frames entry.2))
            (animations self)
  /\ NoDup (dict_keys (animations self)).

(** The relative path that [to_dict] stores for a path. *)
Definition rel (cwd sage_directory : string) (y : string) : string :=
  match os_path.relpath cwd y sage_directory with
  | Ok r => r
  | Raise _ => EmptyString
  end.

(** The dict that [to_dict] returns for a sprite without empty paths. *)
Definition stored (cwd sage_directory : string) (x : t) : data :=
  {| data_uuid := uuid x;
     data_name := name x;
     data_description := description x;
     data_width := width x;
     data_height := height x;
     data_base_image := rel cwd sage_directory <$> base_image x;
     data_animations :=
       (fun entry => (entry.1, rel cwd sage_directory <$> Animation.frames entry.2))
         <$> animations x |}.

(** No stored path of the sprite is the empty string. *)
Definition nonempty_paths (x : t) : Prop :=
  base_image x <> Some EmptyString
  /\ Forall (fun entry => Forall (fun y => y <> EmptyString) (Animation.frames entry.2))
            (animations x).

(** [get_animation_frames] *)
Definition get_animation_frames (self : t) (animation_name : string)
  : list string :=
  match dict_get (animations self) animation_name with
  | Some a => Animation.frames a
  | None => []
  end.
End SpriteFile.

(** ** src/sage_file.py: the project file *)

Module SageFile.
Record t : Type := mk {
  project_name : string;
  version : string;
  created_at : string;
  project_description : string;
  keywords : string;
  camera : string;
  reference_images : list string;
  last_saved : string;
  filepath : string
}.

(** The dict that [from_dict] reads and [to_dict] builds: the content of
    a [.sage] file. A key that the dict does not have is [None]. *)
Record data : Type := mk_data {
  data_project_name : option string;         (* "Project Name" *)
  data_version : option string;              (* "version" *)
  data_created_at : option string;           (* "createdAt" *)
  data_project_description : option string;  (* "Project Description" *)
  data_keywords : option string;             (* "Keywords" *)
  data_camera : option string;               (* "Camera" *)
  data_reference_images : option (list string); (* "Reference Images" *)
  data_last_saved : option string            (* "lastSaved" *)
}.

(** The property [directory] *)
Definition directory (self : t) : string := os_path.dirname (filepath self).

(** [from_dict] *)
Definition from_dict (d : data) (filepath : string) : t :=
  let instance :=
    {| project_name := default EmptyString (data_project_name d);
       version := default EmptyString (data_version d);
       created_at := default EmptyString (data_created_at d);
       project_description := default EmptyString (data_project_description d);
       keywords := default EmptyString (data_keywords d);
       camera := default EmptyString (data_camera d);
       reference_images := [];
       last_saved := default EmptyString (data_last_saved d);
       filepath := filepath |} in
  {| project_name := project_name instance;
     version := version instance;
     created_at := created_at instance;
     project_description := project_description instance;
     keywords := keywords instance;
     camera := camera instance;
     reference_images :=
       (fun x => os_path.join (directory instance) [x])
         <$> default [] (data_reference_images d);
     last_saved := last_saved instance;
     filepath := filepath |}.

(** [to_dict]; [relpath] may raise. *)
Definition to_dict (cwd : string) (self : t) : result data :=
  images ← mapM (fun x => os_path.relpath cwd x (directory self))
                (reference_images self);
  mret {| data_project_name := Some (project_name self);
          data_version := Some (version self);
          data_created_at := Some (created_at self);
          data_project_description := Some (project_description self);
          data_keywords := Some (keywords self);
          data_camera := Some (camera self);
          data_reference_images := Some images;
          data_last_saved := Some (last_saved self) |}.
End SageFile.

(** ** Image files

    A file system maps the paths of the image files that exist to what
    they hold: a picture whose pixels are of no concern here, or an atlas
    described by its side and by the frames pasted into it. *)

Record Sheet : Type := mkSheet {
  sheet_side : Z;
  sheet_cells : list (Z * Z * string)  (* x, y, frame pasted there *)
}.

Inductive image : Type :=
| Picture
| Atlas (sheet : Sheet).

(** ** src/inference.py: the requests to the generation backend *)

Inductive ai_request : Type :=
| generate_next_sprite_image
    (output_folder animation_name : string) (image : option string)
    (camera : string)
| generate_sprite_between_images
    (output_folder animation_name : string) (images : list (option string))
    (camera : string).

(** ** src/spritesheet.py: [SpriteSheetGenerator] *)

Module SpriteSheetGenerator.
Local Open Scope Z_scope.

Record t : Type := mk {
  sprite_file : SpriteFile.t;
  width : Z;
  height : Z;
  animations : list (string * Animation.t)
}.

(** [__init__]; width and height are integers by their type. *)
Definition init (sprite_file : SpriteFile.t) : t :=
  {| sprite_file := sprite_file;
     width := SpriteFile.width sprite_file;
     height := SpriteFile.height sprite_file;
     animations := SpriteFile.animations sprite_file |}.

(** [next_power_of_two] *)
Definition next_power_of_two (n : Z) : Z :=
  if decide (n <= 0) then 1 else Z.shiftl 1 (bit_length (n - 1)).

(** [get_all_frame_paths]: the values of the dict in its own order. *)
Definition get_all_frame_paths (self : t) : list string :=
  foldl (fun frames animation => frames ++ Animation.frames animation)
        [] (dict_values (animations self)).

(** The [while True] loop of [determine_sheet_size]; [None] when the fuel
    runs out before the loop returns. *)
Fixpoint determine_sheet_size_loop (fuel : nat) (self : t)
    (num_frames sheet_size : Z) : option (result Z) :=
  match fuel with
  | O => None
  | S fuel' =>
      match py_floordiv sheet_size (width self),
            py_floordiv sheet_size (height self) with
      | Ok cols, Ok rows =>
          if decide (cols * rows >= num_frames) then Some (Ok sheet_size)
          else determine_sheet_size_loop fuel' self num_frames (sheet_size * 2)
      | Raise e, _ => Some (Raise e)
      | _, Raise e => Some (Raise e)
      end
  end.

(** [determine_sheet_size] *)
Definition determine_sheet_size (fuel : nat) (self : t) (num_frames : Z)
  : option (result Z) :=
  let min_side := Z.max (width self) (height self) in
  let sheet_size := next_power_of_two min_side in
  determine_sheet_size_loop fuel self num_frames sheet_size.

(** The body of the paste loop for frame [idx]: opening a missing file
    raises; the frame is resized to the cell and pasted at [(x, y)]. *)
Definition paste_frame (self : t) (files : gmap string image) (cols : Z)
    (idx : Z) (frame_path : string) : result (Z * Z * string) :=
  if decide (is_Some (files !! frame_path)) then
    c ← py_mod idx cols;
    r ← py_floordiv idx cols;
    mret (c * width self, r * height self, frame_path)
  else Raise (FileNotFoundError frame_path).

Fixpoint paste_frames (self : t) (files : gmap string image) (cols : Z)
    (idx : Z) (frames : list string) : result (list (Z * Z * string)) :=
  match frames with
  | [] => mret []
  | frame_path :: rest =>
      cell ← paste_frame self files cols idx frame_path;
      cells ← paste_frames self files cols (idx + 1) rest;
      mret (cell :: cells)
  end.

(** [Path(path).stem] of [pathlib]: the last component of the path that
    is neither empty nor a dot, without its last suffix. *)
Definition path_stem (path : string) : string :=
  let name :=
    default EmptyString
      (last (filter (fun x => x <> ".") (os_path.segments path))) in
  let i := str_rfind "." name in
  if decide (0 < i < Z.of_nat (String.length name) - 1)
  then str_take i name else name.

(** [create_spritesheet]: the returned path or the exception raised, and
    the file system afterwards; [None] when [determine_sheet_size] does
    not return within the fuel. Background removal rewrites the saved
    file in place. *)
Definition create_spritesheet (fuel : nat) (self : t)
    (output_path : option string) (files : gmap string image)
  : option (result string * gmap string image) :=
  let frames := get_all_frame_paths self in
  let num_frames := Z.of_nat (length frames) in
  if decide (num_frames = 0) then
    Some (Raise (ValueError "No frames found in sprite data."), files)
  else
    match determine_sheet_size fuel self num_frames with
    | None => None
    | Some (Raise e) => Some (Raise e, files)
    | Some (Ok sheet_size) =>
        match
          cols ← py_floordiv sheet_size (width self);
          paste_frames self files cols 0 frames
        with
        | Raise e => Some (Raise e, files)
        | Ok cells =>
            let sheet := {| sheet_side := sheet_size; sheet_cells := cells |} in
            let output_path :=
              match output_path with
              | Some p => if decide (p = EmptyString) then None else Some p
              | None => None
              end in
            let output_path :=
              match output_path with
              | Some p => p
              | None =>
                  path_stem (SpriteFile.name (sprite_file self))
                  +:+ "_spritesheet.png"
              end in
            Some (Ok output_path, <[output_path := Atlas sheet]> files)
        end
    end.

(** The number of cells of a square sheet of side [s]. *)
Definition grid_cells (w h s : Z) : Z := (s / w) * (s / h).

(** The number of frames of all animations of a sprite. *)
Definition total_frames (sprite_file : SpriteFile.t) : nat :=
  sum_list_with (fun entry => length (Animation.frames entry.2))
                (SpriteFile.animations sprite_file).

(** A generator for a sprite without animations and cells of [w] by [h]. *)
Definition sample_generator (w h : Z) : t :=
  {| sprite_file :=
       {| SpriteFile.uuid := "u"; SpriteFile.name := "hero";
          SpriteFile.description := ""; SpriteFile.width := w;
          SpriteFile.height := h; SpriteFile.base_image := None;
          SpriteFile.animations := [] |};
     width := w; height := h; animations := [] |}.

(** The cells of the frames [frames], the first of which has the index
    [idx], on a grid of [cols] columns of cells of [w] by [h]. *)
Fixpoint layout_from (w h cols idx : Z) (frames : list string)
  : list (Z * Z * string) :=
  match frames with
  | [] => []
  | frame_path :: rest =>
      ((idx mod cols) * w, (idx / cols) * h, frame_path)
      :: layout_from w h cols (idx + 1) rest
  end.

End SpriteSheetGenerator.

(** ** src/exporter.py: [GodotSpriteExporter] *)

Module GodotSpriteExporter.
Local Open Scope Z_scope.

Record t : Type := mk {
  output_dir : string;
  sprite_file : SpriteFile.t;
  sheet_gen : SpriteSheetGenerator.t;
  frame_paths : list string;
  frame_count : Z
}.

(** [__init__] *)
Definition init (sprite_file : SpriteFile.t) (output_dir : string) : t :=
  let sheet_gen := SpriteSheetGenerator.init sprite_file in
  let frame_paths := SpriteSheetGenerator.get_all_frame_paths sheet_gen in
  {| output_dir := output_dir;
     sprite_file := sprite_file;
     sheet_gen := sheet_gen;
     frame_paths := frame_paths;
     frame_count := Z.of_nat (length frame_paths) |}.

(** The content of the [SpriteFrames] resource written by [export_tres]:
    the sheet it refers to, one [AtlasTexture] sub-resource per frame with
    its region [(x, y, w, h)], and the animation entries, each with the
    sub-resources of its frames. A sub-resource is named by its position
    in [sub_ids]; the generated identifiers are taken to be distinct. *)
Record SpriteFrames : Type := mkSpriteFrames {
  tres_sheet : string;
  tres_sub_resources : list (nat * (Z * Z * Z * Z));
  tres_animations : list (string * list nat)
}.

(** The [AtlasTexture] loop: the region of sub-resource [idx]. *)
Fixpoint sub_resources (w h cols : Z) (idx : Z) (sub_ids : list nat)
  : result (list (nat * (Z * Z * Z * Z))) :=
  match sub_ids with
  | [] => mret []
  | sub_id :: rest =>
      c ← py_mod idx cols;
      r ← py_floordiv idx cols;
      regions ← sub_resources w h cols (idx + 1) rest;
      mret ((sub_id, (c * w, r * h, w, h)) :: regions)
  end.

(** The inner loop over the frames of one animation: each frame takes
    [sub_ids[frame_idx]] and advances [frame_idx]. *)
Fixpoint animation_textures (sub_ids : list nat) (frame_idx : Z)
    (frames : list string) : result (list nat * Z) :=
  match frames with
  | [] => mret ([], frame_idx)
  | _ :: rest =>
      match list_index sub_ids frame_idx with
      | None => Raise IndexError
      | Some sub_id =>
          '(subs, frame_idx') ← animation_textures sub_ids (frame_idx + 1) rest;
          mret (sub_id :: subs, frame_idx')
      end
  end.

(** The loop over [sorted(self.sprite_file.animations.keys())]. *)
Fixpoint animation_entries (sprite_file : SpriteFile.t) (sub_ids : list nat)
    (frame_idx : Z) (anim_names : list string)
  : result (list (string * list nat)) :=
  match anim_names with
  | [] => mret []
  | anim_name :: rest =>
      let frames := SpriteFile.get_animation_frames sprite_file anim_name in
      '(subs, frame_idx') ← animation_textures sub_ids frame_idx frames;
      entries ← animation_entries sprite_file sub_ids frame_idx' rest;
      mret ((anim_name, subs) :: entries)
  end.

(** [export_tres], up to the scene file: the resource written, or the
    exception raised, and the file system afterwards. *)
Definition export_tres (fuel : nat) (self : t) (files : gmap string image)
  : option (result SpriteFrames * gmap string image) :=
  let output_path :=
    output_dir self +:+ "/" +:+ SpriteFile.name (sprite_file self)
    +:+ "_sheet.png" in
  match SpriteSheetGenerator.create_spritesheet
          fuel (sheet_gen self) (Some output_path) files with
  | None => None
  | Some (Raise e, files') => Some (Raise e, files')
  | Some (Ok sheet_png, files') =>
      let w := SpriteSheetGenerator.width (sheet_gen self) in
      let h := SpriteSheetGenerator.height (sheet_gen self) in
      match SpriteSheetGenerator.determine_sheet_size
              fuel (sheet_gen self) (frame_count self) with
      | None => None
      | Some (Raise e) => Some (Raise e, files')
      | Some (Ok sheet_size) =>
          let sub_ids := seq 0 (Z.to_nat (frame_count self)) in
          Some
            (cols ← py_floordiv sheet_size w;
             regions ← sub_resources w h cols 0 sub_ids;
             entries ← animation_entries (sprite_file self) sub_ids 0
                         (sorted (dict_keys (SpriteFile.animations (sprite_file self))));
             mret {| tres_sheet := sheet_png;
                     tres_sub_resources := regions;
                     tres_animations := entries |},
             files')
      end
  end.

(** The frame a sub-resource shows: the frame the packer pasted at the
    origin of the sub-resource's region of the sheet. *)
Definition frame_shown (sheet : Sheet) (doc : SpriteFrames) (sub_id : nat)
  : option string :=
  match list_find (fun r => r.1 = sub_id) (tres_sub_resources doc) with
  | Some (_, (_, (x, y, _, _))) =>
      match list_find (fun cell => cell.1 = (x, y)) (sheet_cells sheet) with
      | Some (_, (_, frame_path)) => Some frame_path
      | None => None
      end
  | None => None
  end.

(** The entries that the animation loop of [export_tres] builds for
    [anim_names] when the next sub-resource to hand out is number [idx]. *)
Fixpoint texture_entries (sprite_file : SpriteFile.t) (idx : nat)
    (anim_names : list string) : list (string * list nat) :=
  match anim_names with
  | [] => []
  | anim_name :: rest =>
      let n := length (SpriteFile.get_animation_frames sprite_file anim_name) in
      (anim_name, seq idx n) :: texture_entries sprite_file (idx + n) rest
  end.

(** [Path(p).name] of [pathlib]: the last component of the path that is
    neither empty nor a dot. *)
Definition path_name (p : string) : string :=
  default EmptyString (last (filter (fun x => x <> ".") (os_path.segments p))).

(** The node of a scene file. *)
Inductive scene : Type :=
| Sprite2D (name texture : string)
| AnimatedSprite2D (name sprite_frames animation : string).

(** What ends an export early: [Path(None)], [next] on an empty iterator,
    or an exception of the sheet generator or of the image library. *)
Inductive export_error : Type :=
| TypeError
| StopIteration
| Raised (e : exn).

(** [export_tscn]: the scene refers to the frames resource and starts with
    the first animation of the dict. *)
Definition export_tscn (self : t) : export_error + scene :=
  let name := SpriteFile.name (sprite_file self) in
  match dict_keys (SpriteFile.animations (sprite_file self)) with
  | [] => inl StopIteration
  | default_anim :: _ =>
      inr (AnimatedSprite2D name (name +:+ "_frames.tres") default_anim)
  end.

(** [export_sprite2d]: [remove_background(src, dst)] of src/utils.py puts
    the base image, with its background removed, into the output directory
    under its own name, and the scene shows that file. The background
    model is not part of this repository: [remove_background] is any
    function of the two paths and the file system that raises or returns. *)
Definition export_sprite2d
    (remove_background :
       string -> string -> gmap string image
       -> result unit * gmap string image)
    (self : t) (files : gmap string image)
  : (export_error + scene) * gmap string image :=
  let name := SpriteFile.name (sprite_file self) in
  match SpriteFile.base_image (sprite_file self) with
  | None => (inl TypeError, files)
  | Some src =>
      let dst := output_dir self +:+ "/" +:+ path_name src in
      match remove_background src dst files with
      | (Raise e, files') => (inl (Raised e), files')
      | (Ok _, files') => (inr (Sprite2D name (path_name dst)), files')
      end
  end.

(** [export]: the frames resource, when there is one, and the scene. *)
Definition export
    (remove_background :
       string -> string -> gmap string image
       -> result unit * gmap string image)
    (fuel : nat) (self : t) (files : gmap string image)
  : option ((export_error + (option SpriteFrames * scene))
            * gmap string image) :=
  if decide (frame_count self = 0) then
    match export_sprite2d remove_background self files with
    | (inl e, files') => Some (inl e, files')
    | (inr sc, files') => Some (inr (None, sc), files')
    end
  else
    match export_tres fuel self files with
    | None => None
    | Some (Raise e, files') => Some (inl (Raised e), files')
    | Some (Ok doc, files') =>
        match export_tscn self with
        | inl e => Some (inl e, files')
        | inr sc => Some (inr (Some doc, sc), files')
        end
    end.

End GodotSpriteExporter.

(** ** src/sprite_editor.py: the frame operations of [SpriteEditorView]

    The view holds the sprite being edited and the two list widgets; of
    the widgets only the current animation and the current frame row are
    kept. Saving the document after an accepted edit is left out. *)

Module SpriteEditorView.
Local Open Scope Z_scope.

Record t : Type := mk {
  sprite_data : SpriteFile.t;
  _base_dir : option string;
  sage_directory : string;      (* self.sage_file.directory *)
  camera : string;              (* self.sage_file.camera *)
  anim_current : option string; (* text of anim_list_widget.currentItem() *)
  frame_current : option Z      (* frame_list_widget.currentRow() of currentItem() *)
}.

(** The [while os.path.exists(target)] loop that looks for a free name;
    [None] when the fuel runs out. *)
Fixpoint free_target (fuel : nat) (files : gmap string image)
    (base_dir name ext : string) (counter : Z) (target : string)
  : option string :=
  match fuel with
  | O => None
  | S fuel' =>
      if decide (is_Some (files !! target)) then
        free_target fuel' files base_dir name ext (counter + 1)
          (os_path.join base_dir
             [name +:+ "_" +:+ str_of_int counter +:+ ext])
      else Some target
  end.

(** The copy of a file from outside the sprite directory: the stored
    path, or the exception of [shutil.copy2] for a missing source, and the
    file system afterwards. The search for a free name is given
    [size files + 2] rounds, which always suffice. *)
Definition copy_into_base (files : gmap string image)
    (base_dir abs_input : string)
  : option (result string * gmap string image) :=
  let basename := os_path.basename abs_input in
  let target := os_path.join base_dir [basename] in
  let '(name, ext) := os_path.splitext basename in
  match free_target (S (S (size files))) files base_dir name ext 1 target with
  | None => None
  | Some target =>
      match files !! abs_input with
      | None => Some (Raise (FileNotFoundError abs_input), files)
      | Some img => Some (Ok (os_path.normpath target), <[target := img]> files)
      end
  end.

(** The [try] block of the loop of [_insert_frames_at_index]. *)
Definition resolve_input (cwd : string) (files : gmap string image)
    (base_dir : string) (fpath : string)
  : option (result string * gmap string image) :=
  let norm_basedir := os_path.normpath base_dir in
  let abs_input := os_path.abspath cwd fpath in
  if String.prefix (norm_basedir +:+ "/") abs_input
  then Some (Ok abs_input, files)
  else copy_into_base files base_dir abs_input.

(** What the loop of [_insert_frames_at_index] carries: the frame list of
    the animation, whether [setdefault] was reached, the insertion index,
    the [added] list and the file system. *)
Record insertion : Type := mk_insertion {
  frame_list : list string;
  touched : bool;
  insertion_index : Z;
  added : list (Z * string);
  files_after : gmap string image
}.

(** The loop over [file_paths]. *)
Fixpoint insert_loop (cwd base_dir : string) (file_paths : list string)
    (st : insertion) : option insertion :=
  match file_paths with
  | [] => Some st
  | fpath :: rest =>
      match resolve_input cwd (files_after st) base_dir fpath with
      | None => None
      | Some (Raise _, files') =>
          insert_loop cwd base_dir rest
            {| frame_list := frame_list st;
               touched := touched st;
               insertion_index := insertion_index st;
               added := added st;
               files_after := files' |}
      | Some (Ok absolute_path, files') =>
          if decide (absolute_path ∈ frame_list st) then
            insert_loop cwd base_dir rest
              {| frame_list := frame_list st;
                 touched := true;
                 insertion_index := insertion_index st;
                 added := added st;
                 files_after := files' |}
          else
            insert_loop cwd base_dir rest
              {| frame_list :=
                   list_insert_at (frame_list st) (insertion_index st)
                                  absolute_path;
                 touched := true;
                 insertion_index := insertion_index st + 1;
                 added := added st ++ [(insertion_index st, absolute_path)];
                 files_after := files' |}
      end
  end.

(** The frame list after the successive insertions of [news], the first
    at index [i], each next one index further. *)
Fixpoint insert_many (l : list string) (i : Z) (news : list string)
  : list string :=
  match news with
  | [] => l
  | x :: rest => insert_many (list_insert_at l i x) (i + 1) rest
  end.

(** How often the path [q] occurs in a frame list. *)
Definition occurrences (q : string) (l : list string) : nat :=
  length (filter (fun y => y = q) l).

(** The test of [_insert_frames_at_index] for a path that lies in the
    sprite directory already. *)
Definition under_base (cwd base_dir fpath : string) : bool :=
  String.prefix (os_path.normpath base_dir +:+ "/") (os_path.abspath cwd fpath).

(** What a frame operation leaves behind: the view, the file system, the
    [added] list of the insertion and the requests sent to the
    generation backend. *)
Record outcome : Type := mk_outcome {
  view : t;
  files : gmap string image;
  inserted : list (Z * string);
  requests : list ai_request
}.

(** [_insert_frames_at_index] *)
Definition _insert_frames_at_index (cwd : string) (self : t)
    (files : gmap string image) (file_paths : list string)
    (insertion_index : Z) : option outcome :=
  let unchanged :=
    {| view := self; files := files; inserted := []; requests := [] |} in
  match anim_current self, _base_dir self with
  | Some anim_name, Some base_dir =>
      if decide (base_dir = EmptyString) then Some unchanged
      else
        let anim_dict := SpriteFile.animations (sprite_data self) in
        let animation :=
          default (Animation.mk anim_name []) (dict_get anim_dict anim_name) in
        match insert_loop cwd base_dir file_paths
                {| frame_list := Animation.frames animation;
                   touched := false;
                   insertion_index := insertion_index;
                   added := [];
                   files_after := files |} with
        | None => None
        | Some st =>
            let anim_dict' :=
              if touched st then
                dict_set anim_dict anim_name
                  (Animation.mk (Animation.name animation) (frame_list st))
              else anim_dict in
            let data := sprite_data self in
            Some
              {| view :=
                   {| sprite_data :=
                        {| SpriteFile.uuid := SpriteFile.uuid data;
                           SpriteFile.name := SpriteFile.name data;
                           SpriteFile.description := SpriteFile.description data;
                           SpriteFile.width := SpriteFile.width data;
                           SpriteFile.height := SpriteFile.height data;
                           SpriteFile.base_image := SpriteFile.base_image data;
                           SpriteFile.animations := anim_dict' |};
                      _base_dir := _base_dir self;
                      sage_directory := sage_directory self;
                      camera := camera self;
                      anim_current := anim_current self;
                      frame_current := frame_current self |};
                 files := files_after st;
                 inserted := added st;
                 requests := [] |}
        end
  | _, _ => Some unchanged
  end.

(** [_add_frame_at_index] with the file paths given. *)
Definition _add_frame_at_index (cwd : string) (self : t)
    (files : gmap string image) (insertion_index : Z)
    (file_paths : list string) : option outcome :=
  _insert_frames_at_index cwd self files file_paths insertion_index.

(** The request that [_add_ai_generated_frame_before] sends. *)
Definition request_before (self : t) (anim_name : string)
    (frames : list string) (pos : Z) : result ai_request :=
  let base_image := SpriteFile.base_image (sprite_data self) in
  if decide (Z.of_nat (length frames) = 0) then
    Ok (generate_next_sprite_image
          (sage_directory self) anim_name base_image (camera self))
  else if decide (pos = 0) then
    match list_index frames pos with
    | Some f =>
        Ok (generate_sprite_between_images
              (sage_directory self) anim_name [base_image; Some f] (camera self))
    | None => Raise IndexError
    end
  else
    match list_index frames (pos - 1), list_index frames pos with
    | Some f1, Some f2 =>
        Ok (generate_sprite_between_images
              (sage_directory self) anim_name [Some f1; Some f2] (camera self))
    | _, _ => Raise IndexError
    end.

(** The request that [_add_ai_generated_frame_after] sends. *)
Definition request_after (self : t) (anim_name : string)
    (frames : list string) (current_index : Z) : result ai_request :=
  let base_image := SpriteFile.base_image (sprite_data self) in
  let num_frames := Z.of_nat (length frames) in
  if decide (num_frames = 0) then
    Ok (generate_next_sprite_image
          (sage_directory self) anim_name base_image (camera self))
  else if decide (current_index = num_frames - 1) then
    match list_index frames current_index with
    | Some f =>
        Ok (generate_sprite_between_images
              (sage_directory self) anim_name [Some f; base_image] (camera self))
    | None => Raise IndexError
    end
  else
    match list_index frames current_index,
          list_index frames (current_index + 1) with
    | Some f1, Some f2 =>
        Ok (generate_sprite_between_images
              (sage_directory self) anim_name [Some f1; Some f2] (camera self))
    | _, _ => Raise IndexError
    end.

(** What follows the backend call in both operations: a missing or empty
    result ends the operation, any other is inserted at the index. *)
Definition insert_generated (cwd : string) (self : t)
    (files : gmap string image) (request : ai_request)
    (new_image : option string) (insertion_index : Z) : option outcome :=
  let failed :=
    {| view := self; files := files; inserted := []; requests := [request] |} in
  match new_image with
  | None => Some failed
  | Some p =>
      if decide (p = EmptyString) then Some failed
      else
        match _add_frame_at_index cwd self files insertion_index [p] with
        | None => None
        | Some o =>
            Some {| view := view o; files := SpriteEditorView.files o;
                    inserted := inserted o; requests := [request] |}
        end
  end.

(** [_add_ai_generated_frame_before]; [ai] is the generation backend. *)
Definition _add_ai_generated_frame_before (cwd : string)
    (ai : ai_request -> option string) (self : t)
    (files : gmap string image) : option (result outcome) :=
  let pos := default 0 (frame_current self) in
  match anim_current self with
  | None =>
      Some (Ok {| view := self; files := files; inserted := [];
                  requests := [] |})
  | Some anim_name =>
      let frames :=
        SpriteFile.get_animation_frames (sprite_data self) anim_name in
      match request_before self anim_name frames pos with
      | Raise e => Some (Raise e)
      | Ok request =>
          Ok <$> insert_generated cwd self files request (ai request) pos
      end
  end.

(** [_add_ai_generated_frame_after] *)
Definition _add_ai_generated_frame_after (cwd : string)
    (ai : ai_request -> option string) (self : t)
    (files : gmap string image) : option (result outcome) :=
  let current_index := default 0 (frame_current self) in
  match anim_current self with
  | None =>
      Some (Ok {| view := self; files := files; inserted := [];
                  requests := [] |})
  | Some anim_name =>
      let frames :=
        SpriteFile.get_animation_frames (sprite_data self) anim_name in
      let num_frames := Z.of_nat (length frames) in
      match request_after self anim_name frames current_index with
      | Raise e => Some (Raise e)
      | Ok request =>
          let insertion_index :=
            if decide (num_frames = 0) then 0 else current_index + 1 in
          Ok <$> insert_generated cwd self files request (ai request)
                                  insertion_index
      end
  end.

(** The sprite after an in-place change of the list that
    [get_animation_frames] returned: for a key of the dict that list is
    the one the animation holds, for any other name it is a fresh empty
    list that nothing else refers to. *)
Definition set_frames (data : SpriteFile.t) (anim_name : string)
    (frames : list string) : SpriteFile.t :=
  match dict_get (SpriteFile.animations data) anim_name with
  | None => data
  | Some a =>
      {| SpriteFile.uuid := SpriteFile.uuid data;
         SpriteFile.name := SpriteFile.name data;
         SpriteFile.description := SpriteFile.description data;
         SpriteFile.width := SpriteFile.width data;
         SpriteFile.height := SpriteFile.height data;
         SpriteFile.base_image := SpriteFile.base_image data;
         SpriteFile.animations :=
           dict_set (SpriteFile.animations data) anim_name
                    (Animation.mk (Animation.name a) frames) |}
  end.

(** The view with another sprite and another current frame row. *)
Definition with_frames (self : t) (data : SpriteFile.t) (row : Z) : t :=
  {| sprite_data := data;
     _base_dir := _base_dir self;
     sage_directory := sage_directory self;
     camera := camera self;
     anim_current := anim_current self;
     frame_current := Some row |}.

(** [not self.current_file_path] *)
Definition no_file_path (current_file_path : option string) : bool :=
  match current_file_path with
  | None => true
  | Some p => bool_decide (p = EmptyString)
  end.

(** [_move_frame_up]; [current_file_path] is the attribute of that name. *)
Definition _move_frame_up (self : t) (current_file_path : option string) : t :=
  match anim_current self, frame_current self with
  | Some anim_name, Some current_row =>
      if no_file_path current_file_path then self
      else if decide (current_row > 0) then
        let frames :=
          SpriteFile.get_animation_frames (sprite_data self) anim_name in
        if decide (Z.of_nat (length frames) > current_row) then
          match list_pop_at frames current_row with
          | None => self
          | Some (rest, item) =>
              let new_row := current_row - 1 in
              with_frames self
                (set_frames (sprite_data self) anim_name
                   (list_insert_at rest (current_row - 1) item))
                new_row
          end
        else self
      else self
  | _, _ => self
  end.


End SpriteEditorView.

(** ** Relations between paths and between file systems *)

(** Two paths that name the same file: for the current directory [cwd]
    their absolute normal forms have the same components. *)
Definition same_file (cwd p q : string) : Prop :=
  os_path.segments (os_path.abspath cwd p)
  = os_path.segments (os_path.abspath cwd q).

(** Every file of [files'] holds the image of a file of [files]. *)
Definition copies_of (files files' : gmap string image) : Prop :=
  forall p img, files' !! p = Some img -> exists src, files !! src = Some img.

(** ** Sample documents *)

(** A sprite whose animation "walk" was added before "idle". *)
Definition walk_idle_sprite : SpriteFile.t :=
  {| SpriteFile.uuid := "0001";
     SpriteFile.name := "hero";
     SpriteFile.description := "";
     SpriteFile.width := 256;
     SpriteFile.height := 256;
     SpriteFile.base_image := None;
     SpriteFile.animations :=
       [("walk", Animation.mk "walk" ["/p/w0.png"]);
        ("idle", Animation.mk "idle" ["/p/i0.png"])] |}.

(** A sprite with a base image and one animation without frames. *)
Definition no_frames_sprite : SpriteFile.t :=
  {| SpriteFile.uuid := "0002";
     SpriteFile.name := "rock";
     SpriteFile.description := "";
     SpriteFile.width := 64;
     SpriteFile.height := 64;
     SpriteFile.base_image := Some "/p/rock.png";
     SpriteFile.animations := [("idle", Animation.mk "idle" [])] |}.

Definition walk_idle_files : gmap string image :=
  <["/p/w0.png" := Picture]> (<["/p/i0.png" := Picture]> ∅).

(** A sprite of the project in [/games/quest], one of whose frames lies
    outside the project directory. *)
Definition knight_sprite : SpriteFile.t :=
  {| SpriteFile.uuid := "0003";
     SpriteFile.name := "knight";
     SpriteFile.description := "a knight";
     SpriteFile.width := 64;
     SpriteFile.height := 96;
     SpriteFile.base_image := Some "/games/quest/knight/base.png";
     SpriteFile.animations :=
       [("walk", Animation.mk "walk" ["/games/quest/knight/w0.png";
                                      "/games/quest/knight/w1.png"]);
        ("idle", Animation.mk "idle" ["/games/shared/i0.png"])] |}.

(** The editor on a sprite stored in [/games/quest], with the animation
    "walk" selected. *)
Definition hero_view (frames : list string) (frame_current : option Z)
  : SpriteEditorView.t :=
  {| SpriteEditorView.sprite_data :=
       {| SpriteFile.uuid := "0004";
          SpriteFile.name := "hero";
          SpriteFile.description := "the hero";
          SpriteFile.width := 64;
          SpriteFile.height := 64;
          SpriteFile.base_image := Some "/games/quest/base.png";
          SpriteFile.animations := [("walk", Animation.mk "walk" frames)] |};
     SpriteEditorView._base_dir := Some "/games/quest";
     SpriteEditorView.sage_directory := "/games/quest";
     SpriteEditorView.camera := "side";
     SpriteEditorView.anim_current := Some "walk";
     SpriteEditorView.frame_current := frame_current |}.

Definition quest_files : gmap string image :=
  list_to_map
    [("/games/quest/base.png", Picture); ("/games/quest/a.png", Picture);
     ("/games/quest/b.png", Picture); ("/games/quest/c.png", Picture);
     ("/games/quest/d.png", Picture); ("/games/quest/gen.png", Picture);
     ("/downloads/b.png", Picture)].

(** A backend that answers every request with the same new image. *)
Definition sample_backend (request : ai_request) : option string :=
  Some "/games/quest/gen.png".

(** A sprite with one frame whose cell width is 0. *)
Definition zero_width_sprite : SpriteFile.t :=
  {| SpriteFile.uuid := "0005";
     SpriteFile.name := "line";
     SpriteFile.description := "";
     SpriteFile.width := 0;
     SpriteFile.height := 64;
     SpriteFile.base_image := None;
     SpriteFile.animations := [("idle", Animation.mk "idle" ["/p/i0.png"])] |}.

(** The two animations of [walk_idle_sprite] under names in sorted
    order. *)
Definition idle_walk_sprite : SpriteFile.t :=
  {| SpriteFile.uuid := "0006";
     SpriteFile.name := "hero";
     SpriteFile.description := "";
     SpriteFile.width := 256;
     SpriteFile.height := 256;
     SpriteFile.base_image := None;
     SpriteFile.animations :=
       [("idle", Animation.mk "idle" ["/p/i0.png"]);
        ("walk", Animation.mk "walk" ["/p/w0.png"])] |}.

(** A sprite with no animation and no base image. *)
Definition blank_sprite : SpriteFile.t :=
  {| SpriteFile.uuid := "0007";
     SpriteFile.name := "blank";
     SpriteFile.description := "";
     SpriteFile.width := 64;
     SpriteFile.height := 64;
     SpriteFile.base_image := None;
     SpriteFile.animations := [] |}.

(** A background remover that copies the image as it is. *)
Definition copy_background (src dst : string) (files : gmap string image)
  : result unit * gmap string image :=
  match files !! src with
  | None => (Raise (FileNotFoundError src), files)
  | Some img => (Ok tt, <[dst := img]> files)
  end.

(** A sprite one of whose frames is the empty string. *)
Definition empty_frame_sprite : SpriteFile.t :=
  {| SpriteFile.uuid := "0008";
     SpriteFile.name := "ghost";
     SpriteFile.description := "";
     SpriteFile.width := 64;
     SpriteFile.height := 64;
     SpriteFile.base_image := None;
     SpriteFile.animations :=
       [("idle", Animation.mk "idle" ["/games/quest/g0.png"; ""])] |}.

(** [EMPTY_SAGE_TEMPLATE] of src/config.py. *)
Definition EMPTY_SAGE_TEMPLATE : SageFile.data :=
  {| SageFile.data_project_name := Some "";
     SageFile.data_version := Some "1.0";
     SageFile.data_created_at := Some "";
     SageFile.data_project_description := Some "";
     SageFile.data_keywords := Some "";
     SageFile.data_camera := None;
     SageFile.data_reference_images := Some [""; ""; ""; ""];
     SageFile.data_last_saved := None |}.

(** * Part II: properties *)

(** ** Python list primitives *)

Section PyListProps.
Context {A : Type}.

Lemma last_app_singleton (l : list A) (x : A) : last (l ++ [x]) = Some x.
Proof. apply last_snoc. Qed.

Lemma removelast_app_singleton (l : list A) (x : A) :
  removelast (l ++ [x]) = l.
Proof. apply removelast_last. Qed.

Lemma list_pop_snoc (l : list A) (x : A) : list_pop (l ++ [x]) = Some (l, x).
Proof.
  unfold list_pop. now rewrite last_app_singleton, removelast_app_singleton.
Qed.

Lemma last_Some_snoc (l : list A) (x : A) :
  last l = Some x -> l = removelast l ++ [x].
Proof.
  intros H. destruct (decide (l = [])) as [->|Hne]; [discriminate|].
  destruct (exists_last Hne) as [l' [y ->]].
  rewrite last_app_singleton in H. injection H as ->.
  now rewrite removelast_app_singleton.
Qed.

Lemma length_removelast_last (l : list A) (x : A) :
  last l = Some x -> length l = S (length (removelast l)).
Proof.
  intros H. rewrite (last_Some_snoc l x H) at 1.
  rewrite length_app. simpl. lia.
Qed.

End PyListProps.

(** ** Properties of the undo history *)

Module UndoProps.
Import UndoRedoManager.
Section Props.
Context {T : Type} `{EqDecision T}.
Implicit Types (m : t T) (s : T).

Lemma MAX_UNDO_COUNT_pos : 0 < MAX_UNDO_COUNT.
Proof. unfold MAX_UNDO_COUNT. lia. Qed.

Lemma save_undo_state_noop m s :
  last (_undo_stack m) = Some s -> save_undo_state m s = m.
Proof.
  intros H0. unfold save_undo_state. now rewrite bool_decide_eq_true_2.
Qed.

Lemma save_undo_state_push m s :
  last (_undo_stack m) <> Some s ->
  save_undo_state m s =
    {| _undo_stack :=
         (if bool_decide (length (_undo_stack m) = MAX_UNDO_COUNT)
          then tail (_undo_stack m) else _undo_stack m) ++ [s];
       _redo_stack := [] |}.
Proof.
  intros H0. unfold save_undo_state. now rewrite bool_decide_eq_false_2.
Qed.

Lemma save_history_size m s :
  history_size m <= MAX_UNDO_COUNT ->
  history_size (save_undo_state m s) <= MAX_UNDO_COUNT.
Proof.
  intros Hinv. destruct (decide (last (_undo_stack m) = Some s)) as [Heq|Hne].
  - now rewrite save_undo_state_noop.
  - rewrite save_undo_state_push by assumption.
    unfold history_size in *. cbn [_undo_stack _redo_stack].
    rewrite length_app. cbn [length].
    pose proof MAX_UNDO_COUNT_pos as Hpos.
    case_bool_decide as Hfull.
    + destruct (_undo_stack m) as [|x l]; cbn [length tail] in *; lia.
    + lia.
Qed.

Lemma undo_history_size m c :
  history_size (snd (perform_undo m c)) = history_size m
  \/ snd (perform_undo m c) = m.
Proof.
  unfold perform_undo, list_pop.
  destruct (last (_undo_stack m)) as [top|] eqn:Hl; [left|now right].
  unfold history_size. cbn [snd _undo_stack _redo_stack].
  rewrite length_app, (length_removelast_last _ _ Hl). cbn [length]. lia.
Qed.

Lemma redo_history_size m :
  history_size (snd (perform_redo m)) = history_size m
  \/ snd (perform_redo m) = m.
Proof.
  unfold perform_redo, list_pop.
  destruct (last (_redo_stack m)) as [top|] eqn:Hl; [left|now right].
  unfold history_size. cbn [snd _undo_stack _redo_stack].
  rewrite length_app, (length_removelast_last _ _ Hl). cbn [length]. lia.
Qed.

Lemma step_history_size m o :
  history_size m <= MAX_UNDO_COUNT ->
  history_size (step m o) <= MAX_UNDO_COUNT.
Proof.
  intros Hinv. destruct o as [s|c|]; cbn [step].
  - now apply save_history_size.
  - destruct (undo_history_size m c) as [->| ->]; assumption.
  - destruct (redo_history_size m) as [->| ->]; assumption.
Qed.

Lemma run_history_size ops m :
  history_size m <= MAX_UNDO_COUNT ->
  history_size (run ops m) <= MAX_UNDO_COUNT.
Proof.
  revert m. induction ops as [|o ops IH]; intros m Hinv; [exact Hinv|].
  cbn. apply IH. now apply step_history_size.
Qed.

(** C4. Starting from a fresh manager, after every sequence of
    [save_undo_state] / [perform_undo] / [perform_redo] calls the undo
    stack holds at most [MAX_UNDO_COUNT] entries; and a save onto a full
    undo stack (one that is not the no-change save) removes exactly the
    oldest entry and appends the new state, leaving the stack full. *)
Theorem undo_stack_bounded_fifo (ops : list (op T)) :
  let m := run ops init in
  length (_undo_stack m) <= MAX_UNDO_COUNT
  /\ forall s,
      length (_undo_stack m) = MAX_UNDO_COUNT ->
      last (_undo_stack m) <> Some s ->
      _undo_stack (save_undo_state m s) = tail (_undo_stack m) ++ [s]
      /\ length (_undo_stack (save_undo_state m s)) = MAX_UNDO_COUNT.
Proof.
  intros m. split.
  - assert (Hs : history_size m <= MAX_UNDO_COUNT).
    { apply run_history_size. unfold history_size. cbn. lia. }
    unfold history_size in Hs. lia.
  - intros s Hfull Hne. rewrite save_undo_state_push by assumption.
    cbn [_undo_stack]. rewrite bool_decide_eq_true_2 by assumption.
    split; [reflexivity|].
    rewrite length_app. cbn [length].
    pose proof MAX_UNDO_COUNT_pos.
    destruct (_undo_stack m); cbn [length tail] in *; lia.
Qed.

(** C5. After the commits [s0] and [s1] on a fresh manager, with [s2]
    the current state: undo returns [s1], a second undo returns [s0],
    and two redos return [s1] and then [s2]. *)
Theorem undo_redo_inverse_law (s0 s1 s2 : T) :
  s0 <> s1 -> s1 <> s2 -> s0 <> s2 ->
  let m1 := save_undo_state (save_undo_state init s0) s1 in
  let '(r1, m2) := perform_undo m1 s2 in
  let '(r2, m3) := perform_undo m2 s1 in
  let '(r3, m4) := perform_redo m3 in
  let '(r4, m5) := perform_redo m4 in
  r1 = Some s1 /\ r2 = Some s0 /\ r3 = Some s1 /\ r4 = Some s2
  /\ _undo_stack m5 = [s1; s2] /\ _redo_stack m5 = [].
Proof.
  intros H01 H12 H02.
  assert (E1 : save_undo_state (save_undo_state init s0) s1
               = {| _undo_stack := [s0; s1]; _redo_stack := [] |}).
  { unfold save_undo_state, init. cbn [_undo_stack _redo_stack last length app].
    rewrite (bool_decide_eq_false_2 (None = Some s0)) by discriminate.
    rewrite (bool_decide_eq_false_2 (0 = MAX_UNDO_COUNT)) by discriminate.
    cbn [_undo_stack _redo_stack last length app].
    rewrite (bool_decide_eq_false_2 (Some s0 = Some s1)) by congruence.
    rewrite (bool_decide_eq_false_2 (1 = MAX_UNDO_COUNT)) by discriminate.
    reflexivity. }
  rewrite E1. cbn. repeat split; reflexivity.
Qed.

(** C10. A save of a state equal to the top of the undo stack returns
    with both stacks as they were: the redo stack is not cleared. *)
Theorem save_equal_top_keeps_both_stacks m s :
  last (_undo_stack m) = Some s ->
  save_undo_state m s = m
  /\ _undo_stack (save_undo_state m s) = _undo_stack m
  /\ _redo_stack (save_undo_state m s) = _redo_stack m.
Proof.
  intros Htop. rewrite save_undo_state_noop by assumption. auto.
Qed.
End Props.

Lemma undo_stack_bounded_fifo_witness :
  let m := run (map Save (seq 0 1000)) (init (T:=nat)) in
  length (_undo_stack m) = MAX_UNDO_COUNT
  /\ last (_undo_stack m) <> Some 1000
  /\ _undo_stack (save_undo_state m 1000) = tail (_undo_stack m) ++ [1000]
  /\ length (_undo_stack (save_undo_state m 1000)) = MAX_UNDO_COUNT.
Proof.
  intros m.
  assert (Hfull : length (_undo_stack m) = MAX_UNDO_COUNT)
    by (vm_compute; reflexivity).
  assert (Hne : last (_undo_stack m) <> Some 1000)
    by (vm_compute; discriminate).
  split; [exact Hfull|]. split; [exact Hne|].
  exact (proj2 (undo_stack_bounded_fifo (map Save (seq 0 1000))) 1000 Hfull Hne).
Defined.

Lemma undo_redo_inverse_law_witness :
  let m1 := save_undo_state (save_undo_state (init (T:=nat)) 0) 1 in
  let '(r1, m2) := perform_undo m1 2 in
  let '(r2, m3) := perform_undo m2 1 in
  let '(r3, m4) := perform_redo m3 in
  let '(r4, m5) := perform_redo m4 in
  r1 = Some 1 /\ r2 = Some 0 /\ r3 = Some 1 /\ r4 = Some 2
  /\ _undo_stack m5 = [1; 2] /\ _redo_stack m5 = [].
Proof.
  apply (undo_redo_inverse_law (T:=nat) 0 1 2); lia.
Defined.

Lemma save_equal_top_keeps_both_stacks_witness :
  let m := {| _undo_stack := [1; 2]; _redo_stack := [7; 8] |} in
  save_undo_state m 2 = m
  /\ _undo_stack (save_undo_state m 2) = [1; 2]
  /\ _redo_stack (save_undo_state m 2) = [7; 8].
Proof.
  intros m. apply (save_equal_top_keeps_both_stacks m 2). reflexivity.
Defined.
End UndoProps.

(** ** Properties of the spritesheet packer *)

Module SheetProps.
Import SpriteSheetGenerator.
Local Open Scope Z_scope.

Lemma bit_length_pos (m : Z) :
  0 < m -> 2 ^ (bit_length m - 1) <= m < 2 ^ bit_length m.
Proof.
  intros Hm. unfold bit_length. destruct (decide (m = 0)) as [->|_]; [lia|].
  rewrite Z.abs_eq by lia. replace (Z.log2 m + 1 - 1) with (Z.log2 m) by lia.
  replace (Z.log2 m + 1) with (Z.succ (Z.log2 m)) by lia.
  apply Z.log2_spec. exact Hm.
Qed.

Lemma bit_length_nonneg (m : Z) : 0 <= bit_length m.
Proof.
  unfold bit_length. destruct (decide (m = 0)); [lia|].
  pose proof (Z.log2_nonneg (Z.abs m)). lia.
Qed.

Lemma next_power_of_two_nonpos (n : Z) : n <= 0 -> next_power_of_two n = 1.
Proof.
  intros Hn. unfold next_power_of_two. destruct (decide (n <= 0)); [reflexivity|lia].
Qed.

Lemma next_power_of_two_spec (n : Z) :
  exists k, 0 <= k /\ next_power_of_two n = 2 ^ k /\ n <= 2 ^ k
            /\ forall i, 0 <= i < k -> 2 ^ i < n.
Proof.
  unfold next_power_of_two. destruct (decide (n <= 0)) as [Hn|Hn].
  - exists 0. repeat split; lia.
  - exists (bit_length (n - 1)).
    pose proof (bit_length_nonneg (n - 1)) as Hk.
    split; [exact Hk|]. split.
    { rewrite Z.shiftl_mul_pow2 by exact Hk. lia. }
    destruct (decide (n = 1)) as [->|Hn1].
    + change (bit_length (1 - 1)) with 0 in *. split; [lia|]. intros i Hi. lia.
    + pose proof (bit_length_pos (n - 1) ltac:(lia)) as [Hlo Hhi].
      split; [lia|]. intros i Hi.
      assert (2 ^ i <= 2 ^ (bit_length (n - 1) - 1))
        by (apply Z.pow_le_mono_r; lia).
      lia.
Qed.

Lemma grid_cells_mono (w h s s' : Z) :
  0 < w -> 0 < h -> 0 <= s <= s' -> grid_cells w h s <= grid_cells w h s'.
Proof.
  intros Hw Hh Hs. unfold grid_cells.
  apply Z.mul_le_mono_nonneg.
  - apply Z.div_pos; lia.
  - apply Z.div_le_mono; lia.
  - apply Z.div_pos; lia.
  - apply Z.div_le_mono; lia.
Qed.

Lemma div_double (s w : Z) : 0 < w -> 0 <= s -> 2 * (s / w) <= (s * 2) / w.
Proof.
  intros Hw Hs. apply Z.div_le_lower_bound; [exact Hw|].
  pose proof (Z.mul_div_le s w Hw). lia.
Qed.

Lemma grid_cells_double (w h s : Z) :
  0 < w -> 0 < h -> w <= s -> h <= s ->
  grid_cells w h s < grid_cells w h (s * 2).
Proof.
  intros Hw Hh Hws Hhs. unfold grid_cells.
  assert (1 <= s / w) by (apply Z.div_le_lower_bound; lia).
  assert (1 <= s / h) by (apply Z.div_le_lower_bound; lia).
  pose proof (div_double s w Hw ltac:(lia)).
  pose proof (div_double s h Hh ltac:(lia)).
  nia.
Qed.

Lemma grid_cells_small (w h s : Z) :
  0 < w -> 0 < h -> 0 <= s < Z.max w h -> grid_cells w h s = 0.
Proof.
  intros Hw Hh Hs. unfold grid_cells.
  destruct (Z.max_spec w h) as [[_ Hm]|[_ Hm]]; rewrite Hm in Hs.
  - rewrite (Z.div_small s h) by lia. lia.
  - rewrite (Z.div_small s w) by lia. lia.
Qed.

Lemma determine_sheet_size_loop_spec (self : t) (num_frames : Z) :
  0 < width self -> 0 < height self ->
  forall fuel j,
    0 <= j ->
    Z.max (width self) (height self) <= 2 ^ j ->
    (forall i, 0 <= i < j ->
               grid_cells (width self) (height self) (2 ^ i) < num_frames) ->
    (Z.to_nat (num_frames - grid_cells (width self) (height self) (2 ^ j))
     < fuel)%nat ->
    exists k,
      j <= k
      /\ determine_sheet_size_loop fuel self num_frames (2 ^ j) = Some (Ok (2 ^ k))
      /\ grid_cells (width self) (height self) (2 ^ k) >= num_frames
      /\ forall i, 0 <= i < k ->
                   grid_cells (width self) (height self) (2 ^ i) < num_frames.
Proof.
  intros Hw Hh. induction fuel as [|fuel IH]; intros j Hj Hmax Hsmall Hfuel; [lia|].
  cbn [determine_sheet_size_loop]. unfold py_floordiv.
  destruct (decide (width self = 0)); [lia|].
  destruct (decide (height self = 0)); [lia|].
  fold (grid_cells (width self) (height self) (2 ^ j)).
  destruct (decide (grid_cells (width self) (height self) (2 ^ j) >= num_frames))
    as [Hfit|Hnofit].
  - exists j. repeat split; [lia|exact Hfit|exact Hsmall].
  - assert (Hpow : 2 ^ j * 2 = 2 ^ (j + 1)) by (rewrite Z.pow_add_r; lia).
    pose proof (grid_cells_double (width self) (height self) (2 ^ j)
                  Hw Hh ltac:(lia) ltac:(lia)) as Hgrow.
    rewrite Hpow in *.
    destruct (IH (j + 1)) as (k & Hk & Hrun & Hfit & Hmin).
    + lia.
    + assert (2 ^ j <= 2 ^ (j + 1)) by (apply Z.pow_le_mono_r; lia). lia.
    + intros i Hi. destruct (decide (i = j)) as [->|]; [lia|].
      apply Hsmall. lia.
    + lia.
    + exists k. repeat split; [lia|exact Hrun|exact Hfit|exact Hmin].
Qed.

(** C6. For [N >= 1] frames and cell sizes [w, h >= 1],
    [determine_sheet_size] returns, with any fuel of at least [N]
    iterations, a side [2^k] whose grid has at least [N] cells, and no
    power of two below it does; [next_power_of_two n] is 1 for [n <= 0]
    and always the least power of two that is at least [n]. *)
Theorem determine_sheet_size_least_power_of_two (self : t) (num_frames : Z) :
  1 <= num_frames -> 1 <= width self -> 1 <= height self ->
  (exists k,
      0 <= k
      /\ (forall fuel, (Z.to_nat num_frames <= fuel)%nat ->
            determine_sheet_size fuel self num_frames = Some (Ok (2 ^ k)))
      /\ (2 ^ k / width self) * (2 ^ k / height self) >= num_frames
      /\ forall i, 0 <= i < k ->
           (2 ^ i / width self) * (2 ^ i / height self) < num_frames)
  /\ (forall n, n <= 0 -> next_power_of_two n = 1)
  /\ (forall n, exists k,
        0 <= k /\ next_power_of_two n = 2 ^ k /\ n <= 2 ^ k
        /\ forall i, 0 <= i < k -> 2 ^ i < n).
Proof.
  intros HN Hw Hh. split; [|split].
  2: exact next_power_of_two_nonpos.
  2: exact next_power_of_two_spec.
  destruct (next_power_of_two_spec (Z.max (width self) (height self)))
    as (j & Hj & Hnpot & Hge & Hlt).
  assert (Hstart : forall i, 0 <= i < j ->
            grid_cells (width self) (height self) (2 ^ i) < num_frames).
  { intros i Hi. rewrite grid_cells_small; try lia.
    split; [apply Z.pow_nonneg; lia|]. apply Hlt. exact Hi. }
  assert (Hrun : forall fuel, (Z.to_nat num_frames <= fuel)%nat ->
            exists k, j <= k
              /\ determine_sheet_size fuel self num_frames = Some (Ok (2 ^ k))
              /\ grid_cells (width self) (height self) (2 ^ k) >= num_frames
              /\ forall i, 0 <= i < k ->
                   grid_cells (width self) (height self) (2 ^ i) < num_frames).
  { intros fuel Hfuel. unfold determine_sheet_size. rewrite Hnpot.
    apply determine_sheet_size_loop_spec; try lia; try assumption.
    assert (1 <= grid_cells (width self) (height self) (2 ^ j)).
    { unfold grid_cells.
      assert (1 <= 2 ^ j / width self) by (apply Z.div_le_lower_bound; lia).
      assert (1 <= 2 ^ j / height self) by (apply Z.div_le_lower_bound; lia).
      nia. }
    lia. }
  destruct (Hrun (Z.to_nat num_frames) ltac:(lia)) as (k & Hjk & _ & Hfit & Hmin).
  exists k. split; [lia|]. split; [|split; [exact Hfit|exact Hmin]].
  intros fuel Hfuel.
  destruct (Hrun fuel Hfuel) as (k' & Hjk' & Hrun' & Hfit' & Hmin').
  assert (k' = k) as ->; [|exact Hrun'].
  destruct (Z.lt_trichotomy k' k) as [Hlt'|[Heq|Hgt]]; [|exact Heq|].
  - specialize (Hmin k' ltac:(lia)). lia.
  - specialize (Hmin' k ltac:(lia)). lia.
Qed.

Lemma determine_sheet_size_least_power_of_two_witness :
  let self := sample_generator 48 20 in
  (1 <= 5 /\ 1 <= width self /\ 1 <= height self)
  /\ (exists k,
        0 <= k
        /\ (forall fuel, (Z.to_nat 5 <= fuel)%nat ->
              determine_sheet_size fuel self 5 = Some (Ok (2 ^ k)))
        /\ (2 ^ k / width self) * (2 ^ k / height self) >= 5
        /\ forall i, 0 <= i < k ->
             (2 ^ i / width self) * (2 ^ i / height self) < 5)
  /\ (forall n, n <= 0 -> next_power_of_two n = 1)
  /\ (forall n, exists k,
        0 <= k /\ next_power_of_two n = 2 ^ k /\ n <= 2 ^ k
        /\ forall i, 0 <= i < k -> 2 ^ i < n).
Proof.
  intros self. split; [cbn; lia|].
  apply (determine_sheet_size_least_power_of_two self 5); cbn; lia.
Defined.

Example determine_sheet_size_48_20_5 :
  determine_sheet_size 5 (sample_generator 48 20) 5 = Some (Ok 128).
Proof. reflexivity. Qed.

Example next_power_of_two_samples :
  map next_power_of_two [-3; 0; 1; 2; 3; 48; 64; 65] = [1; 1; 1; 2; 4; 64; 64; 128].
Proof. reflexivity. Qed.

End SheetProps.

(** ** Properties of packing and export *)

Module ExportProps.
Import SpriteSheetGenerator GodotSpriteExporter.
Local Open Scope Z_scope.

Lemma foldl_extend (acc : list string) (l : list Animation.t) :
  foldl (fun frames animation => frames ++ Animation.frames animation) acc l
  = acc ++ concat (map Animation.frames l).
Proof.
  revert acc. induction l as [|a l IH]; intros acc; cbn.
  - now rewrite app_nil_r.
  - rewrite IH. now rewrite <- app_assoc.
Qed.

(** The packer enumerates the frames animation by animation in the order
    of the dict, each animation's frames in list order. *)
Lemma get_all_frame_paths_dict_order (self : SpriteSheetGenerator.t) :
  get_all_frame_paths self
  = concat (map (fun entry => Animation.frames entry.2)
                (SpriteSheetGenerator.animations self)).
Proof.
  unfold get_all_frame_paths, dict_values. rewrite foldl_extend. cbn.
  f_equal. induction (SpriteSheetGenerator.animations self) as [|e l IH];
    [reflexivity|]. cbn. now rewrite <- IH.
Qed.

Lemma length_get_all_frame_paths (sprite_file : SpriteFile.t) :
  length (get_all_frame_paths (SpriteSheetGenerator.init sprite_file))
  = total_frames sprite_file.
Proof.
  rewrite get_all_frame_paths_dict_order. unfold total_frames. cbn.
  induction (SpriteFile.animations sprite_file) as [|e l IH]; [reflexivity|].
  cbn. rewrite length_app. now rewrite IH.
Qed.

(** C9. For a sprite whose animations hold no frame at all,
    [create_spritesheet] raises [ValueError] with the no-frames message
    and leaves the file system as it was: no atlas is written. *)
Theorem create_spritesheet_no_frames (fuel : nat) (sprite_file : SpriteFile.t)
    (output_path : option string) (files : gmap string image) :
  total_frames sprite_file = 0%nat ->
  create_spritesheet fuel (SpriteSheetGenerator.init sprite_file)
                     output_path files
  = Some (Raise (ValueError "No frames found in sprite data."), files).
Proof.
  intros Hzero. unfold create_spritesheet.
  rewrite length_get_all_frame_paths, Hzero.
  reflexivity.
Qed.

Lemma create_spritesheet_no_frames_witness :
  total_frames no_frames_sprite = 0%nat
  /\ create_spritesheet 0 (SpriteSheetGenerator.init no_frames_sprite)
                        (Some "out/rock_sheet.png") walk_idle_files
     = Some (Raise (ValueError "No frames found in sprite data."),
             walk_idle_files).
Proof.
  split; [reflexivity|].
  apply create_spritesheet_no_frames. reflexivity.
Defined.

(** C1, evaluated on a sprite whose animation "walk" was added before
    "idle". The packer pastes the frames in the order of the dict, walk
    first, which is not the lexicographic order of the names; the export
    adapter visits the names sorted, idle first. The entry of "idle" is
    given sub-resource 0, whose region is the cell where the frame of
    "walk" was pasted, and the entry of "walk" shows the frame of
    "idle". *)
Theorem packer_and_adapter_orders_differ :
  let exporter := GodotSpriteExporter.init walk_idle_sprite "out" in
  get_all_frame_paths (sheet_gen exporter) = ["/p/w0.png"; "/p/i0.png"]
  /\ sorted (dict_keys (SpriteFile.animations walk_idle_sprite))
     = ["idle"; "walk"]
  /\ exists doc files' sheet,
      export_tres 5 exporter walk_idle_files = Some (Ok doc, files')
      /\ files' !! tres_sheet doc = Some (Atlas sheet)
      /\ sheet_cells sheet = [(0, 0, "/p/w0.png"); (256, 0, "/p/i0.png")]
      /\ tres_animations doc = [("idle", [0%nat]); ("walk", [1%nat])]
      /\ frame_shown sheet doc 0 = Some "/p/w0.png"
      /\ frame_shown sheet doc 1 = Some "/p/i0.png"
      /\ SpriteFile.get_animation_frames walk_idle_sprite "idle"
         = ["/p/i0.png"]
      /\ SpriteFile.get_animation_frames walk_idle_sprite "walk"
         = ["/p/w0.png"].
Proof.
  intros exporter. split; [reflexivity|]. split; [reflexivity|].
  destruct (export_tres 5 exporter walk_idle_files) as [[[doc|e] files']|] eqn:E;
    try (vm_compute in E; discriminate).
  destruct (files' !! tres_sheet doc) as [[|sheet]|] eqn:F.
  1,3: exfalso; revert F; vm_compute in E;
       injection E as <- <-; vm_compute; discriminate.
  exists doc, files', sheet.
  split; [reflexivity|]. split; [exact F|].
  vm_compute in E. injection E as <- <-.
  vm_compute in F. injection F as <-.
  repeat split; reflexivity.
Qed.

End ExportProps.

(** ** Properties of the POSIX path functions *)

Module PathProps.
Import os_path.

Lemma append_cons (x : ascii) (a b : string) :
  String x a +:+ b = String x (a +:+ b).
Proof. reflexivity. Qed.

Lemma append_nil_l (b : string) : EmptyString +:+ b = b.
Proof. reflexivity. Qed.

Lemma append_assoc (a b c : string) : (a +:+ b) +:+ c = a +:+ (b +:+ c).
Proof.
  induction a as [|x a IH]; [reflexivity|].
  now rewrite !append_cons, IH.
Qed.

Lemma append_nil_r (a : string) : a +:+ EmptyString = a.
Proof.
  induction a as [|x a IH]; [reflexivity|]. now rewrite append_cons, IH.
Qed.

Lemma append_eq_nil (a b : string) :
  a +:+ b = EmptyString -> a = EmptyString /\ b = EmptyString.
Proof. destruct a; [auto|rewrite append_cons; discriminate]. Qed.

Lemma prefix_sep_cons (c : ascii) (s : string) :
  String.prefix "/" (String c s) = bool_decide (c = "/"%char).
Proof.
  change (String.prefix "/" (String c s))
    with (match ascii_dec "/" c with
          | left _ => String.prefix EmptyString s
          | right _ => false
          end).
  destruct (ascii_dec "/" c) as [<-|Hne].
  - rewrite bool_decide_eq_true_2 by reflexivity. now destruct s.
  - rewrite bool_decide_eq_false_2 by congruence. reflexivity.
Qed.

Lemma prefix_sep_append (a b : string) :
  a <> EmptyString ->
  String.prefix "/" (a +:+ b) = String.prefix "/" a.
Proof.
  destruct a as [|c a]; [congruence|]. intros _.
  change (String c a +:+ b) with (String c (a +:+ b)).
  now rewrite !prefix_sep_cons.
Qed.

Lemma slash_free_not_rooted (w : string) :
  slash_free w -> String.prefix "/" w = false.
Proof.
  destruct w as [|c w]; [reflexivity|]. intros [Hc _].
  rewrite prefix_sep_cons. now apply bool_decide_eq_false_2.
Qed.

Lemma split_cons_inv (s : string) : exists w ws, split s = w :: ws.
Proof.
  induction s as [|c s (w & ws & IH)]; cbn [split]; [eauto|].
  destruct (decide (c = "/"%char)); [eauto|]. rewrite IH. eauto.
Qed.

Lemma split_app_sep (a b : string) :
  split (a +:+ String "/" b) = split a ++ split b.
Proof.
  induction a as [|c a IH].
  - reflexivity.
  - rewrite append_cons. cbn [split].
    destruct (decide (c = "/"%char)); rewrite IH; [reflexivity|].
    destruct (split_cons_inv a) as (w & ws & ->). reflexivity.
Qed.

Lemma split_slash_free (s : string) : Forall slash_free (split s).
Proof.
  induction s as [|c s IH]; cbn [split].
  - repeat constructor.
  - destruct (decide (c = "/"%char)).
    + constructor; [exact I|exact IH].
    + destruct (split s) as [|w ws]; [repeat constructor; assumption|].
      inversion IH; subst. constructor; [split; assumption|assumption].
Qed.

Lemma split_of_slash_free (w : string) : slash_free w -> split w = [w].
Proof.
  induction w as [|c w IH]; cbn [split slash_free]; [reflexivity|].
  intros [Hc Hw].
  destruct (decide (c = "/"%char)); [contradiction|]. now rewrite IH.
Qed.

Lemma split_sep_join (l : list string) :
  l <> [] -> Forall slash_free l -> split (sep_join l) = l.
Proof.
  induction l as [|x l IH]; [congruence|]. intros _ Hall.
  inversion Hall as [|? ? Hx Hl]; subst.
  destruct l as [|y l].
  - cbn. now apply split_of_slash_free.
  - change (sep_join (x :: y :: l)) with (x +:+ String "/" (sep_join (y :: l))).
    rewrite split_app_sep, split_of_slash_free by assumption.
    rewrite IH by (congruence || assumption). reflexivity.
Qed.

Lemma segments_nil : segments EmptyString = [].
Proof. reflexivity. Qed.

Lemma segments_app_sep (a b : string) :
  segments (a +:+ String "/" b) = segments a ++ segments b.
Proof. unfold segments. now rewrite split_app_sep, filter_app. Qed.

Lemma segments_cons_sep (b : string) : segments (String "/" b) = segments b.
Proof. apply (segments_app_sep EmptyString b). Qed.

Lemma segments_of_component (w : string) :
  w <> EmptyString -> slash_free w -> segments w = [w].
Proof.
  intros Hne Hw. unfold segments. rewrite split_of_slash_free by assumption.
  cbn. destruct (decide (w <> EmptyString)); [reflexivity|contradiction].
Qed.

Lemma filter_nonempty_id (l : list string) :
  Forall (fun w => w <> EmptyString) l ->
  filter (fun x => x <> EmptyString) l = l.
Proof.
  induction 1 as [|w l Hw Hl IH]; [reflexivity|].
  rewrite filter_cons. destruct (decide (w <> EmptyString)); [|contradiction].
  now rewrite IH.
Qed.

Lemma segments_sep_join (l : list string) :
  Forall (fun w => w <> EmptyString /\ slash_free w) l ->
  segments (sep_join l) = l.
Proof.
  intros Hall. destruct (decide (l = [])) as [->|Hne]; [reflexivity|].
  unfold segments. rewrite split_sep_join.
  - apply filter_nonempty_id. eapply Forall_impl; [exact Hall|]. now intros w [? _].
  - exact Hne.
  - eapply Forall_impl; [exact Hall|]. now intros w [_ ?].
Qed.

Lemma endswith_sep_inv (a : string) :
  endswith_sep a = true -> exists a', a = a' +:+ "/".
Proof.
  induction a as [|c a IH]; cbn [endswith_sep]; [discriminate|].
  destruct a as [|c' a].
  - intros H%bool_decide_eq_true. subst. now exists EmptyString.
  - intros H. destruct (IH H) as [a' Ha']. exists (String c a').
    now rewrite append_cons, <- Ha'.
Qed.

Lemma join_step_relative (a b : string) :
  String.prefix "/" b = false ->
  segments (join_step a b) = segments a ++ segments b
  /\ (a <> EmptyString -> String.prefix "/" (join_step a b) = String.prefix "/" a)
  /\ (a = EmptyString -> join_step a b = b)
  /\ (b <> EmptyString -> join_step a b <> EmptyString).
Proof.
  intros Hb. unfold join_step. rewrite Hb.
  destruct (decide (a = EmptyString)) as [->|Hne].
  - rewrite bool_decide_eq_true_2 by reflexivity. cbn [orb].
    rewrite append_nil_l. repeat split; [congruence|auto].
  - rewrite (bool_decide_eq_false_2 _ Hne). cbn [orb].
    destruct (endswith_sep a) eqn:Hend.
    + destruct (endswith_sep_inv a Hend) as [a' ->]. repeat split.
      * rewrite append_assoc. change ("/" +:+ b) with (String "/" b).
        rewrite !segments_app_sep. rewrite segments_nil, app_nil_r. reflexivity.
      * intros _. now apply prefix_sep_append.
      * congruence.
      * intros _ [H _]%append_eq_nil. congruence.
    + repeat split.
      * change ("/" +:+ b) with (String "/" b). apply segments_app_sep.
      * intros _. now apply prefix_sep_append.
      * congruence.
      * intros _ [H _]%append_eq_nil. congruence.
Qed.


Lemma slash_free_dotdot : slash_free "..".
Proof. cbn. repeat split; discriminate. Qed.

Lemma clean_nonempty_slash_free (w : string) :
  clean w -> w <> EmptyString /\ slash_free w.
Proof. intros (? & _ & _ & ?). split; assumption. Qed.

Lemma norm_step_empty (k : nat) (st : list string) :
  norm_step k st EmptyString = st.
Proof. reflexivity. Qed.

Lemma norm_step_dot (k : nat) (st : list string) : norm_step k st "." = st.
Proof. reflexivity. Qed.

Lemma norm_step_push (k : nat) (st : list string) (w : string) :
  w <> EmptyString -> w <> "." -> w <> ".." -> norm_step k st w = st ++ [w].
Proof.
  intros H1 H2 H3. unfold norm_step.
  rewrite (bool_decide_eq_false_2 _ H1), (bool_decide_eq_false_2 _ H2).
  rewrite (bool_decide_eq_true_2 _ H3). reflexivity.
Qed.

Lemma norm_step_pop (k : nat) (st : list string) :
  k <> O -> Forall clean st -> norm_step k st ".." = removelast st.
Proof.
  intros Hk Hst. unfold norm_step.
  rewrite (bool_decide_eq_false_2 (".." = EmptyString)) by discriminate.
  rewrite (bool_decide_eq_false_2 (".." = ".")) by discriminate.
  rewrite (bool_decide_eq_false_2 (".." <> "..")) by tauto.
  rewrite (bool_decide_eq_false_2 _ Hk).
  rewrite (bool_decide_eq_false_2 (last st = Some "..")).
  - cbn. now rewrite andb_false_r.
  - intros Hlast. apply last_Some_elem_of in Hlast.
    rewrite Forall_forall in Hst. destruct (Hst _ Hlast) as (_ & _ & Hdd & _).
    now apply Hdd.
Qed.

Lemma norm_step_rooted (k : nat) (st : list string) (w : string) :
  k <> O -> norm_step k st w = norm_step 1 st w.
Proof.
  intros Hk. unfold norm_step.
  rewrite (bool_decide_eq_false_2 _ Hk).
  rewrite (bool_decide_eq_false_2 (1 = 0)%nat) by discriminate. reflexivity.
Qed.

Lemma foldl_norm_rooted (k : nat) (l st : list string) :
  k <> O -> foldl (norm_step k) st l = foldl (norm_step 1) st l.
Proof.
  intros Hk. revert st. induction l as [|w l IH]; intros st; [reflexivity|].
  cbn [foldl]. now rewrite IH, norm_step_rooted.
Qed.

Lemma foldl_norm_skip_empty (k : nat) (l st : list string) :
  foldl (norm_step k) st l
  = foldl (norm_step k) st (filter (fun x => x <> EmptyString) l).
Proof.
  revert st. induction l as [|w l IH]; intros st; [reflexivity|].
  rewrite filter_cons. destruct (decide (w <> EmptyString)) as [Hne|Heq].
  - cbn [foldl]. apply IH.
  - assert (w = EmptyString) as -> by (destruct (decide (w = EmptyString)); tauto).
    cbn [foldl]. rewrite norm_step_empty. apply IH.
Qed.

Lemma Forall_removelast {A : Type} (P : A -> Prop) (l : list A) :
  Forall P l -> Forall P (removelast l).
Proof.
  intros H. rewrite removelast_firstn_len. now apply Forall_take.
Qed.

Lemma norm_step_clean (st : list string) (w : string) :
  Forall clean st -> slash_free w -> Forall clean (norm_step 1 st w).
Proof.
  intros Hst Hw.
  destruct (decide (w = EmptyString)) as [->|H1]; [exact Hst|].
  destruct (decide (w = ".")) as [->|H2]; [exact Hst|].
  destruct (decide (w = "..")) as [->|H3].
  - rewrite norm_step_pop by (discriminate || assumption).
    now apply Forall_removelast.
  - rewrite norm_step_push by assumption.
    apply Forall_app. split; [exact Hst|]. repeat constructor; assumption.
Qed.

Lemma foldl_norm_clean (l st : list string) :
  Forall clean st -> Forall slash_free l ->
  Forall clean (foldl (norm_step 1) st l).
Proof.
  revert st. induction l as [|w l IH]; intros st Hst Hl; [exact Hst|].
  inversion Hl; subst. cbn [foldl]. apply IH; [|assumption].
  now apply norm_step_clean.
Qed.

Lemma segments_slash_free (s : string) : Forall slash_free (segments s).
Proof.
  unfold segments. apply Forall_forall. intros w [_ Hw]%list_elem_of_filter.
  revert w Hw. apply Forall_forall, split_slash_free.
Qed.

Lemma resolve_clean (s : string) : Forall clean (resolve (segments s)).
Proof.
  unfold resolve. apply foldl_norm_clean; [constructor|apply segments_slash_free].
Qed.

Lemma foldl_norm_pops (n : nat) (st : list string) :
  Forall clean st -> (n <= length st)%nat ->
  foldl (norm_step 1) st (replicate n "..") = take (length st - n) st.
Proof.
  revert st. induction n as [|n IH]; intros st Hst Hn.
  - cbn. rewrite Nat.sub_0_r. now rewrite firstn_all.
  - cbn [replicate foldl]. rewrite norm_step_pop by (discriminate || assumption).
    rewrite IH.
    + rewrite removelast_firstn_len, length_take, take_take. f_equal. lia.
    + now apply Forall_removelast.
    + rewrite removelast_firstn_len, length_take. lia.
Qed.

Lemma foldl_norm_pushes (l st : list string) :
  Forall clean l -> foldl (norm_step 1) st l = st ++ l.
Proof.
  revert st. induction l as [|w l IH]; intros st Hl.
  - now rewrite app_nil_r.
  - inversion Hl as [|? ? (H1 & H2 & H3 & _) Hl']; subst. cbn [foldl].
    rewrite norm_step_push by assumption. rewrite IH by assumption.
    now rewrite <- app_assoc.
Qed.

Lemma normpath_rooted_segments (y : string) :
  String.prefix "/" y = true -> segments (normpath y) = resolve (segments y).
Proof.
  intros Hy. unfold normpath.
  destruct (decide (y = EmptyString)) as [->|Hne]; [discriminate|].
  rewrite Hy.
  set (k := if String.prefix "//" y && negb (String.prefix "///" y)
            then 2%nat else 1%nat).
  assert (Hk : k <> O) by (unfold k; destruct (_ && _); discriminate).
  rewrite (foldl_norm_rooted k) by exact Hk.
  rewrite foldl_norm_skip_empty. fold (segments y). fold (resolve (segments y)).
  pose proof (resolve_clean y) as Hclean.
  assert (Hseg : segments (sep_join (resolve (segments y))) = resolve (segments y)).
  { apply segments_sep_join. eapply Forall_impl; [exact Hclean|].
    intros w Hw. now apply clean_nonempty_slash_free. }
  destruct k as [|[|k]]; [congruence| |].
  - change ("/" +:+ sep_join (resolve (segments y)))
      with (String "/" (sep_join (resolve (segments y)))).
    destruct (decide (String "/" (sep_join (resolve (segments y))) = EmptyString));
      [discriminate|].
    now rewrite segments_cons_sep.
  - change ("//" +:+ sep_join (resolve (segments y)))
      with (String "/" (String "/" (sep_join (resolve (segments y))))).
    destruct (decide (String "/" (String "/" (sep_join (resolve (segments y))))
                      = EmptyString)); [discriminate|].
    now rewrite !segments_cons_sep.
Qed.

Lemma abspath_segments (cwd path : string) :
  String.prefix "/" cwd = true ->
  segments (abspath cwd path) = resolve (anchored cwd path).
Proof.
  intros Hcwd. unfold abspath, anchored, isabs.
  destruct (String.prefix "/" path) eqn:Hp.
  - now apply normpath_rooted_segments.
  - assert (Hne : cwd <> EmptyString) by (intros ->; discriminate).
    destruct (join_step_relative cwd path Hp) as (Hseg & Hroot & _ & _).
    cbn [join foldl]. rewrite normpath_rooted_segments.
    + now rewrite Hseg.
    + rewrite Hroot by exact Hne. exact Hcwd.
Qed.

Lemma anchored_slash_free (cwd path : string) :
  Forall slash_free (anchored cwd path).
Proof.
  unfold anchored. destruct (isabs path).
  - apply segments_slash_free.
  - apply Forall_app. split; apply segments_slash_free.
Qed.

Lemma abspath_clean (cwd path : string) :
  String.prefix "/" cwd = true -> Forall clean (segments (abspath cwd path)).
Proof.
  intros Hcwd. rewrite abspath_segments by exact Hcwd.
  apply foldl_norm_clean; [constructor|apply anchored_slash_free].
Qed.

Lemma anchored_join_step (cwd d r : string) :
  String.prefix "/" r = false ->
  anchored cwd (join_step d r) = anchored cwd d ++ segments r.
Proof.
  intros Hr. unfold anchored, isabs.
  destruct (join_step_relative d r Hr) as (Hseg & Hroot & Hnil & _).
  destruct (decide (d = EmptyString)) as [->|Hne].
  - rewrite Hnil by reflexivity. rewrite Hr. cbn [String.prefix].
    now rewrite segments_nil, !app_nil_r.
  - rewrite Hroot by exact Hne. rewrite Hseg.
    destruct (String.prefix "/" d); [reflexivity|]. now rewrite app_assoc.
Qed.

Lemma commonprefix_take (a b : list string) :
  let i := length (commonprefix a b) in
  take i a = take i b /\ (i <= length a)%nat /\ (i <= length b)%nat.
Proof.
  revert b. induction a as [|x a IH]; intros b; cbn; [repeat split; lia|].
  destruct b as [|y b]; cbn; [repeat split; lia|].
  destruct (decide (x = y)) as [->|Hne]; cbn; [|repeat split; lia].
  destruct (IH b) as (Ht & Ha & Hb). repeat split; [now f_equal|lia|lia].
Qed.

Lemma join_components (rest : list string) (acc : string) :
  acc <> EmptyString -> String.prefix "/" acc = false ->
  Forall (fun w => w <> EmptyString /\ slash_free w) rest ->
  segments (join acc rest) = segments acc ++ rest
  /\ String.prefix "/" (join acc rest) = false
  /\ join acc rest <> EmptyString.
Proof.
  unfold join. revert acc.
  induction rest as [|b rest IH]; intros acc Hne Hrel Hall.
  - cbn. now rewrite app_nil_r.
  - inversion Hall as [|? ? [Hb Hsf] Hall']; subst. cbn [foldl].
    destruct (join_step_relative acc b (slash_free_not_rooted b Hsf))
      as (Hseg & Hroot & _ & Hnonnil).
    destruct (IH (join_step acc b)) as (IH1 & IH2 & IH3).
    + now apply Hnonnil.
    + now rewrite Hroot.
    + exact Hall'.
    + rewrite IH1, Hseg, (segments_of_component b) by assumption.
      rewrite <- app_assoc. auto.
Qed.

(** [relpath] is stable under joining its result back onto [start]. *)
Lemma relpath_join_stable (cwd path start r : string) :
  String.prefix "/" cwd = true ->
  relpath cwd path start = Ok r ->
  r <> EmptyString
  /\ relpath cwd (join start [r]) start = Ok r.
Proof.
  intros Hcwd. unfold relpath at 1.
  destruct (decide (path = EmptyString)) as [|Hpath]; [discriminate|].
  set (S := segments (abspath cwd start)).
  set (P := segments (abspath cwd path)).
  destruct (commonprefix_take S P) as (Htake & HiS & HiP).
  set (i := length (commonprefix S P)) in *.
  pose proof (abspath_clean cwd start Hcwd) as HS. fold S in HS.
  pose proof (abspath_clean cwd path Hcwd) as HP. fold P in HP.
  set (rel_list := replicate (length S - i) ".." ++ drop i P).
  assert (Hrel : Forall (fun w => w <> EmptyString /\ slash_free w) rel_list).
  { apply Forall_app. split.
    - apply Forall_replicate. split; [discriminate|apply slash_free_dotdot].
    - apply Forall_drop. eapply Forall_impl; [exact HP|].
      intros w Hw. now apply clean_nonempty_slash_free. }
  assert (Hfold : foldl (norm_step 1) S rel_list = P).
  { unfold rel_list. rewrite foldl_app, foldl_norm_pops by (assumption || lia).
    rewrite foldl_norm_pushes by now apply Forall_drop.
    replace (length S - (length S - i))%nat with i by lia.
    rewrite Htake. apply take_drop. }
  intros Hr.
  assert (Hrseg : r <> EmptyString /\ String.prefix "/" r = false
                  /\ foldl (norm_step 1) S (segments r) = P).
  { destruct rel_list as [|a rest] eqn:Erel.
    - injection Hr as <-. split; [discriminate|]. split; [reflexivity|].
      change (segments ".") with ["."]. cbn [foldl]. rewrite norm_step_dot.
      apply app_eq_nil in Erel as [Hrep Hdrop].
      rewrite <- (take_drop i P), Hdrop, app_nil_r, <- Htake.
      assert (length S - i = 0)%nat
        by (destruct (length S - i)%nat; [reflexivity|discriminate]).
      symmetry. apply firstn_all2. lia.
    - injection Hr as <-. inversion Hrel as [|? ? [Ha Hsf] Hrest]; subst.
      destruct (join_components rest a Ha (slash_free_not_rooted a Hsf) Hrest)
        as (Hseg & Hroot & Hnonnil).
      split; [exact Hnonnil|]. split; [exact Hroot|].
      rewrite Hseg, (segments_of_component a) by assumption. exact Hfold. }
  destruct Hrseg as (Hrne & Hrroot & Hrfold).
  split; [exact Hrne|].
  unfold relpath. cbn [join foldl].
  destruct (join_step_relative start r Hrroot) as (_ & _ & _ & Hnonnil).
  destruct (decide (join_step start r = EmptyString)) as [Hnil|_];
    [now apply Hnonnil in Hnil|].
  assert (HP' : segments (abspath cwd (join_step start r)) = P).
  { rewrite abspath_segments by exact Hcwd.
    rewrite anchored_join_step by exact Hrroot.
    unfold resolve. rewrite foldl_app.
    fold (resolve (anchored cwd start)).
    rewrite <- abspath_segments by exact Hcwd. exact Hrfold. }
  rewrite HP'. fold S. fold i. fold rel_list. exact Hr.
Qed.

End PathProps.

(** ** Properties of the sprite document *)

Module SpriteFileProps.
Import os_path PathProps SpriteFile.

Section Dict.
Context {V : Type}.

Lemma dict_set_fresh (d : list (string * V)) (k : string) (v : V) :
  k ∉ dict_keys d -> dict_set d k v = d ++ [(k, v)].
Proof.
  induction d as [|[k' v'] d IH]; intros Hk; [reflexivity|].
  cbn [dict_set]. unfold dict_keys in *. rewrite fmap_cons, not_elem_of_cons in Hk.
  destruct Hk as [Hne Hk]. cbn in Hne.
  destruct (decide (k' = k)); [congruence|]. now rewrite IH.
Qed.

Lemma dict_get_NoDup (d : list (string * V)) (k : string) (v : V) :
  NoDup (dict_keys d) -> (k, v) ∈ d -> dict_get d k = Some v.
Proof.
  unfold dict_keys. induction d as [|[k' v'] d IH]; intros Hnd Hin.
  - now apply elem_of_nil in Hin.
  - rewrite fmap_cons, NoDup_cons in Hnd. destruct Hnd as [Hk' Hnd].
    cbn [dict_get]. apply elem_of_cons in Hin as [Heq|Hin].
    + injection Heq as -> ->. destruct (decide (k' = k')); [reflexivity|congruence].
    + destruct (decide (k' = k)) as [->|Hne]; [|now apply IH].
      exfalso. apply Hk'. cbn. change k with ((k, v).1).
      now apply list_elem_of_fmap_2.
Qed.

Lemma dict_build_entries (entries acc : list (string * V)) :
  NoDup (dict_keys (acc ++ entries)) ->
  foldl (fun d entry => dict_set d entry.1 entry.2) acc entries = acc ++ entries.
Proof.
  revert acc. induction entries as [|[k v] entries IH]; intros acc Hnd.
  - now rewrite app_nil_r.
  - cbn [foldl fst snd]. rewrite dict_set_fresh.
    + rewrite IH; rewrite <- app_assoc; [reflexivity|exact Hnd].
    + unfold dict_keys in *. rewrite fmap_app, NoDup_app in Hnd.
      destruct Hnd as (_ & Hdisj & _). intros Hk. apply (Hdisj k Hk).
      rewrite fmap_cons. apply elem_of_cons. now left.
Qed.

End Dict.

Section DictRebuild.
Context {V W : Type}.

Lemma dict_rebuild (F : string -> option V -> W) (d : list (string * V)) :
  NoDup (dict_keys d) ->
  foldl (fun acc k => dict_set acc k (F k (dict_get d k))) [] (dict_keys d)
  = (fun entry => (entry.1, F entry.1 (Some entry.2))) <$> d.
Proof.
  intros Hnd.
  set (G := fun entry : string * V => (entry.1, F entry.1 (Some entry.2))).
  enough (Hgen : forall d2 d1, d = d1 ++ d2 ->
            foldl (fun acc k => dict_set acc k (F k (dict_get d k)))
                  (G <$> d1) (dict_keys d2) = G <$> d).
  { apply (Hgen d []). reflexivity. }
  induction d2 as [|[k v] d2 IH]; intros d1 Hd.
  - cbn. now rewrite Hd, app_nil_r.
  - unfold dict_keys. rewrite fmap_cons. cbn [foldl fst].
    rewrite (dict_get_NoDup d k v Hnd).
    2:{ rewrite Hd. apply elem_of_app. right. apply elem_of_cons. now left. }
    rewrite dict_set_fresh.
    + replace ((G <$> d1) ++ [(k, F k (Some v))]) with (G <$> (d1 ++ [(k, v)]))
        by now rewrite fmap_app.
      apply IH. now rewrite <- app_assoc.
    + unfold dict_keys in *. rewrite <- list_fmap_compose.
      rewrite Hd, fmap_app, NoDup_app in Hnd. destruct Hnd as (_ & Hdisj & _).
      intros Hk. apply (Hdisj k Hk). rewrite fmap_cons. apply elem_of_cons. now left.
Qed.
End DictRebuild.

Lemma mapM_result_ok {A B : Type} (f : A -> result B) (g : A -> B) (l : list A) :
  Forall (fun a => f a = Ok (g a)) l -> mapM f l = Ok (g <$> l).
Proof.
  induction 1 as [|a l Ha Hl IH]; [reflexivity|].
  cbn [mapM]. rewrite Ha. cbn. rewrite IH. reflexivity.
Qed.


Lemma dict_get_elem_of {V : Type} (d : list (string * V)) (k : string) (v : V) :
  dict_get d k = Some v -> (k, v) ∈ d.
Proof.
  induction d as [|[k' v'] d IH]; cbn [dict_get]; [discriminate|].
  destruct (decide (k' = k)) as [->|_].
  - intros [= ->]. apply elem_of_cons. now left.
  - intros H. apply elem_of_cons. right. now apply IH.
Qed.

Section RoundTrip.
Variables (cwd sage_directory : string).
Hypothesis cwd_rooted : String.prefix "/" cwd = true.

#[local] Abbreviation rel := (SpriteFile.rel cwd sage_directory).
#[local] Abbreviation stored := (SpriteFile.stored cwd sage_directory).

Lemma relpath_ok (y : string) :
  y <> EmptyString -> relpath cwd y sage_directory = Ok (rel y).
Proof.
  intros Hy. unfold rel, relpath.
  destruct (decide (y = EmptyString)); [contradiction|].
  destruct (_ ++ _); reflexivity.
Qed.

Lemma rel_join_stable (y : string) :
  y <> EmptyString ->
  rel y <> EmptyString
  /\ join sage_directory [rel y] <> EmptyString
  /\ rel (join sage_directory [rel y]) = rel y.
Proof.
  intros Hy.
  destruct (relpath_join_stable cwd y sage_directory (rel y) cwd_rooted
              (relpath_ok y Hy)) as [Hne Hstable].
  split; [exact Hne|]. split.
  - intros Hnil. rewrite Hnil in Hstable. discriminate.
  - unfold rel at 1. now rewrite Hstable.
Qed.

Lemma to_dict_stored (x : SpriteFile.t) :
  NoDup (dict_keys (animations x)) -> nonempty_paths x ->
  to_dict cwd x sage_directory = Ok (stored x).
Proof.
  intros Hnd [Hbase Hframes]. unfold to_dict.
  assert (Hb : match base_image x with
               | Some b =>
                   if decide (b = EmptyString) then Ok (Some b)
                   else Some <$> relpath cwd b sage_directory
               | None => Ok None
               end = Ok (rel <$> base_image x)).
  { destruct (base_image x) as [b|]; [|reflexivity].
    destruct (decide (b = EmptyString)) as [->|Hne]; [congruence|].
    now rewrite relpath_ok. }
  rewrite Hb. cbn [mbind result_bind].
  set (g := fun k : string =>
              (k, rel <$> match dict_get (animations x) k with
                          | Some a => Animation.frames a
                          | None => []
                          end)).
  rewrite (mapM_result_ok _ g).
  2:{ apply Forall_forall. intros k _. unfold relative_frames, g.
      rewrite (mapM_result_ok _ rel); [reflexivity|].
      destruct (dict_get (animations x) k) as [a|] eqn:Hget; [|constructor].
      apply dict_get_elem_of in Hget.
      rewrite Forall_forall in Hframes. specialize (Hframes _ Hget). cbn in Hframes.
      eapply Forall_impl; [exact Hframes|]. intros y Hy. now apply relpath_ok. }
  cbn [mbind result_bind mret result_ret].
  assert (Hg : g <$> dict_keys (animations x)
               = (fun entry => (entry.1, rel <$> Animation.frames entry.2))
                   <$> animations x).
  { unfold dict_keys. rewrite <- list_fmap_compose.
    apply list_fmap_ext. intros i [k a] Hi. unfold g. cbn.
    rewrite (dict_get_NoDup (animations x) k a Hnd); [reflexivity|].
    eapply list_elem_of_lookup_2. exact Hi. }
  rewrite dict_build_entries.
  - unfold stored. now rewrite app_nil_l, Hg.
  - rewrite app_nil_l, Hg. unfold dict_keys in *.
    rewrite <- list_fmap_compose. exact Hnd.
Qed.

Lemma from_dict_animations (d : data) :
  NoDup (dict_keys (data_animations d)) ->
  animations (from_dict d sage_directory)
  = (fun entry =>
       (entry.1,
        Animation.mk entry.1 ((fun x => join sage_directory [x]) <$> entry.2)))
      <$> data_animations d.
Proof.
  intros Hnd. unfold from_dict. cbn [animations].
  apply (dict_rebuild
           (fun k o => Animation.mk k ((fun x => join sage_directory [x])
                                         <$> default [] o))).
  exact Hnd.
Qed.

Lemma stored_from_dict_stored (x : SpriteFile.t) :
  NoDup (dict_keys (animations x)) -> nonempty_paths x ->
  let x' := from_dict (stored x) sage_directory in
  NoDup (dict_keys (animations x')) /\ nonempty_paths x' /\ stored x' = stored x.
Proof.
  intros Hnd [Hbase Hframes] x'.
  assert (Hnd' : NoDup (dict_keys (data_animations (stored x)))).
  { cbn. unfold dict_keys in *. rewrite <- list_fmap_compose. exact Hnd. }
  pose proof (from_dict_animations (stored x) Hnd') as Hanims.
  fold x' in Hanims. cbn [data_animations stored] in Hanims.
  rewrite <- list_fmap_compose in Hanims.
  assert (Hbase' : base_image x'
                   = (fun b => join sage_directory [rel b]) <$> base_image x).
  { unfold x', from_dict. cbn [base_image data_base_image stored].
    destruct (base_image x) as [b|]; [|reflexivity]. cbn.
    assert (b <> EmptyString) by congruence.
    destruct (rel_join_stable b) as (Hne & _); [assumption|].
    destruct (decide (rel b = EmptyString)); [contradiction|reflexivity]. }
  split; [|split].
  - rewrite Hanims. unfold dict_keys in *. rewrite <- list_fmap_compose. exact Hnd.
  - split.
    + rewrite Hbase'. destruct (base_image x) as [b|]; [|discriminate].
      cbn. intros [= Hnil].
      assert (b <> EmptyString) by congruence.
      destruct (rel_join_stable b) as (_ & Hne & _); [assumption|]. contradiction.
    + rewrite Hanims. apply Forall_fmap. eapply Forall_impl; [exact Hframes|].
      intros [k a] Ha. cbn in *. rewrite <- list_fmap_compose. apply Forall_fmap.
      eapply Forall_impl; [exact Ha|]. intros y Hy. cbn.
      now destruct (rel_join_stable y Hy) as (_ & Hne & _).
  - unfold stored at 1. rewrite Hanims, Hbase'. unfold stored. f_equal.
    + destruct (base_image x) as [b|]; [|reflexivity]. cbn. f_equal.
      assert (b <> EmptyString) by congruence.
      now destruct (rel_join_stable b) as (_ & _ & Hst).
    + rewrite <- list_fmap_compose. apply list_fmap_ext. intros i [k a] Hi. cbn.
      f_equal. rewrite <- !list_fmap_compose. apply list_fmap_ext.
      intros j y Hj. cbn.
      assert (Hy : y <> EmptyString).
      { rewrite Forall_forall in Hframes.
        specialize (Hframes _ (list_elem_of_lookup_2 _ _ _ Hi)). cbn in Hframes.
        rewrite Forall_forall in Hframes.
        apply Hframes. eapply list_elem_of_lookup_2. exact Hj. }
      now destruct (rel_join_stable y Hy) as (_ & _ & Hst).
Qed.

Lemma valid_nonempty_paths (x : SpriteFile.t) : valid x -> nonempty_paths x.
Proof.
  intros (Hbase & Hframes & _). split.
  - destruct (base_image x) as [b|]; [|discriminate].
    intros [= ->]. discriminate.
  - eapply Forall_impl; [exact Hframes|]. intros e He.
    eapply Forall_impl; [exact He|]. intros y Hy ->. discriminate.
Qed.

(** C7. With the process in an absolute current directory, for every
    valid sprite [x] and every sage directory [d], [to_dict] returns a
    dict, and reading that dict back with [from_dict] and serializing
    again returns the same dict. *)
Theorem to_dict_from_dict_round_trip (x : SpriteFile.t) :
  valid x ->
  exists d : data,
    to_dict cwd x sage_directory = Ok d
    /\ to_dict cwd (from_dict d sage_directory) sage_directory = Ok d.
Proof.
  intros Hvalid. pose proof (valid_nonempty_paths x Hvalid) as Hne.
  destruct Hvalid as (_ & _ & Hnd).
  exists (stored x). split; [now apply to_dict_stored|].
  destruct (stored_from_dict_stored x Hnd Hne) as (Hnd' & Hne' & Hst).
  rewrite to_dict_stored by assumption. now rewrite Hst.
Qed.
End RoundTrip.

Lemma to_dict_from_dict_round_trip_witness :
  String.prefix "/" "/home/artist" = true
  /\ valid knight_sprite
  /\ exists d : data,
      to_dict "/home/artist" knight_sprite "/games/quest" = Ok d
      /\ to_dict "/home/artist" (from_dict d "/games/quest") "/games/quest" = Ok d.
Proof.
  assert (Hvalid : valid knight_sprite).
  { split; [reflexivity|]. split.
    - repeat constructor.
    - cbn. apply NoDup_cons. split; [|apply NoDup_singleton].
      intros Hin%list_elem_of_singleton. discriminate. }
  split; [reflexivity|]. split; [exact Hvalid|].
  apply (to_dict_from_dict_round_trip "/home/artist" "/games/quest" eq_refl
           knight_sprite Hvalid).
Defined.

Example knight_sprite_to_dict :
  to_dict "/home/artist" knight_sprite "/games/quest"
  = Ok {| data_uuid := "0003";
          data_name := "knight";
          data_description := "a knight";
          data_width := 64;
          data_height := 96;
          data_base_image := Some "knight/base.png";
          data_animations :=
            [("walk", ["knight/w0.png"; "knight/w1.png"]);
             ("idle", ["../shared/i0.png"])] |}.
Proof. reflexivity. Qed.

End SpriteFileProps.

(** ** Properties of the frame operations *)

Module EditorProps.
Import os_path PathProps SpriteEditorView.
Local Open Scope Z_scope.

Lemma append_inj_l (a x y : string) : a +:+ x = a +:+ y -> x = y.
Proof.
  induction a as [|c a IH]; [auto|]. rewrite !append_cons. intros [= H]. auto.
Qed.

Lemma length_append (a b : string) :
  String.length (a +:+ b) = (String.length a + String.length b)%nat.
Proof.
  induction a as [|c a IH]; [reflexivity|].
  rewrite append_cons. cbn [String.length]. now rewrite IH.
Qed.

Lemma append_inj_r (e x y : string) : x +:+ e = y +:+ e -> x = y.
Proof.
  revert y. induction x as [|c x IH]; intros [|c' y] H.
  - reflexivity.
  - apply (f_equal String.length) in H. rewrite !length_append in H.
    cbn [String.length] in H. lia.
  - apply (f_equal String.length) in H. rewrite !length_append in H.
    cbn [String.length] in H. lia.
  - rewrite !append_cons in H. injection H as -> H. f_equal. now apply IH.
Qed.

Lemma str_of_int_inj (n m : Z) : str_of_int n = str_of_int m -> n = m.
Proof.
  unfold str_of_int. intros H. apply DecimalZ.to_int_inj.
  assert (Hnn : forall z, Z.to_int z <> Decimal.Pos Decimal.Nil
                          /\ Z.to_int z <> Decimal.Neg Decimal.Nil).
  { intros [|p|p]; cbn; split; try discriminate; intros [= Hp];
      now apply DecimalPos.Unsigned.to_uint_nonnil in Hp. }
  destruct (Hnn n) as [Hn1 Hn2]. destruct (Hnn m) as [Hm1 Hm2].
  pose proof (DecimalString.NilZero.isi _ Hn1 Hn2) as En.
  pose proof (DecimalString.NilZero.isi _ Hm1 Hm2) as Em.
  rewrite H in En. congruence.
Qed.

(** The name tried for the counter [c]. *)
Lemma candidate_inj (base_dir name ext : string) (c c' : Z) :
  join base_dir [name +:+ "_" +:+ str_of_int c +:+ ext]
  = join base_dir [name +:+ "_" +:+ str_of_int c' +:+ ext] ->
  c = c'.
Proof.
  cbn [join foldl]. intros H.
  set (b := name +:+ "_" +:+ str_of_int c +:+ ext) in *.
  set (b' := name +:+ "_" +:+ str_of_int c' +:+ ext) in *.
  assert (Hroot : String.prefix "/" b = String.prefix "/" b').
  { unfold b, b'. destruct name as [|x name]; [reflexivity|].
    now rewrite !prefix_sep_append by discriminate. }
  assert (Hb : b = b').
  { unfold join_step in H. rewrite <- Hroot in H.
    destruct (String.prefix "/" b); [exact H|].
    destruct (bool_decide (base_dir = EmptyString) || endswith_sep base_dir).
    - now apply append_inj_l in H.
    - now apply append_inj_l, append_inj_l in H. }
  unfold b, b' in Hb.
  apply append_inj_l, append_inj_l, append_inj_r in Hb.
  now apply str_of_int_inj.
Qed.

Lemma free_target_exhausted (files : gmap string image)
    (base_dir name ext : string) (fuel : nat) :
  forall (counter : Z) (target : string),
    free_target (S fuel) files base_dir name ext counter target = None ->
    forall k, counter <= k < counter + Z.of_nat fuel ->
      is_Some (files !! join base_dir [name +:+ "_" +:+ str_of_int k +:+ ext]).
Proof.
  induction fuel as [|fuel IH]; intros counter target Hnone k Hk; [lia|].
  cbn [free_target] in Hnone.
  destruct (decide (is_Some (files !! target))) as [_|_]; [|discriminate].
  destruct (decide (k = counter)) as [->|Hne].
  - destruct (decide (is_Some (files !! join base_dir
               [name +:+ "_" +:+ str_of_int counter +:+ ext]))) as [Hs|_];
      [exact Hs|discriminate].
  - apply (IH (counter + 1) _ Hnone). lia.
Qed.

(** The search for a free name ends within [size files + 2] rounds. *)
Lemma free_target_total (files : gmap string image)
    (base_dir name ext : string) (counter : Z) (target : string) :
  exists t, free_target (S (S (size files))) files base_dir name ext
                        counter target = Some t
            /\ files !! t = None.
Proof.
  destruct (free_target (S (S (size files))) files base_dir name ext
                        counter target) as [t|] eqn:Hrun.
  - exists t. split; [reflexivity|].
    revert Hrun. generalize (S (S (size files))) as fuel. intros fuel.
    revert counter target.
    induction fuel as [|fuel IH]; intros counter target; cbn [free_target];
      [discriminate|].
    destruct (decide (is_Some (files !! target))) as [_|Hfree].
    + apply IH.
    + intros [= <-]. now apply eq_None_not_Some.
  - exfalso.
    pose proof (free_target_exhausted files base_dir name ext _ _ _ Hrun) as Hall.
    set (cand := fun k : Z =>
                   join base_dir [name +:+ "_" +:+ str_of_int k +:+ ext]) in *.
    set (l := cand <$> seqZ counter (Z.of_nat (S (size files)))).
    assert (Hnd : NoDup l).
    { apply NoDup_fmap_2_strong; [|apply NoDup_seqZ].
      intros x y _ _. apply candidate_inj. }
    assert (Hsub : list_to_set l ⊆ dom files).
    { intros t [k [-> Hk]]%elem_of_list_to_set%list_elem_of_fmap.
      apply elem_of_seqZ in Hk. apply elem_of_dom. apply Hall. lia. }
    apply subseteq_size in Hsub.
    rewrite size_list_to_set, size_dom in Hsub by exact Hnd.
    unfold l in Hsub. rewrite length_fmap, length_seqZ in Hsub. lia.
Qed.

Lemma copy_into_base_total (files : gmap string image)
    (base_dir abs_input : string) :
  exists r files', copy_into_base files base_dir abs_input = Some (r, files').
Proof.
  unfold copy_into_base. destruct (splitext (basename abs_input)) as [name ext].
  destruct (free_target_total files base_dir name ext 1
              (join base_dir [basename abs_input])) as (t & -> & _).
  destruct (files !! abs_input); eauto.
Qed.

Lemma resolve_input_total (cwd : string) (files : gmap string image)
    (base_dir fpath : string) :
  exists r files', resolve_input cwd files base_dir fpath = Some (r, files').
Proof.
  unfold resolve_input. destruct (String.prefix _ _); [eauto|].
  apply copy_into_base_total.
Qed.

Lemma insert_loop_total (cwd base_dir : string) (file_paths : list string) :
  forall st, exists st', insert_loop cwd base_dir file_paths st = Some st'.
Proof.
  induction file_paths as [|fpath rest IH]; intros st; cbn [insert_loop]; [eauto|].
  destruct (resolve_input_total cwd (files_after st) base_dir fpath)
    as ([p|e] & files' & ->).
  - destruct (decide (p ∈ frame_list st)); apply IH.
  - apply IH.
Qed.


Lemma list_insert_at_elem (l : list string) (i : Z) (x q : string) :
  q ∈ list_insert_at l i x <-> q = x \/ q ∈ l.
Proof.
  unfold list_insert_at.
  set (j := Z.to_nat _).
  rewrite elem_of_app, elem_of_cons. rewrite <- (take_drop j l) at 3.
  rewrite elem_of_app. tauto.
Qed.

Lemma insert_many_elem (news l : list string) (i : Z) (q : string) :
  q ∈ insert_many l i news <-> q ∈ news \/ q ∈ l.
Proof.
  revert l i. induction news as [|x news IH]; intros l i; cbn [insert_many].
  - rewrite elem_of_nil. tauto.
  - rewrite IH, list_insert_at_elem, elem_of_cons. tauto.
Qed.

(** Successive insertions from a valid index put the new paths, in
    order, in one block at that index. *)
Lemma insert_many_block (l news : list string) (i : Z) :
  0 <= i ->
  let j := Z.to_nat (Z.min i (Z.of_nat (length l))) in
  insert_many l i news = take j l ++ news ++ drop j l.
Proof.
  intros Hi j.
  enough (Hgen : forall news pre,
            insert_many (take j l ++ pre ++ drop j l)
                        (i + Z.of_nat (length pre)) news
            = take j l ++ (pre ++ news) ++ drop j l).
  { specialize (Hgen news []). cbn [length app] in Hgen.
    rewrite Z.add_0_r, take_drop in Hgen. exact Hgen. }
  clear news. induction news as [|x news IH]; intros pre; cbn [insert_many].
  - now rewrite app_nil_r.
  - replace (i + Z.of_nat (length pre) + 1)
      with (i + Z.of_nat (length (pre ++ [x])))
      by (rewrite length_app; cbn [length]; lia).
    replace (pre ++ x :: news) with ((pre ++ [x]) ++ news)
      by now rewrite <- app_assoc.
    rewrite <- IH. f_equal.
    unfold list_insert_at.
    destruct (decide (i + Z.of_nat (length pre) < 0)) as [Hneg|_]; [lia|].
    assert (Hj : (j <= length l)%nat) by (unfold j; lia).
    assert (Hlen : length (take j l ++ pre ++ drop j l)
                   = (length l + length pre)%nat).
    { rewrite !length_app, length_take, length_drop. lia. }
    rewrite Hlen.
    assert (Hpos : Z.to_nat (Z.min (i + Z.of_nat (length pre))
                                   (Z.of_nat (length l + length pre)))
                   = (j + length pre)%nat \/
                   (j = length l /\
                    Z.to_nat (Z.min (i + Z.of_nat (length pre))
                                    (Z.of_nat (length l + length pre)))
                    = (length l + length pre)%nat)).
    { unfold j. lia. }
    assert (Hsplit : forall n, n = (j + length pre)%nat ->
              take n (take j l ++ pre ++ drop j l) = take j l ++ pre
              /\ drop n (take j l ++ pre ++ drop j l) = drop j l).
    { intros n ->. rewrite app_assoc.
      assert (Hn : (j + length pre)%nat = length (take j l ++ pre))
        by (rewrite length_app, length_take; lia).
      rewrite Hn. split; [apply take_app_length|apply drop_app_length]. }
    destruct Hpos as [Hp|[Hjl Hp]]; rewrite Hp.
    + destruct (Hsplit _ eq_refl) as [-> ->]. now rewrite <- !app_assoc.
    + destruct (Hsplit (length l + length pre)%nat ltac:(lia)) as [-> ->].
      now rewrite <- !app_assoc.
Qed.

Lemma occurrences_app (q : string) (l1 l2 : list string) :
  occurrences q (l1 ++ l2) = (occurrences q l1 + occurrences q l2)%nat.
Proof. unfold occurrences. now rewrite filter_app, length_app. Qed.

Lemma occurrences_absent (q : string) (l : list string) :
  q ∉ l -> occurrences q l = 0%nat.
Proof.
  intros Hq. unfold occurrences.
  induction l as [|y l IH]; [reflexivity|].
  apply not_elem_of_cons in Hq as [Hne Hq].
  rewrite filter_cons. destruct (decide (y = q)); [congruence|]. now apply IH.
Qed.

Lemma insert_loop_touched (cwd base_dir : string) (file_paths : list string) :
  forall st st',
    insert_loop cwd base_dir file_paths st = Some st' ->
    touched st = true -> touched st' = true.
Proof.
  induction file_paths as [|fpath rest IH]; intros st st'; cbn [insert_loop].
  - now intros [= <-].
  - destruct (resolve_input cwd (files_after st) base_dir fpath)
      as [[[p|e] files']|]; [| |discriminate].
    + destruct (decide (p ∈ frame_list st)); intros Hrun _;
        apply (IH _ _ Hrun); reflexivity.
    + intros Hrun Ht. apply (IH _ _ Hrun). exact Ht.
Qed.

Lemma resolve_input_under_base (cwd : string) (files : gmap string image)
    (base_dir fpath : string) :
  under_base cwd base_dir fpath = true ->
  resolve_input cwd files base_dir fpath
  = Some (Ok (abspath cwd fpath), files).
Proof. unfold under_base, resolve_input. now intros ->. Qed.

(** What the loop of [_insert_frames_at_index] does to its state. *)
Lemma insert_loop_spec (cwd base_dir : string) (file_paths : list string) :
  forall st st',
    insert_loop cwd base_dir file_paths st = Some st' ->
    exists news,
      frame_list st' = insert_many (frame_list st) (insertion_index st) news
      /\ (added st').*2 = (added st).*2 ++ news
      /\ (added st').*1
         = (added st).*1 ++ seqZ (insertion_index st) (Z.of_nat (length news))
      /\ insertion_index st' = insertion_index st + Z.of_nat (length news)
      /\ NoDup news
      /\ (forall q, q ∈ news -> q ∉ frame_list st)
      /\ (forall p, p ∈ file_paths -> under_base cwd base_dir p = true ->
            abspath cwd p ∈ frame_list st \/ abspath cwd p ∈ news)
      /\ (touched st' = false -> news = []).
Proof.
  induction file_paths as [|fpath rest IH]; intros st st'; cbn [insert_loop].
  - intros [= <-]. exists []. cbn [insert_many length].
    rewrite !app_nil_r. repeat split; try reflexivity.
    + lia.
    + constructor.
    + intros q Hq. now apply elem_of_nil in Hq.
    + intros p Hp. now apply elem_of_nil in Hp.
  - destruct (resolve_input cwd (files_after st) base_dir fpath)
      as [[[x|e] files']|] eqn:Hres; [| |discriminate].
    + destruct (decide (x ∈ frame_list st)) as [Hdup|Hnew]; intros Hrun.
      * destruct (IH _ _ Hrun)
          as (news & Hfl & Hsnd & Hfst & Hidx & Hnd & Hfresh & Hin & Ht).
        cbn [frame_list insertion_index added] in *.
        exists news. repeat split; try assumption.
        intros p [->|Hp]%elem_of_cons Hunder; [|now apply Hin].
        rewrite resolve_input_under_base in Hres by exact Hunder.
        injection Hres as <- _. now left.
      * destruct (IH _ _ Hrun)
          as (news & Hfl & Hsnd & Hfst & Hidx & Hnd & Hfresh & Hin & Ht).
        cbn [frame_list insertion_index added] in *.
        exists (x :: news). cbn [insert_many length].
        rewrite fmap_app, <- app_assoc in Hsnd.
        rewrite fmap_app, <- app_assoc in Hfst.
        cbn in Hsnd, Hfst.
        split; [exact Hfl|]. split; [exact Hsnd|]. split.
        { rewrite Hfst. f_equal.
          rewrite Nat2Z.inj_succ, (seqZ_cons (insertion_index st)) by lia.
          f_equal. f_equal; lia. }
        split; [lia|]. split.
        { apply NoDup_cons. split; [|exact Hnd].
          intros Hx. apply (Hfresh x Hx). apply list_insert_at_elem. now left. }
        split.
        { intros q [->|Hq]%elem_of_cons; [exact Hnew|].
          intros Hq'. apply (Hfresh q Hq). apply list_insert_at_elem. now right. }
        split.
        { intros p [->|Hp]%elem_of_cons Hunder.
          - rewrite resolve_input_under_base in Hres by exact Hunder.
            injection Hres as <- _. right. apply elem_of_cons. now left.
          - destruct (Hin p Hp Hunder) as [Hl|Hn].
            + apply list_insert_at_elem in Hl as [->|Hl]; [right|now left].
              apply elem_of_cons. now left.
            + right. apply elem_of_cons. now right. }
        intros Hfalse.
        rewrite (insert_loop_touched _ _ _ _ _ Hrun eq_refl) in Hfalse.
        discriminate.
    + intros Hrun.
      destruct (IH _ _ Hrun)
        as (news & Hfl & Hsnd & Hfst & Hidx & Hnd & Hfresh & Hin & Ht).
      cbn [frame_list insertion_index added] in *.
      exists news. repeat split; try assumption.
      intros p [->|Hp]%elem_of_cons Hunder; [|now apply Hin].
      rewrite resolve_input_under_base in Hres by exact Hunder. discriminate.
Qed.


Lemma dict_get_set_same {V : Type} (d : list (string * V)) (k : string) (v : V) :
  dict_get (dict_set d k v) k = Some v.
Proof.
  induction d as [|[k' v'] d IH]; cbn [dict_set dict_get].
  - destruct (decide (k = k)); [reflexivity|congruence].
  - destruct (decide (k' = k)) as [->|Hne]; cbn [dict_get].
    + destruct (decide (k = k)); [reflexivity|congruence].
    + destruct (decide (k' = k)); [congruence|exact IH].
Qed.

Lemma occurrences_NoDup (q : string) (l : list string) :
  NoDup l -> q ∈ l -> occurrences q l = 1%nat.
Proof.
  induction 1 as [|y l Hy Hnd IH]; intros Hq; [now apply elem_of_nil in Hq|].
  change (y :: l) with ([y] ++ l). rewrite occurrences_app.
  apply elem_of_cons in Hq as [->|Hq].
  - rewrite (occurrences_absent y l Hy). unfold occurrences.
    rewrite filter_cons. destruct (decide (y = y)); [reflexivity|congruence].
  - rewrite IH by exact Hq. rewrite occurrences_absent; [reflexivity|].
    intros [->|H]%elem_of_cons; [contradiction|now apply elem_of_nil in H].
Qed.

(** The frames of the selected animation after [_insert_frames_at_index]:
    the frame list the loop ends with. *)
Lemma insert_frames_result (cwd : string) (self : t)
    (files : gmap string image) (file_paths : list string) (i : Z)
    (anim_name base_dir : string) :
  anim_current self = Some anim_name ->
  _base_dir self = Some base_dir -> base_dir <> EmptyString ->
  exists o st,
    _insert_frames_at_index cwd self files file_paths i = Some o
    /\ insert_loop cwd base_dir file_paths
         {| frame_list :=
              SpriteFile.get_animation_frames (sprite_data self) anim_name;
            touched := false; insertion_index := i; added := [];
            files_after := files |} = Some st
    /\ inserted o = added st
    /\ SpriteEditorView.files o = files_after st
    /\ requests o = []
    /\ (touched st = true ->
        SpriteFile.get_animation_frames (sprite_data (view o)) anim_name
        = frame_list st)
    /\ (touched st = false -> view o = self).
Proof.
  intros Hanim Hbase Hne. unfold _insert_frames_at_index.
  rewrite Hanim, Hbase. destruct (decide (base_dir = EmptyString)); [contradiction|].
  assert (Hframes :
    Animation.frames
      (default (Animation.mk anim_name [])
         (dict_get (SpriteFile.animations (sprite_data self)) anim_name))
    = SpriteFile.get_animation_frames (sprite_data self) anim_name).
  { unfold SpriteFile.get_animation_frames.
    now destruct (dict_get _ anim_name). }
  rewrite Hframes.
  destruct (insert_loop_total cwd base_dir file_paths
              {| frame_list :=
                   SpriteFile.get_animation_frames (sprite_data self) anim_name;
                 touched := false; insertion_index := i; added := [];
                 files_after := files |}) as [st Hrun].
  rewrite Hrun. eexists _, st. split; [reflexivity|]. split; [reflexivity|].
  cbn [inserted SpriteEditorView.files requests view sprite_data].
  repeat split.
  - intros ->. unfold SpriteFile.get_animation_frames.
    cbn [SpriteFile.animations]. now rewrite dict_get_set_same.
  - intros ->. destruct self as [[] ? ? ? ? ?].
    cbn in Hanim, Hbase. subst. reflexivity.
Qed.

(** C8. An insert-frames call on the selected animation, at an index
    that is not negative: every incoming path that lies in the sprite
    directory and is in the frame list already is skipped, and occurs in
    the list as often as before; every incoming path that lies in the
    sprite directory and is not in the list is inserted, once; the new
    paths stand in one block at the insertion index, and the indices
    recorded for them advance by one per inserted path. A path counts as
    the absolute normal form under which the editor stores it. *)
Theorem insert_frames_skips_present_paths (cwd : string) (self : t)
    (files : gmap string image) (file_paths : list string) (i : Z)
    (anim_name base_dir : string) :
  anim_current self = Some anim_name ->
  _base_dir self = Some base_dir -> base_dir <> EmptyString ->
  0 <= i ->
  let frames := SpriteFile.get_animation_frames (sprite_data self) anim_name in
  exists o,
    _insert_frames_at_index cwd self files file_paths i = Some o
    /\ let frames' :=
         SpriteFile.get_animation_frames (sprite_data (view o)) anim_name in
       let news := (inserted o).*2 in
       let j := Z.to_nat (Z.min i (Z.of_nat (length frames))) in
       (forall p, p ∈ file_paths -> under_base cwd base_dir p = true ->
          abspath cwd p ∈ frames ->
          (abspath cwd p ∉ news)
          /\ occurrences (abspath cwd p) frames'
             = occurrences (abspath cwd p) frames)
       /\ (forall p, p ∈ file_paths -> under_base cwd base_dir p = true ->
             abspath cwd p ∉ frames ->
             (abspath cwd p ∈ news)
             /\ occurrences (abspath cwd p) frames' = 1%nat)
       /\ frames' = take j frames ++ news ++ drop j frames
       /\ (inserted o).*1 = seqZ i (Z.of_nat (length news)).
Proof.
  intros Hanim Hbase Hne Hi frames.
  destruct (insert_frames_result cwd self files file_paths i anim_name base_dir
              Hanim Hbase Hne)
    as (o & st & Hrun & Hloop & Hins & _ & _ & Htouched & Huntouched).
  exists o. split; [exact Hrun|].
  destruct (insert_loop_spec _ _ _ _ _ Hloop)
    as (news & Hfl & Hsnd & Hfst & _ & Hnd & Hfresh & Hin & Ht).
  cbn [frame_list insertion_index added] in *. fold frames in Hfl, Hfresh, Hin.
  rewrite Hins. cbn in Hsnd, Hfst. rewrite Hsnd, Hfst.
  assert (Hframes' :
    SpriteFile.get_animation_frames (sprite_data (view o)) anim_name
    = take (Z.to_nat (Z.min i (Z.of_nat (length frames)))) frames
      ++ news ++ drop (Z.to_nat (Z.min i (Z.of_nat (length frames)))) frames).
  { rewrite <- (insert_many_block frames news i Hi), <- Hfl.
    destruct (touched st) eqn:Et; [now apply Htouched|].
    rewrite (Huntouched eq_refl). rewrite Hfl, (Ht eq_refl). reflexivity. }
  cbn zeta. rewrite Hframes'.
  assert (Hocc : forall q,
            occurrences q
              (take (Z.to_nat (Z.min i (Z.of_nat (length frames)))) frames
               ++ news
               ++ drop (Z.to_nat (Z.min i (Z.of_nat (length frames)))) frames)
            = (occurrences q frames + occurrences q news)%nat).
  { intros q.
    pose proof (occurrences_app q
                  (take (Z.to_nat (Z.min i (Z.of_nat (length frames)))) frames)
                  (drop (Z.to_nat (Z.min i (Z.of_nat (length frames)))) frames))
      as Hsplit.
    rewrite take_drop in Hsplit. rewrite !occurrences_app. lia. }
  split; [|split; [|split; reflexivity]].
  - intros p Hp Hunder Hold.
    assert (Hskip : abspath cwd p ∉ news).
    { intros Hnew. now apply (Hfresh _ Hnew). }
    split; [exact Hskip|].
    rewrite Hocc, (occurrences_absent _ news) by exact Hskip. lia.
  - intros p Hp Hunder Habsent.
    destruct (Hin p Hp Hunder) as [Hold|Hnew]; [contradiction|].
    split; [exact Hnew|].
    rewrite Hocc, (occurrences_absent _ frames) by exact Habsent.
    now rewrite occurrences_NoDup.
Qed.

Lemma insert_frames_skips_present_paths_witness :
  let self := hero_view ["/games/quest/a.png"; "/games/quest/b.png";
                         "/games/quest/c.png"] (Some 2) in
  let file_paths := ["/games/quest/b.png"; "/games/quest/d.png"] in
  let frames := SpriteFile.get_animation_frames (sprite_data self) "walk" in
  (0 <= 3)
  /\ exists o,
    _insert_frames_at_index "/home/artist" self quest_files file_paths 3 = Some o
    /\ let frames' :=
         SpriteFile.get_animation_frames (sprite_data (view o)) "walk" in
       let news := (inserted o).*2 in
       let j := Z.to_nat (Z.min 3 (Z.of_nat (length frames))) in
       (forall p, p ∈ file_paths ->
          under_base "/home/artist" "/games/quest" p = true ->
          abspath "/home/artist" p ∈ frames ->
          (abspath "/home/artist" p ∉ news)
          /\ occurrences (abspath "/home/artist" p) frames'
             = occurrences (abspath "/home/artist" p) frames)
       /\ (forall p, p ∈ file_paths ->
             under_base "/home/artist" "/games/quest" p = true ->
             abspath "/home/artist" p ∉ frames ->
             (abspath "/home/artist" p ∈ news)
             /\ occurrences (abspath "/home/artist" p) frames' = 1%nat)
       /\ frames' = take j frames ++ news ++ drop j frames
       /\ (inserted o).*1 = seqZ 3 (Z.of_nat (length news)).
Proof.
  intros self file_paths frames. split; [lia|].
  apply (insert_frames_skips_present_paths "/home/artist" self quest_files
           file_paths 3 "walk" "/games/quest");
    [reflexivity|reflexivity|discriminate|lia].
Defined.

Example insert_frames_sample :
  option_map
    (fun o => (SpriteFile.get_animation_frames (sprite_data (view o)) "walk",
               inserted o))
    (_insert_frames_at_index "/home/artist"
       (hero_view ["/games/quest/a.png"; "/games/quest/b.png";
                   "/games/quest/c.png"] (Some 2))
       quest_files
       ["/games/quest/b.png"; "/games/quest/d.png"; "/downloads/b.png";
        "/nowhere/x.png"; "/games/quest/./d.png"] 1)
  = Some (["/games/quest/a.png"; "/games/quest/d.png"; "/games/quest/b_1.png";
           "/games/quest/b.png"; "/games/quest/c.png"],
          [(1, "/games/quest/d.png"); (2, "/games/quest/b_1.png")]).
Proof. vm_compute. reflexivity. Qed.


(** The insertion of one new path that lies in the sprite directory. *)
Lemma insert_single_frame (cwd : string) (self : t)
    (files : gmap string image) (p : string) (i : Z)
    (anim_name base_dir : string) :
  anim_current self = Some anim_name ->
  _base_dir self = Some base_dir -> base_dir <> EmptyString ->
  under_base cwd base_dir p = true ->
  abspath cwd p ∉ SpriteFile.get_animation_frames (sprite_data self) anim_name ->
  exists o,
    _insert_frames_at_index cwd self files [p] i = Some o
    /\ inserted o = [(i, abspath cwd p)]
    /\ SpriteFile.get_animation_frames (sprite_data (view o)) anim_name
       = list_insert_at
           (SpriteFile.get_animation_frames (sprite_data self) anim_name)
           i (abspath cwd p).
Proof.
  intros Hanim Hbase Hne Hunder Hnew.
  destruct (insert_frames_result cwd self files [p] i anim_name base_dir
              Hanim Hbase Hne)
    as (o & st & Hrun & Hloop & Hins & _ & _ & Htouched & _).
  exists o. split; [exact Hrun|].
  cbn [insert_loop files_after frame_list] in Hloop.
  rewrite resolve_input_under_base in Hloop by exact Hunder.
  destruct (decide (abspath cwd p ∈ _)) as [Hdup|_] in Hloop; [contradiction|].
  injection Hloop as <-. cbn [added touched frame_list] in *.
  split; [exact Hins|]. now apply Htouched.
Qed.

(** C3. With the frames [[A; B; C]] and the base image [X]: "add frame
    after" with row 2 selected sends one generate-between request with
    the images [(C, X)] and inserts the result at index 3; "add frame
    before" with row 0 selected sends one with the images [(X, A)] and
    inserts the result at index 0. The backend returns a new image in
    the sprite directory. *)
Theorem ai_frame_at_boundaries (cwd : string) (ai : ai_request -> option string)
    (self : t) (files : gmap string image)
    (A B C X R anim_name base_dir : string) :
  anim_current self = Some anim_name ->
  _base_dir self = Some base_dir -> base_dir <> EmptyString ->
  SpriteFile.get_animation_frames (sprite_data self) anim_name = [A; B; C] ->
  SpriteFile.base_image (sprite_data self) = Some X ->
  (forall request, ai request = Some R) -> R <> EmptyString ->
  under_base cwd base_dir R = true ->
  abspath cwd R ∉ [A; B; C] ->
  (frame_current self = Some 2 ->
   exists o,
     _add_ai_generated_frame_after cwd ai self files = Some (Ok o)
     /\ requests o
        = [generate_sprite_between_images (sage_directory self) anim_name
             [Some C; Some X] (camera self)]
     /\ inserted o = [(3, abspath cwd R)]
     /\ SpriteFile.get_animation_frames (sprite_data (view o)) anim_name
        = [A; B; C; abspath cwd R])
  /\ (frame_current self = Some 0 ->
      exists o,
        _add_ai_generated_frame_before cwd ai self files = Some (Ok o)
        /\ requests o
           = [generate_sprite_between_images (sage_directory self) anim_name
                [Some X; Some A] (camera self)]
        /\ inserted o = [(0, abspath cwd R)]
        /\ SpriteFile.get_animation_frames (sprite_data (view o)) anim_name
           = [abspath cwd R; A; B; C]).
Proof.
  intros Hanim Hbase Hne Hframes Hx Hai HR Hunder Hnew.
  assert (Hins : forall i, exists o,
            _insert_frames_at_index cwd self files [R] i = Some o
            /\ inserted o = [(i, abspath cwd R)]
            /\ SpriteFile.get_animation_frames (sprite_data (view o)) anim_name
               = list_insert_at [A; B; C] i (abspath cwd R)).
  { intros i. rewrite <- Hframes.
    apply (insert_single_frame cwd self files R i anim_name base_dir);
      try assumption. now rewrite Hframes. }
  split; intros Hcur.
  - assert (Hreq : request_after self anim_name [A; B; C] 2
                   = Ok (generate_sprite_between_images (sage_directory self)
                           anim_name [Some C; Some X] (camera self)))
      by (unfold request_after; rewrite Hx; reflexivity).
    unfold _add_ai_generated_frame_after.
    rewrite Hanim, Hcur, Hframes. change (default 0 (Some 2)) with 2.
    rewrite Hreq. cbv beta iota zeta.
    change (decide (Z.of_nat (length [A; B; C]) = 0)) with (decide (3 = 0)).
    destruct (decide (3 = 0)) as [H0|_]; [discriminate|].
    unfold insert_generated, _add_frame_at_index. rewrite Hai.
    destruct (decide (R = EmptyString)); [contradiction|].
    destruct (Hins (2 + 1)) as (o & -> & Hadded & Hres).
    eexists. split; [reflexivity|]. cbn [requests inserted view].
    split; [reflexivity|]. split; [exact Hadded|]. exact Hres.
  - assert (Hreq : request_before self anim_name [A; B; C] 0
                   = Ok (generate_sprite_between_images (sage_directory self)
                           anim_name [Some X; Some A] (camera self)))
      by (unfold request_before; rewrite Hx; reflexivity).
    unfold _add_ai_generated_frame_before.
    rewrite Hanim, Hcur, Hframes. change (default 0 (Some 0)) with 0.
    rewrite Hreq. cbv beta iota zeta.
    unfold insert_generated, _add_frame_at_index. rewrite Hai.
    destruct (decide (R = EmptyString)); [contradiction|].
    destruct (Hins 0) as (o & -> & Hadded & Hres).
    eexists. split; [reflexivity|]. cbn [requests inserted view].
    split; [reflexivity|]. split; [exact Hadded|]. exact Hres.
Qed.

Lemma ai_frame_at_boundaries_witness :
  let A := "/games/quest/a.png" in
  let B := "/games/quest/b.png" in
  let C := "/games/quest/c.png" in
  let X := "/games/quest/base.png" in
  let R := "/games/quest/gen.png" in
  (let self := hero_view [A; B; C] (Some 2) in
   exists o,
     _add_ai_generated_frame_after "/home/artist" sample_backend self quest_files
     = Some (Ok o)
     /\ requests o
        = [generate_sprite_between_images "/games/quest" "walk"
             [Some C; Some X] "side"]
     /\ inserted o = [(3, R)]
     /\ SpriteFile.get_animation_frames (sprite_data (view o)) "walk"
        = [A; B; C; R])
  /\ (let self := hero_view [A; B; C] (Some 0) in
      exists o,
        _add_ai_generated_frame_before "/home/artist" sample_backend self
                                       quest_files
        = Some (Ok o)
        /\ requests o
           = [generate_sprite_between_images "/games/quest" "walk"
                [Some X; Some A] "side"]
        /\ inserted o = [(0, R)]
        /\ SpriteFile.get_animation_frames (sprite_data (view o)) "walk"
           = [R; A; B; C]).
Proof.
  intros A B C X R.
  assert (Hnew : abspath "/home/artist" R ∉ [A; B; C]).
  { intros Hin. repeat (apply elem_of_cons in Hin as [Heq|Hin]; [discriminate|]).
    now apply elem_of_nil in Hin. }
  split; intros self.
  - apply (ai_frame_at_boundaries "/home/artist" sample_backend self quest_files
             A B C X R "walk" "/games/quest");
      (reflexivity || discriminate || exact Hnew).
  - apply (ai_frame_at_boundaries "/home/artist" sample_backend self quest_files
             A B C X R "walk" "/games/quest");
      (reflexivity || discriminate || exact Hnew).
Defined.

(** C2, evaluated on the frames [[A; B]] with the base image [X] and no
    frame selected: "add frame after" takes the position to be row 0. It
    sends a generate-between request with the images [(A, B)] and inserts
    the result at index 1, between the two frames, not a request with
    [(B, X)] and an insertion at index 2, the end of the list. *)
Theorem ai_after_without_selection_takes_row_0 :
  let A := "/games/quest/a.png" in
  let B := "/games/quest/b.png" in
  let R := "/games/quest/gen.png" in
  let self := hero_view [A; B] None in
  exists o,
    _add_ai_generated_frame_after "/home/artist" sample_backend self quest_files
    = Some (Ok o)
    /\ requests o
       = [generate_sprite_between_images "/games/quest" "walk"
            [Some A; Some B] "side"]
    /\ inserted o = [(1, R)]
    /\ SpriteFile.get_animation_frames (sprite_data (view o)) "walk"
       = [A; R; B].
Proof.
  intros A B R self.
  destruct (_add_ai_generated_frame_after "/home/artist" sample_backend self
              quest_files) as [[o|e]|] eqn:E;
    try (vm_compute in E; discriminate).
  exists o. split; [reflexivity|].
  vm_compute in E. injection E as <-. repeat split; reflexivity.
Qed.

(** Without a selection the request of "add frame after" is the one for
    row 0, whatever the frames are. *)
Lemma request_after_without_selection (self : t) (anim_name f0 f1 : string)
    (rest : list string) :
  request_after self anim_name (f0 :: f1 :: rest) (default 0 None)
  = Ok (generate_sprite_between_images (sage_directory self) anim_name
          [Some f0; Some f1] (camera self)).
Proof.
  unfold request_after. cbn [default length].
  destruct (decide (Z.of_nat (S (S (length rest))) = 0)); [lia|].
  destruct (decide (0 = Z.of_nat (S (S (length rest))) - 1)); [lia|].
  unfold list_index. cbn [length].
  destruct (decide (0 < 0)); [lia|].
  destruct (decide (0 + 1 < 0)); [lia|].
  destruct (decide (0 <= 0 < Z.of_nat (S (S (length rest))))); [|lia].
  destruct (decide (0 <= 0 + 1 < Z.of_nat (S (S (length rest))))); [|lia].
  reflexivity.
Qed.

End EditorProps.

(** ** Further laws of the undo history *)

Module UndoLaws.
Import UndoRedoManager UndoProps.
Section Laws.
Context {T : Type} `{EqDecision T}.
Implicit Types (m : t T) (s c : T).

Lemma save_undo_state_top m s :
  last (_undo_stack (save_undo_state m s)) = Some s.
Proof.
  destruct (decide (last (_undo_stack m) = Some s)) as [Heq|Hne].
  - now rewrite save_undo_state_noop.
  - rewrite save_undo_state_push by assumption. cbn [_undo_stack].
    apply last_app_singleton.
Qed.

(** X1. Saving the same state twice in a row is the same as saving it
    once: the second save changes neither stack. *)
Theorem save_undo_state_idempotent m s :
  save_undo_state (save_undo_state m s) s = save_undo_state m s.
Proof. apply save_undo_state_noop, save_undo_state_top. Qed.

(** X2. From a fresh manager, after every sequence of saves, undos and
    redos, the two stacks together hold at most [MAX_UNDO_COUNT] states;
    so the redo stack, which has no cap of its own, is bounded too. *)
Theorem redo_stack_bounded (ops : list (op T)) :
  let m := run ops init in
  length (_undo_stack m) + length (_redo_stack m) <= MAX_UNDO_COUNT
  /\ length (_redo_stack m) <= MAX_UNDO_COUNT.
Proof.
  intros m.
  assert (Hs : history_size m <= MAX_UNDO_COUNT).
  { apply run_history_size. unfold history_size. cbn. lia. }
  unfold history_size in Hs. lia.
Qed.

(** X3. After a save that changes the history there is nothing to
    redo: [perform_redo] returns [None] and leaves the manager as it
    is. *)
Theorem redo_after_new_save m s :
  last (_undo_stack m) <> Some s ->
  perform_redo (save_undo_state m s) = (None, save_undo_state m s).
Proof.
  intros Hne. rewrite save_undo_state_push by assumption. reflexivity.
Qed.

(** X4. An undo right after [save_undo_state m s] returns [s], whatever
    the manager held before and whether or not the save changed it. *)
Theorem undo_after_save m s c :
  fst (perform_undo (save_undo_state m s) c) = Some s.
Proof.
  unfold perform_undo, list_pop. now rewrite save_undo_state_top.
Qed.

(** X5. A redo right after a successful undo returns the state that was
    current at the undo; it leaves the redo stack as it was before the
    undo, and the undo stack with that state in place of the entry the
    undo returned. *)
Theorem redo_after_undo m c :
  _undo_stack m <> [] ->
  exists top,
    last (_undo_stack m) = Some top
    /\ fst (perform_undo m c) = Some top
    /\ perform_redo (snd (perform_undo m c))
       = (Some c, {| _undo_stack := removelast (_undo_stack m) ++ [c];
                     _redo_stack := _redo_stack m |}).
Proof.
  intros Hne. destruct (exists_last Hne) as (rest & top & Hstack).
  exists top. unfold perform_undo. rewrite Hstack, list_pop_snoc.
  rewrite last_app_singleton, removelast_app_singleton.
  cbn [fst snd]. unfold perform_redo. cbn [_redo_stack _undo_stack].
  rewrite list_pop_snoc. auto.
Qed.
End Laws.

Lemma redo_after_new_save_witness :
  let m := {| _undo_stack := [1; 2]; _redo_stack := [7; 8] |} in
  last (_undo_stack m) <> Some 3
  /\ perform_redo (save_undo_state m 3) = (None, save_undo_state m 3).
Proof.
  intros m. assert (Hne : last (_undo_stack m) <> Some 3) by (cbn; congruence).
  split; [exact Hne|]. exact (redo_after_new_save m 3 Hne).
Defined.

Lemma redo_after_undo_witness :
  let m := {| _undo_stack := [1; 2]; _redo_stack := [7] |} in
  _undo_stack m <> []
  /\ exists top,
    last (_undo_stack m) = Some top
    /\ fst (perform_undo m 3) = Some top
    /\ perform_redo (snd (perform_undo m 3))
       = (Some 3, {| _undo_stack := removelast (_undo_stack m) ++ [3];
                     _redo_stack := _redo_stack m |}).
Proof.
  intros m. assert (Hne : _undo_stack m <> []) by (cbn; congruence).
  split; [exact Hne|]. exact (redo_after_undo m 3 Hne).
Defined.

End UndoLaws.

(** ** The layout of the packed sheet *)

Module SheetLayout.
Import SpriteSheetGenerator SheetProps ExportProps.
Local Open Scope Z_scope.

Lemma next_power_of_two_pos (n : Z) : 0 < next_power_of_two n.
Proof.
  destruct (next_power_of_two_spec n) as (k & Hk & -> & _).
  apply Z.pow_pos_nonneg; lia.
Qed.

(** What a returned side of the loop of [determine_sheet_size] tells. *)
Lemma determine_sheet_size_loop_inv (self : t) (num_frames : Z) (fuel : nat) :
  forall start side,
    0 < start ->
    determine_sheet_size_loop fuel self num_frames start = Some (Ok side) ->
    0 < side /\ width self <> 0 /\ height self <> 0
    /\ grid_cells (width self) (height self) side >= num_frames.
Proof.
  induction fuel as [|fuel IH]; intros start side Hstart; cbn [determine_sheet_size_loop];
    [discriminate|].
  unfold py_floordiv.
  destruct (decide (width self = 0)); [discriminate|].
  destruct (decide (height self = 0)); [discriminate|].
  destruct (decide (start / width self * (start / height self) >= num_frames)).
  - intros [= <-]. auto.
  - intros Hrun. apply (IH (start * 2) side); [lia|exact Hrun].
Qed.

Lemma determine_sheet_size_inv (self : t) (num_frames : Z) (fuel : nat)
    (side : Z) :
  determine_sheet_size fuel self num_frames = Some (Ok side) ->
  0 < side /\ width self <> 0 /\ height self <> 0
  /\ grid_cells (width self) (height self) side >= num_frames.
Proof.
  unfold determine_sheet_size. apply determine_sheet_size_loop_inv.
  apply next_power_of_two_pos.
Qed.

(** With positive cell sizes and enough fuel the size is found. *)
Lemma determine_sheet_size_ok (self : t) (num_frames : Z) (fuel : nat) :
  1 <= width self -> 1 <= height self -> 1 <= num_frames ->
  (Z.to_nat num_frames <= fuel)%nat ->
  exists side, determine_sheet_size fuel self num_frames = Some (Ok side).
Proof.
  intros Hw Hh HN Hfuel.
  destruct (next_power_of_two_spec (Z.max (width self) (height self)))
    as (j & Hj & Hnpot & Hge & Hlt).
  unfold determine_sheet_size. rewrite Hnpot.
  destruct (determine_sheet_size_loop_spec self num_frames ltac:(lia) ltac:(lia)
              fuel j Hj Hge) as (k & _ & Hrun & _).
  - intros i Hi. rewrite grid_cells_small; try lia.
    split; [apply Z.pow_nonneg; lia|]. now apply Hlt.
  - assert (1 <= grid_cells (width self) (height self) (2 ^ j)).
    { unfold grid_cells.
      assert (1 <= 2 ^ j / width self) by (apply Z.div_le_lower_bound; lia).
      assert (1 <= 2 ^ j / height self) by (apply Z.div_le_lower_bound; lia).
      nia. }
    lia.
  - eauto.
Qed.

Lemma paste_frames_inv (self : t) (files : gmap string image) (cols : Z)
    (frames : list string) :
  forall idx cells,
    paste_frames self files cols idx frames = Ok cells ->
    cells = layout_from (width self) (height self) cols idx frames
    /\ Forall (fun f => is_Some (files !! f)) frames.
Proof.
  induction frames as [|f rest IH]; intros idx cells; cbn [paste_frames layout_from].
  - intros [= <-]. auto.
  - unfold paste_frame.
    destruct (decide (is_Some (files !! f))) as [Hf|]; [|discriminate].
    unfold py_mod, py_floordiv. destruct (decide (cols = 0)); [discriminate|].
    cbn [mbind result_bind mret result_ret].
    destruct (paste_frames self files cols (idx + 1) rest) as [cells'|e] eqn:Hrest;
      [|discriminate].
    intros [= <-]. destruct (IH _ _ Hrest) as [-> Hall].
    split; [reflexivity|]. now constructor.
Qed.


Lemma paste_frames_missing (self : t) (files : gmap string image) (cols : Z)
    (pre post : list string) (f : string) :
  cols <> 0 -> Forall (fun f => is_Some (files !! f)) pre ->
  files !! f = None ->
  forall idx,
    paste_frames self files cols idx (pre ++ f :: post)
    = Raise (FileNotFoundError f).
Proof.
  intros Hcols Hpre Hf. induction Hpre as [|g pre Hg Hpre IH]; intros idx;
    cbn [app paste_frames].
  - unfold paste_frame.
    destruct (decide (is_Some (files !! f))) as [Hs|]; [|reflexivity].
    rewrite Hf in Hs. now destruct Hs.
  - unfold paste_frame. destruct (decide (is_Some (files !! g))); [|contradiction].
    unfold py_mod, py_floordiv. destruct (decide (cols = 0)); [contradiction|].
    cbn [mbind result_bind mret result_ret]. now rewrite IH.
Qed.

Lemma layout_from_lookup (w h cols : Z) (frames : list string) :
  forall idx i cell,
    layout_from w h cols idx frames !! i = Some cell ->
    exists f, frames !! i = Some f
              /\ cell = (((idx + Z.of_nat i) mod cols) * w,
                         ((idx + Z.of_nat i) / cols) * h, f).
Proof.
  induction frames as [|f rest IH]; intros idx i cell; cbn [layout_from];
    [now rewrite lookup_nil|].
  destruct i as [|i]; cbn [lookup list_lookup].
  - intros [= <-]. exists f. split; [reflexivity|]. now rewrite Z.add_0_r.
  - intros Hi. destruct (IH _ _ _ Hi) as (g & Hg & ->). exists g.
    split; [exact Hg|].
    now replace (idx + Z.of_nat (S i)) with (idx + 1 + Z.of_nat i) by lia.
Qed.


Lemma cols_rows_pos (w h side N : Z) :
  1 <= w -> 1 <= h -> 0 < side -> 1 <= N -> grid_cells w h side >= N ->
  1 <= side / w /\ 1 <= side / h.
Proof.
  unfold grid_cells. intros Hw Hh Hside HN Hfit.
  assert (0 <= side / w) by (apply Z.div_pos; lia).
  assert (0 <= side / h) by (apply Z.div_pos; lia).
  nia.
Qed.

(** What a successful [create_spritesheet] did. *)
Lemma create_spritesheet_inv (fuel : nat) (self : t)
    (output_path : option string) (files files' : gmap string image)
    (out : string) :
  create_spritesheet fuel self output_path files = Some (Ok out, files') ->
  let frames := get_all_frame_paths self in
  exists side,
    frames <> []
    /\ determine_sheet_size fuel self (Z.of_nat (length frames)) = Some (Ok side)
    /\ Forall (fun f => is_Some (files !! f)) frames
    /\ files' = <[out := Atlas
                    {| sheet_side := side;
                       sheet_cells :=
                         layout_from (width self) (height self)
                                     (side / width self) 0 frames |}]> files.
Proof.
  intros Hrun frames. unfold create_spritesheet in Hrun. fold frames in Hrun.
  destruct (decide (Z.of_nat (length frames) = 0)) as [|Hne]; [discriminate|].
  destruct (determine_sheet_size fuel self (Z.of_nat (length frames)))
    as [[side|e]|] eqn:Hsize; try discriminate.
  destruct (determine_sheet_size_inv _ _ _ _ Hsize) as (_ & Hw & _ & _).
  unfold py_floordiv in Hrun. destruct (decide (width self = 0)); [contradiction|].
  cbn [mbind result_bind] in Hrun.
  destruct (paste_frames self files (side / width self) 0 frames)
    as [cells|e] eqn:Hpaste; [|discriminate].
  destruct (paste_frames_inv _ _ _ _ _ _ Hpaste) as [-> Hall].
  injection Hrun as <- <-. exists side.
  split; [intros Hnil; rewrite Hnil in Hne; now apply Hne|].
  split; [reflexivity|]. split; [exact Hall|reflexivity].
Qed.



(** X7. With positive cell sizes, every cell of an atlas that
    [create_spritesheet] wrote lies inside the sheet: its origin is not
    negative and the cell ends within the side on both axes. *)
Theorem atlas_cells_within_sheet (fuel : nat) (self : t)
    (output_path : option string) (files files' : gmap string image)
    (out : string) :
  1 <= width self -> 1 <= height self ->
  create_spritesheet fuel self output_path files = Some (Ok out, files') ->
  exists sheet,
    files' !! out = Some (Atlas sheet)
    /\ forall x y f, (x, y, f) ∈ sheet_cells sheet ->
         0 <= x /\ x + width self <= sheet_side sheet
         /\ 0 <= y /\ y + height self <= sheet_side sheet.
Proof.
  intros Hw Hh Hrun.
  destruct (create_spritesheet_inv _ _ _ _ _ _ Hrun)
    as (side & Hne & Hsize & _ & ->).
  eexists. split; [apply lookup_insert_eq|]. cbn [sheet_cells sheet_side].
  intros x y f Hin. apply list_elem_of_lookup in Hin as [i Hi].
  destruct (layout_from_lookup _ _ _ _ _ _ _ Hi) as (g & Hg & Hcell).
  injection Hcell as -> -> ->.
  apply lookup_lt_Some in Hg.
  destruct (determine_sheet_size_inv _ _ _ _ Hsize) as (Hside & _ & _ & Hfit).
  set (N := Z.of_nat (length (get_all_frame_paths self))) in *.
  assert (HN : 1 <= N) by lia.
  destruct (cols_rows_pos _ _ _ _ Hw Hh Hside HN Hfit) as [Hcols Hrows].
  unfold grid_cells in Hfit.
  set (cols := side / width self) in *. set (rows := side / height self) in *.
  rewrite Z.add_0_l.
  pose proof (Z.mod_pos_bound (Z.of_nat i) cols ltac:(lia)) as Hmod.
  assert (Hdiv : 0 <= Z.of_nat i / cols < rows).
  { split; [apply Z.div_pos; lia|]. apply Z.div_lt_upper_bound; nia. }
  pose proof (Z.mul_div_le side (width self) ltac:(lia)) as Hcw.
  pose proof (Z.mul_div_le side (height self) ltac:(lia)) as Hrh.
  fold cols in Hcw. fold rows in Hrh. nia.
Qed.

(** X8. With positive cell sizes, two different cells of an atlas that
    [create_spritesheet] wrote do not overlap: one ends before the other
    begins, on the horizontal or on the vertical axis. *)
Theorem atlas_cells_disjoint (fuel : nat) (self : t)
    (output_path : option string) (files files' : gmap string image)
    (out : string) :
  1 <= width self -> 1 <= height self ->
  create_spritesheet fuel self output_path files = Some (Ok out, files') ->
  exists sheet,
    files' !! out = Some (Atlas sheet)
    /\ forall i j x1 y1 f1 x2 y2 f2,
         i <> j ->
         sheet_cells sheet !! i = Some (x1, y1, f1) ->
         sheet_cells sheet !! j = Some (x2, y2, f2) ->
         x1 + width self <= x2 \/ x2 + width self <= x1
         \/ y1 + height self <= y2 \/ y2 + height self <= y1.
Proof.
  intros Hw Hh Hrun.
  destruct (create_spritesheet_inv _ _ _ _ _ _ Hrun)
    as (side & Hne & Hsize & _ & ->).
  eexists. split; [apply lookup_insert_eq|]. cbn [sheet_cells].
  intros i j x1 y1 f1 x2 y2 f2 Hij Hi Hj.
  destruct (layout_from_lookup _ _ _ _ _ _ _ Hi) as (g1 & Hg1 & Hc1).
  destruct (layout_from_lookup _ _ _ _ _ _ _ Hj) as (g2 & Hg2 & Hc2).
  injection Hc1 as -> -> ->. injection Hc2 as -> -> ->.
  apply lookup_lt_Some in Hg1.
  destruct (determine_sheet_size_inv _ _ _ _ Hsize) as (Hside & _ & _ & Hfit).
  set (N := Z.of_nat (length (get_all_frame_paths self))) in *.
  assert (HN : 1 <= N) by lia.
  destruct (cols_rows_pos _ _ _ _ Hw Hh Hside HN Hfit) as [Hcols _].
  set (cols := side / width self) in *. rewrite !Z.add_0_l.
  pose proof (Z.div_mod (Z.of_nat i) cols ltac:(lia)) as Hdi.
  pose proof (Z.div_mod (Z.of_nat j) cols ltac:(lia)) as Hdj.
  destruct (decide (Z.of_nat i mod cols = Z.of_nat j mod cols)) as [Hm|Hm].
  - assert (Z.of_nat i / cols <> Z.of_nat j / cols) by (intros Hd; rewrite Hm, Hd in Hdi; lia).
    right. right. nia.
  - nia.
Qed.

(** X9. With positive cell sizes and enough fuel, when the first frame
    file that is missing is [f], [create_spritesheet] raises
    [FileNotFoundError] for [f] and writes nothing. *)
Theorem create_spritesheet_missing_frame (fuel : nat) (self : t)
    (output_path : option string) (files : gmap string image)
    (pre post : list string) (f : string) :
  1 <= width self -> 1 <= height self ->
  get_all_frame_paths self = pre ++ f :: post ->
  Forall (fun g => is_Some (files !! g)) pre ->
  files !! f = None ->
  (length (get_all_frame_paths self) <= fuel)%nat ->
  create_spritesheet fuel self output_path files
  = Some (Raise (FileNotFoundError f), files).
Proof.
  intros Hw Hh Hframes Hpre Hf Hfuel.
  assert (HN : 1 <= Z.of_nat (length (get_all_frame_paths self))).
  { rewrite Hframes, length_app. cbn [length]. lia. }
  destruct (determine_sheet_size_ok self _ fuel Hw Hh HN ltac:(lia))
    as [side Hsize].
  destruct (determine_sheet_size_inv _ _ _ _ Hsize) as (Hside & _ & _ & Hfit).
  destruct (cols_rows_pos _ _ _ _ Hw Hh Hside HN Hfit) as [Hcols _].
  unfold create_spritesheet.
  destruct (decide (Z.of_nat (length (get_all_frame_paths self)) = 0)); [lia|].
  rewrite Hsize. unfold py_floordiv.
  destruct (decide (width self = 0)); [lia|]. cbn [mbind result_bind].
  rewrite Hframes, paste_frames_missing by (lia || assumption). reflexivity.
Qed.

(** X10. For a sprite with at least one frame whose cell width or cell
    height is 0, [create_spritesheet] raises [ZeroDivisionError] in the
    first round of the size loop and writes nothing. *)
Theorem create_spritesheet_zero_cell (fuel : nat) (self : t)
    (output_path : option string) (files : gmap string image) :
  width self = 0 \/ height self = 0 ->
  get_all_frame_paths self <> [] ->
  create_spritesheet (S fuel) self output_path files
  = Some (Raise ZeroDivisionError, files).
Proof.
  intros Hzero Hne. unfold create_spritesheet.
  destruct (decide (Z.of_nat (length (get_all_frame_paths self)) = 0)) as [H0|_].
  { destruct (get_all_frame_paths self); [congruence|cbn [length] in H0; lia]. }
  unfold determine_sheet_size. cbn [determine_sheet_size_loop]. unfold py_floordiv.
  destruct (decide (width self = 0)) as [_|Hw]; [reflexivity|].
  destruct (decide (height self = 0)) as [_|Hh]; [reflexivity|].
  destruct Hzero; contradiction.
Qed.


Lemma atlas_cells_within_sheet_witness :
  let self := SpriteSheetGenerator.init walk_idle_sprite in
  exists files',
    (1 <= width self /\ 1 <= height self
     /\ create_spritesheet 2 self (Some "out/hero_sheet.png") walk_idle_files
        = Some (Ok "out/hero_sheet.png", files'))
    /\ exists sheet,
        files' !! "out/hero_sheet.png" = Some (Atlas sheet)
        /\ forall x y f, (x, y, f) ∈ sheet_cells sheet ->
             0 <= x /\ x + width self <= sheet_side sheet
             /\ 0 <= y /\ y + height self <= sheet_side sheet.
Proof.
  intros self.
  destruct (create_spritesheet 2 self (Some "out/hero_sheet.png") walk_idle_files)
    as [[[out|e] files']|] eqn:E; try (vm_compute in E; discriminate).
  assert (out = "out/hero_sheet.png") as -> by (vm_compute in E; congruence).
  exists files'. split; [repeat split; cbn; lia|].
  apply (atlas_cells_within_sheet 2 self (Some "out/hero_sheet.png")
           walk_idle_files files' "out/hero_sheet.png");
    [cbn; lia|cbn; lia|exact E].
Defined.

Lemma atlas_cells_disjoint_witness :
  let self := SpriteSheetGenerator.init walk_idle_sprite in
  exists files',
    (1 <= width self /\ 1 <= height self
     /\ create_spritesheet 2 self (Some "out/hero_sheet.png") walk_idle_files
        = Some (Ok "out/hero_sheet.png", files'))
    /\ exists sheet,
        files' !! "out/hero_sheet.png" = Some (Atlas sheet)
        /\ forall i j x1 y1 f1 x2 y2 f2,
             i <> j ->
             sheet_cells sheet !! i = Some (x1, y1, f1) ->
             sheet_cells sheet !! j = Some (x2, y2, f2) ->
             x1 + width self <= x2 \/ x2 + width self <= x1
             \/ y1 + height self <= y2 \/ y2 + height self <= y1.
Proof.
  intros self.
  destruct (create_spritesheet 2 self (Some "out/hero_sheet.png") walk_idle_files)
    as [[[out|e] files']|] eqn:E; try (vm_compute in E; discriminate).
  assert (out = "out/hero_sheet.png") as -> by (vm_compute in E; congruence).
  exists files'. split; [repeat split; cbn; lia|].
  apply (atlas_cells_disjoint 2 self (Some "out/hero_sheet.png")
           walk_idle_files files' "out/hero_sheet.png");
    [cbn; lia|cbn; lia|exact E].
Defined.

Lemma create_spritesheet_missing_frame_witness :
  let self := SpriteSheetGenerator.init walk_idle_sprite in
  let files : gmap string image := <["/p/w0.png" := Picture]> ∅ in
  (1 <= width self /\ 1 <= height self
   /\ get_all_frame_paths self = ["/p/w0.png"] ++ "/p/i0.png" :: []
   /\ Forall (fun g => is_Some (files !! g)) ["/p/w0.png"]
   /\ files !! "/p/i0.png" = None
   /\ (length (get_all_frame_paths self) <= 2)%nat)
  /\ create_spritesheet 2 self None files
     = Some (Raise (FileNotFoundError "/p/i0.png"), files).
Proof.
  intros self files.
  assert (Hpre : Forall (fun g => is_Some (files !! g)) ["/p/w0.png"]).
  { repeat constructor. vm_compute. eauto. }
  assert (Hf : files !! "/p/i0.png" = None) by (vm_compute; reflexivity).
  split.
  - repeat split; try exact Hpre; try exact Hf; cbn; lia.
  - apply (create_spritesheet_missing_frame 2 self None files ["/p/w0.png"] []
             "/p/i0.png"); try assumption; try reflexivity; cbn; lia.
Defined.

Lemma create_spritesheet_zero_cell_witness :
  let self := SpriteSheetGenerator.init zero_width_sprite in
  (width self = 0 \/ height self = 0)
  /\ get_all_frame_paths self <> []
  /\ create_spritesheet 1 self None walk_idle_files
     = Some (Raise ZeroDivisionError, walk_idle_files).
Proof.
  intros self.
  assert (Hz : width self = 0 \/ height self = 0) by (left; reflexivity).
  assert (Hne : get_all_frame_paths self <> []) by discriminate.
  split; [exact Hz|]. split; [exact Hne|].
  exact (create_spritesheet_zero_cell 0 self None walk_idle_files Hz Hne).
Defined.

End SheetLayout.

(** ** The exported resource against the packed sheet *)

Module ExportLayout.
Import SpriteSheetGenerator GodotSpriteExporter SheetProps ExportProps SheetLayout.
Local Open Scope Z_scope.

Lemma sorted_insert_perm (x : string) (l : list string) :
  sorted_insert x l ≡ₚ x :: l.
Proof.
  induction l as [|y l IH]; cbn [sorted_insert]; [reflexivity|].
  destruct (String.leb x y); [reflexivity|].
  rewrite IH. apply Permutation_swap.
Qed.

Lemma sorted_perm (l : list string) : sorted l ≡ₚ l.
Proof.
  unfold sorted. induction l as [|x l IH]; cbn [foldr]; [reflexivity|].
  now rewrite sorted_insert_perm, IH.
Qed.

Lemma sub_resources_inv (w h cols : Z) (sub_ids : list nat) :
  forall idx regions,
    sub_resources w h cols idx sub_ids = Ok regions ->
    length regions = length sub_ids
    /\ forall i sub_id, sub_ids !! i = Some sub_id ->
         regions !! i
         = Some (sub_id, (((idx + Z.of_nat i) mod cols) * w,
                          ((idx + Z.of_nat i) / cols) * h, w, h)).
Proof.
  induction sub_ids as [|s rest IH]; intros idx regions; cbn [sub_resources].
  - intros [= <-]. split; [reflexivity|]. intros i sub_id Hi.
    now rewrite lookup_nil in Hi.
  - unfold py_mod, py_floordiv. destruct (decide (cols = 0)); [discriminate|].
    cbn [mbind result_bind mret result_ret].
    destruct (sub_resources w h cols (idx + 1) rest) as [regions'|e] eqn:Hrest;
      [|discriminate].
    intros [= <-]. destruct (IH _ _ Hrest) as [Hlen Hlook].
    split; [cbn [length]; now rewrite Hlen|].
    intros [|i] sub_id; cbn [lookup list_lookup].
    + intros [= <-]. now rewrite Z.add_0_r.
    + intros Hi.
      replace (idx + Z.of_nat (S i)) with (idx + 1 + Z.of_nat i) by lia.
      exact (Hlook _ _ Hi).
Qed.

Lemma list_index_seq (n : nat) (idx : Z) (sub_id : nat) :
  0 <= idx -> list_index (seq 0 n) idx = Some sub_id ->
  sub_id = Z.to_nat idx /\ idx < Z.of_nat n.
Proof.
  intros Hidx. unfold list_index. rewrite length_seq.
  destruct (decide (idx < 0)); [lia|].
  destruct (decide (0 <= idx < Z.of_nat n)); [|discriminate].
  intros Hl. apply lookup_seq in Hl as [-> _]. split; lia.
Qed.

Lemma animation_textures_inv (n : nat) (frames : list string) :
  forall idx subs idx',
    0 <= idx ->
    animation_textures (seq 0 n) idx frames = Ok (subs, idx') ->
    subs = seq (Z.to_nat idx) (length frames)
    /\ idx' = idx + Z.of_nat (length frames).
Proof.
  induction frames as [|f rest IH]; intros idx subs idx' Hidx;
    cbn [animation_textures].
  - intros [= <- <-]. split; [reflexivity|cbn; lia].
  - destruct (list_index (seq 0 n) idx) as [sub_id|] eqn:Hsub; [|discriminate].
    destruct (list_index_seq _ _ _ Hidx Hsub) as [-> _].
    destruct (animation_textures (seq 0 n) (idx + 1) rest) as [[subs' i']|e] eqn:Hrest;
      [|discriminate].
    cbn. intros [= <- <-].
    assert (Hidx1 : 0 <= idx + 1) by lia.
    destruct (IH _ _ _ Hidx1 Hrest) as [-> ->].
    split; [|cbn [length]; lia].
    cbn [length seq]. f_equal. f_equal. lia.
Qed.

Lemma animation_entries_inv (sprite_file : SpriteFile.t) (n : nat)
    (anim_names : list string) :
  forall idx entries,
    0 <= idx ->
    animation_entries sprite_file (seq 0 n) idx anim_names = Ok entries ->
    entries = texture_entries sprite_file (Z.to_nat idx) anim_names.
Proof.
  induction anim_names as [|name rest IH]; intros idx entries Hidx;
    cbn [animation_entries texture_entries].
  - now intros [= <-].
  - destruct (animation_textures (seq 0 n) idx
                (SpriteFile.get_animation_frames sprite_file name))
      as [[subs idx']|e] eqn:Htex; [|discriminate].
    destruct (animation_textures_inv _ _ _ _ _ Hidx Htex) as [-> ->].
    cbn [mbind result_bind].
    destruct (animation_entries sprite_file (seq 0 n) _ rest) as [entries'|e] eqn:Hrest;
      [|discriminate].
    cbn. intros [= <-].
    assert (Hidx1 : 0 <= idx + Z.of_nat
              (length (SpriteFile.get_animation_frames sprite_file name))) by lia.
    rewrite (IH _ _ Hidx1 Hrest).
    f_equal. f_equal. lia.
Qed.

Lemma texture_entries_names (sprite_file : SpriteFile.t)
    (anim_names : list string) (idx : nat) :
  (texture_entries sprite_file idx anim_names).*1 = anim_names.
Proof.
  revert idx. induction anim_names as [|name rest IH]; intros idx; cbn;
    [reflexivity|]. now rewrite IH.
Qed.

Lemma texture_entries_concat (sprite_file : SpriteFile.t)
    (anim_names : list string) (idx : nat) :
  concat (texture_entries sprite_file idx anim_names).*2
  = seq idx (sum_list_with
               (fun name =>
                  length (SpriteFile.get_animation_frames sprite_file name))
               anim_names).
Proof.
  revert idx. induction anim_names as [|name rest IH]; intros idx; cbn;
    [reflexivity|]. now rewrite IH, seq_app.
Qed.

Lemma texture_entries_length (sprite_file : SpriteFile.t)
    (anim_names : list string) (idx : nat) (name : string) (subs : list nat) :
  (name, subs) ∈ texture_entries sprite_file idx anim_names ->
  length subs = length (SpriteFile.get_animation_frames sprite_file name).
Proof.
  revert idx. induction anim_names as [|n rest IH]; intros idx; cbn.
  - intros Hin. now apply elem_of_nil in Hin.
  - intros [[= -> ->]|Hin]%elem_of_cons; [apply length_seq|now apply (IH _ Hin)].
Qed.

(** For a dict, the frames looked up key by key are the frames of the
    entries. *)
Lemma frames_by_key (sprite_file : SpriteFile.t) :
  NoDup (dict_keys (SpriteFile.animations sprite_file)) ->
  SpriteFile.get_animation_frames sprite_file
    <$> dict_keys (SpriteFile.animations sprite_file)
  = (fun entry => Animation.frames entry.2)
      <$> SpriteFile.animations sprite_file.
Proof.
  intros Hnd. unfold dict_keys. rewrite <- list_fmap_compose.
  apply list_fmap_ext. intros i [k a] Hi. cbn.
  unfold SpriteFile.get_animation_frames.
  rewrite (SpriteFileProps.dict_get_NoDup _ k a Hnd); [reflexivity|].
  eapply list_elem_of_lookup_2. exact Hi.
Qed.

Lemma sum_list_with_fmap {A B : Type} (f : B -> nat) (g : A -> B) (l : list A) :
  sum_list_with f (g <$> l) = sum_list_with (fun x => f (g x)) l.
Proof. induction l as [|x l IH]; cbn; [reflexivity|now rewrite IH]. Qed.

Lemma frames_of_sorted_keys (sprite_file : SpriteFile.t) :
  NoDup (dict_keys (SpriteFile.animations sprite_file)) ->
  sum_list_with
    (fun name => length (SpriteFile.get_animation_frames sprite_file name))
    (sorted (dict_keys (SpriteFile.animations sprite_file)))
  = length (get_all_frame_paths (SpriteSheetGenerator.init sprite_file)).
Proof.
  intros Hnd. rewrite sorted_perm, length_get_all_frame_paths.
  unfold total_frames.
  rewrite <- (sum_list_with_fmap length
                (SpriteFile.get_animation_frames sprite_file)).
  rewrite frames_by_key by exact Hnd. now rewrite sum_list_with_fmap.
Qed.

(** What a successful [export_tres] wrote. *)
Lemma export_tres_inv (fuel : nat) (sprite_file : SpriteFile.t)
    (output_dir : string) (files files' : gmap string image)
    (doc : SpriteFrames) :
  export_tres fuel (GodotSpriteExporter.init sprite_file output_dir) files
  = Some (Ok doc, files') ->
  let gen := SpriteSheetGenerator.init sprite_file in
  let frames := get_all_frame_paths gen in
  exists side,
    frames <> []
    /\ determine_sheet_size fuel gen (Z.of_nat (length frames)) = Some (Ok side)
    /\ files' = <[tres_sheet doc := Atlas
                    {| sheet_side := side;
                       sheet_cells :=
                         layout_from (SpriteSheetGenerator.width gen)
                                     (SpriteSheetGenerator.height gen)
                                     (side / SpriteSheetGenerator.width gen)
                                     0 frames |}]> files
    /\ length (tres_sub_resources doc) = length frames
    /\ (forall i, (i < length frames)%nat ->
          tres_sub_resources doc !! i
          = Some (i, ((Z.of_nat i mod (side / SpriteSheetGenerator.width gen))
                        * SpriteSheetGenerator.width gen,
                      (Z.of_nat i / (side / SpriteSheetGenerator.width gen))
                        * SpriteSheetGenerator.height gen,
                      SpriteSheetGenerator.width gen,
                      SpriteSheetGenerator.height gen)))
    /\ tres_animations doc
       = texture_entries sprite_file 0
           (sorted (dict_keys (SpriteFile.animations sprite_file))).
Proof.
  intros Hrun gen frames. unfold export_tres in Hrun.
  cbn [GodotSpriteExporter.init sheet_gen GodotSpriteExporter.output_dir
       GodotSpriteExporter.sprite_file frame_count frame_paths] in Hrun.
  fold gen in Hrun. fold frames in Hrun.
  destruct (create_spritesheet fuel gen _ files) as [[[sheet_png|e] files1]|] eqn:Hsheet;
    try discriminate.
  destruct (create_spritesheet_inv _ _ _ _ _ _ Hsheet)
    as (side & Hne & Hsize & _ & Hfiles). fold gen frames in Hne, Hsize, Hfiles.
  rewrite Hsize in Hrun.
  destruct (determine_sheet_size_inv _ _ _ _ Hsize) as (_ & Hw & _ & _).
  unfold py_floordiv in Hrun.
  destruct (decide (SpriteSheetGenerator.width gen = 0)); [contradiction|].
  cbn [mbind result_bind] in Hrun. rewrite Nat2Z.id in Hrun.
  destruct (sub_resources _ _ _ 0 (seq 0 (length frames))) as [regions|e] eqn:Hreg;
    [|discriminate].
  destruct (animation_entries sprite_file (seq 0 (length frames)) 0 _)
    as [entries|e] eqn:Hent; [|discriminate].
  cbn in Hrun. injection Hrun as <- <-. cbn [tres_sheet tres_sub_resources tres_animations].
  destruct (sub_resources_inv _ _ _ _ _ _ Hreg) as [Hlen Hlook].
  rewrite length_seq in Hlen.
  exists side. split; [exact Hne|]. split; [exact Hsize|]. split; [exact Hfiles|].
  split; [exact Hlen|]. split.
  - intros i Hi. rewrite (Hlook i i); [now rewrite Z.add_0_l|].
    now apply lookup_seq.
  - apply (animation_entries_inv sprite_file (length frames) _ 0 entries);
      [lia|exact Hent].
Qed.

(** The origins of the cells of a grid determine the index. *)
Lemma grid_origin_inj (w h cols i j : Z) :
  1 <= w -> 1 <= h -> 1 <= cols ->
  (i mod cols) * w = (j mod cols) * w -> (i / cols) * h = (j / cols) * h ->
  i = j.
Proof.
  intros Hw Hh Hcols Hx Hy.
  pose proof (Z.div_mod i cols ltac:(lia)). pose proof (Z.div_mod j cols ltac:(lia)).
  assert (i mod cols = j mod cols) by nia.
  assert (i / cols = j / cols) by nia.
  congruence.
Qed.

Lemma layout_from_lookup_Some (w h cols : Z) (frames : list string) :
  forall idx i f,
    frames !! i = Some f ->
    layout_from w h cols idx frames !! i
    = Some (((idx + Z.of_nat i) mod cols) * w,
            ((idx + Z.of_nat i) / cols) * h, f).
Proof.
  induction frames as [|g rest IH]; intros idx i f; [now rewrite lookup_nil|].
  destruct i as [|i]; cbn [layout_from lookup list_lookup].
  - intros [= <-]. now rewrite Z.add_0_r.
  - intros Hi.
    replace (idx + Z.of_nat (S i)) with (idx + 1 + Z.of_nat i) by lia.
    exact (IH _ _ _ Hi).
Qed.

(** The frame behind sub-resource [i] of a successful export. *)
Lemma frame_shown_export (fuel : nat) (sprite_file : SpriteFile.t)
    (output_dir : string) (files files' : gmap string image)
    (doc : SpriteFrames) :
  1 <= SpriteFile.width sprite_file -> 1 <= SpriteFile.height sprite_file ->
  export_tres fuel (GodotSpriteExporter.init sprite_file output_dir) files
  = Some (Ok doc, files') ->
  exists sheet,
    files' !! tres_sheet doc = Some (Atlas sheet)
    /\ forall i f,
         get_all_frame_paths (SpriteSheetGenerator.init sprite_file) !! i = Some f ->
         frame_shown sheet doc i = Some f.
Proof.
  intros Hw Hh Hrun.
  destruct (export_tres_inv _ _ _ _ _ _ Hrun)
    as (side & Hne & Hsize & -> & Hlen & Hregs & _).
  eexists. split; [apply lookup_insert_eq|].
  set (gen := SpriteSheetGenerator.init sprite_file) in *.
  set (frames := get_all_frame_paths gen) in *.
  intros i f Hi. pose proof (lookup_lt_Some _ _ _ Hi) as Hlt.
  destruct (determine_sheet_size_inv _ _ _ _ Hsize) as (Hside & _ & _ & Hfit).
  change (SpriteSheetGenerator.width gen) with (SpriteFile.width sprite_file) in *.
  change (SpriteSheetGenerator.height gen) with (SpriteFile.height sprite_file) in *.
  assert (HN : 1 <= Z.of_nat (length frames)) by lia.
  destruct (cols_rows_pos _ _ _ _ Hw Hh Hside HN Hfit) as [Hcols _].
  set (w := SpriteFile.width sprite_file) in *.
  set (h := SpriteFile.height sprite_file) in *.
  set (cols := side / w) in *.
  unfold frame_shown.
  assert (Hfind1 : list_find (fun r : nat * (Z * Z * Z * Z) => r.1 = i)
                             (tres_sub_resources doc)
                   = Some (i, (i, ((Z.of_nat i mod cols) * w,
                                   (Z.of_nat i / cols) * h, w, h)))).
  { apply list_find_Some. split; [now apply Hregs|]. split; [reflexivity|].
    intros j y Hj Hji. rewrite Hregs in Hj by lia. injection Hj as <-. cbn. lia. }
  rewrite Hfind1. cbn [sheet_cells].
  assert (Hfind2 :
    list_find (fun cell : Z * Z * string =>
                 cell.1 = ((Z.of_nat i mod cols) * w, (Z.of_nat i / cols) * h))
              (layout_from w h cols 0 frames)
    = Some (i, ((Z.of_nat i mod cols) * w, (Z.of_nat i / cols) * h, f))).
  { apply list_find_Some. split.
    - rewrite (layout_from_lookup_Some _ _ _ _ _ _ _ Hi). now rewrite Z.add_0_l.
    - split; [reflexivity|]. intros j y Hj Hji.
      destruct (layout_from_lookup _ _ _ _ _ _ _ Hj) as (g & _ & ->).
      cbn. rewrite Z.add_0_l. intros [= Hx Hy].
      assert (Z.of_nat j = Z.of_nat i)
        by (apply (grid_origin_inj w h cols); assumption).
      lia. }
  now rewrite Hfind2.
Qed.

(** X11. With positive cell sizes, in a successful [export_tres] the
    region of sub-resource number [i] is the cell of the sheet where the
    packer pasted frame number [i] of [get_all_frame_paths]: the adapter
    and the packer use the same grid. *)
Theorem export_regions_match_cells (fuel : nat) (sprite_file : SpriteFile.t)
    (output_dir : string) (files files' : gmap string image)
    (doc : SpriteFrames) :
  1 <= SpriteFile.width sprite_file -> 1 <= SpriteFile.height sprite_file ->
  export_tres fuel (GodotSpriteExporter.init sprite_file output_dir) files
  = Some (Ok doc, files') ->
  exists sheet,
    files' !! tres_sheet doc = Some (Atlas sheet)
    /\ length (tres_sub_resources doc)
       = length (get_all_frame_paths (SpriteSheetGenerator.init sprite_file))
    /\ forall i f,
         get_all_frame_paths (SpriteSheetGenerator.init sprite_file) !! i = Some f ->
         frame_shown sheet doc i = Some f.
Proof.
  intros Hw Hh Hrun.
  destruct (frame_shown_export _ _ _ _ _ _ Hw Hh Hrun) as (sheet & Hsheet & Hshown).
  destruct (export_tres_inv _ _ _ _ _ _ Hrun) as (_ & _ & _ & _ & Hlen & _).
  exists sheet. auto.
Qed.

(** X12. In a successful [export_tres] of a sprite the animation entries
    come in the sorted order of the animation names, each entry has as
    many textures as its animation has frames, and the textures of all
    entries, read in order, are the sub-resources 0, 1, 2, ... up to the
    number of frames: each sub-resource is used exactly once. *)
Theorem export_entries_cover_sub_resources (fuel : nat)
    (sprite_file : SpriteFile.t) (output_dir : string)
    (files files' : gmap string image) (doc : SpriteFrames) :
  NoDup (dict_keys (SpriteFile.animations sprite_file)) ->
  export_tres fuel (GodotSpriteExporter.init sprite_file output_dir) files
  = Some (Ok doc, files') ->
  (tres_animations doc).*1
  = sorted (dict_keys (SpriteFile.animations sprite_file))
  /\ (forall name subs, (name, subs) ∈ tres_animations doc ->
        length subs
        = length (SpriteFile.get_animation_frames sprite_file name))
  /\ concat (tres_animations doc).*2
     = seq 0 (length (get_all_frame_paths
                        (SpriteSheetGenerator.init sprite_file))).
Proof.
  intros Hnd Hrun.
  destruct (export_tres_inv _ _ _ _ _ _ Hrun) as (_ & _ & _ & _ & _ & _ & ->).
  split; [apply texture_entries_names|]. split.
  - intros name subs. apply texture_entries_length.
  - rewrite texture_entries_concat. now rewrite frames_of_sorted_keys.
Qed.

Lemma texture_entries_own_frames (sprite_file : SpriteFile.t)
    (anim_names : list string) :
  forall (pre : list string) name subs,
    (name, subs) ∈ texture_entries sprite_file (length pre) anim_names ->
    Forall2 (fun i f =>
               (pre ++ concat (SpriteFile.get_animation_frames sprite_file
                                 <$> anim_names)) !! i = Some f)
            subs (SpriteFile.get_animation_frames sprite_file name).
Proof.
  induction anim_names as [|n rest IH]; intros pre name subs; cbn.
  - intros Hin. now apply elem_of_nil in Hin.
  - intros [[= -> ->]|Hin]%elem_of_cons.
    + apply Forall2_same_length_lookup. split; [now rewrite length_seq|].
      intros i j f Hj Hf. apply lookup_seq in Hj as [-> _].
      rewrite lookup_app_r by lia. replace (length pre + i - length pre)%nat with i by lia.
      now rewrite lookup_app_l by (eapply lookup_lt_Some; eauto).
    + specialize (IH (pre ++ SpriteFile.get_animation_frames sprite_file n) name subs).
      rewrite length_app in IH. specialize (IH Hin).
      now rewrite <- app_assoc in IH.
Qed.

(** X13. With positive cell sizes, when the animation names of the dict
    are already in sorted order, every animation entry of a successful
    [export_tres] shows exactly the frames of its own animation, in
    list order. *)
Theorem export_entries_show_own_frames (fuel : nat)
    (sprite_file : SpriteFile.t) (output_dir : string)
    (files files' : gmap string image) (doc : SpriteFrames) :
  1 <= SpriteFile.width sprite_file -> 1 <= SpriteFile.height sprite_file ->
  NoDup (dict_keys (SpriteFile.animations sprite_file)) ->
  sorted (dict_keys (SpriteFile.animations sprite_file))
  = dict_keys (SpriteFile.animations sprite_file) ->
  export_tres fuel (GodotSpriteExporter.init sprite_file output_dir) files
  = Some (Ok doc, files') ->
  exists sheet,
    files' !! tres_sheet doc = Some (Atlas sheet)
    /\ forall name subs, (name, subs) ∈ tres_animations doc ->
         Forall2 (fun i f => frame_shown sheet doc i = Some f)
                 subs (SpriteFile.get_animation_frames sprite_file name).
Proof.
  intros Hw Hh Hnd Hsorted Hrun.
  destruct (frame_shown_export _ _ _ _ _ _ Hw Hh Hrun) as (sheet & Hsheet & Hshown).
  destruct (export_tres_inv _ _ _ _ _ _ Hrun) as (_ & _ & _ & _ & _ & _ & Hent).
  exists sheet. split; [exact Hsheet|]. intros name subs Hin.
  rewrite Hent, Hsorted in Hin.
  pose proof (texture_entries_own_frames sprite_file _ [] name subs Hin) as Hown.
  rewrite app_nil_l, frames_by_key in Hown by exact Hnd.
  assert (Hall : concat ((fun entry : string * Animation.t =>
                            Animation.frames entry.2)
                           <$> SpriteFile.animations sprite_file)
                 = get_all_frame_paths (SpriteSheetGenerator.init sprite_file)).
  { symmetry.
    exact (get_all_frame_paths_dict_order (SpriteSheetGenerator.init sprite_file)). }
  rewrite Hall in Hown.
  eapply Forall2_impl; [exact Hown|]. intros i f Hi. now apply Hshown.
Qed.






(** X14. The export of a sprite that has no frame and no base image
    raises [TypeError] before anything is written: no sheet is packed,
    the background remover is not called and the files stay as they
    were. *)
Theorem export_without_frames_or_base_image
    (remove_background :
       string -> string -> gmap string image
       -> result unit * gmap string image)
    (fuel : nat) (sprite_file : SpriteFile.t)
    (output_dir : string) (files : gmap string image) :
  total_frames sprite_file = 0%nat ->
  SpriteFile.base_image sprite_file = None ->
  export remove_background fuel
         (GodotSpriteExporter.init sprite_file output_dir) files
  = Some (inl TypeError, files).
Proof.
  intros Hzero Hbase. unfold export.
  change (frame_count (GodotSpriteExporter.init sprite_file output_dir))
    with (Z.of_nat (length (get_all_frame_paths
                              (SpriteSheetGenerator.init sprite_file)))).
  rewrite length_get_all_frame_paths, Hzero.
  destruct (decide (Z.of_nat 0 = 0)) as [_|Hne]; [|now contradict Hne].
  unfold export_sprite2d.
  cbn [GodotSpriteExporter.init GodotSpriteExporter.sprite_file].
  now rewrite Hbase.
Qed.


Lemma NoDup_pair (a b : string) : a <> b -> NoDup [a; b].
Proof.
  intros Hab. apply NoDup_cons. split; [|apply NoDup_singleton].
  intros Hin. apply list_elem_of_singleton in Hin. contradiction.
Qed.

Lemma export_regions_match_cells_witness :
  exists doc files',
    (1 <= SpriteFile.width walk_idle_sprite
     /\ 1 <= SpriteFile.height walk_idle_sprite
     /\ export_tres 2 (GodotSpriteExporter.init walk_idle_sprite "out")
          walk_idle_files = Some (Ok doc, files'))
    /\ exists sheet,
        files' !! tres_sheet doc = Some (Atlas sheet)
        /\ length (tres_sub_resources doc)
           = length (get_all_frame_paths
                       (SpriteSheetGenerator.init walk_idle_sprite))
        /\ forall i f,
             get_all_frame_paths (SpriteSheetGenerator.init walk_idle_sprite) !! i
             = Some f ->
             frame_shown sheet doc i = Some f.
Proof.
  destruct (export_tres 2 (GodotSpriteExporter.init walk_idle_sprite "out")
              walk_idle_files) as [[[doc|e] files']|] eqn:E;
    try (vm_compute in E; discriminate).
  exists doc, files'. split; [repeat split; cbn; lia|].
  apply (export_regions_match_cells 2 walk_idle_sprite "out" walk_idle_files
           files' doc); [cbn; lia|cbn; lia|exact E].
Defined.

Lemma export_entries_cover_sub_resources_witness :
  exists doc files',
    (NoDup (dict_keys (SpriteFile.animations walk_idle_sprite))
     /\ export_tres 2 (GodotSpriteExporter.init walk_idle_sprite "out")
          walk_idle_files = Some (Ok doc, files'))
    /\ (tres_animations doc).*1
       = sorted (dict_keys (SpriteFile.animations walk_idle_sprite))
    /\ (forall name subs, (name, subs) ∈ tres_animations doc ->
          length subs
          = length (SpriteFile.get_animation_frames walk_idle_sprite name))
    /\ concat (tres_animations doc).*2
       = seq 0 (length (get_all_frame_paths
                          (SpriteSheetGenerator.init walk_idle_sprite))).
Proof.
  assert (Hnd : NoDup (dict_keys (SpriteFile.animations walk_idle_sprite)))
    by (apply NoDup_pair; discriminate).
  destruct (export_tres 2 (GodotSpriteExporter.init walk_idle_sprite "out")
              walk_idle_files) as [[[doc|e] files']|] eqn:E;
    try (vm_compute in E; discriminate).
  exists doc, files'. split; [split; [exact Hnd|reflexivity]|].
  exact (export_entries_cover_sub_resources 2 walk_idle_sprite "out"
           walk_idle_files files' doc Hnd E).
Defined.

Lemma export_entries_show_own_frames_witness :
  exists doc files',
    (1 <= SpriteFile.width idle_walk_sprite
     /\ 1 <= SpriteFile.height idle_walk_sprite
     /\ NoDup (dict_keys (SpriteFile.animations idle_walk_sprite))
     /\ sorted (dict_keys (SpriteFile.animations idle_walk_sprite))
        = dict_keys (SpriteFile.animations idle_walk_sprite)
     /\ export_tres 2 (GodotSpriteExporter.init idle_walk_sprite "out")
          walk_idle_files = Some (Ok doc, files'))
    /\ exists sheet,
        files' !! tres_sheet doc = Some (Atlas sheet)
        /\ forall name subs, (name, subs) ∈ tres_animations doc ->
             Forall2 (fun i f => frame_shown sheet doc i = Some f)
                     subs (SpriteFile.get_animation_frames idle_walk_sprite name).
Proof.
  assert (Hnd : NoDup (dict_keys (SpriteFile.animations idle_walk_sprite)))
    by (apply NoDup_pair; discriminate).
  assert (Hsorted : sorted (dict_keys (SpriteFile.animations idle_walk_sprite))
                    = dict_keys (SpriteFile.animations idle_walk_sprite))
    by reflexivity.
  destruct (export_tres 2 (GodotSpriteExporter.init idle_walk_sprite "out")
              walk_idle_files) as [[[doc|e] files']|] eqn:E;
    try (vm_compute in E; discriminate).
  exists doc, files'.
  split; [repeat split; try exact Hnd; try exact Hsorted; cbn; lia|].
  apply (export_entries_show_own_frames 2 idle_walk_sprite "out"
           walk_idle_files files' doc); try assumption; cbn; lia.
Defined.

Lemma export_without_frames_or_base_image_witness :
  (total_frames blank_sprite = 0%nat
   /\ SpriteFile.base_image blank_sprite = None)
  /\ export copy_background 0
            (GodotSpriteExporter.init blank_sprite "out") walk_idle_files
     = Some (inl TypeError, walk_idle_files).
Proof.
  split; [split; reflexivity|].
  apply (export_without_frames_or_base_image copy_background 0 blank_sprite
           "out" walk_idle_files); reflexivity.
Defined.


End ExportLayout.

(** ** Saving and loading the documents *)

Module StoreLaws.
Import os_path PathProps SpriteFileProps.

(** The path that [relpath] returns leads from [start] to the file that
    [path] names. *)
Lemma relpath_join_same_file (cwd path start r : string) :
  String.prefix "/" cwd = true ->
  relpath cwd path start = Ok r ->
  same_file cwd (join start [r]) path.
Proof.
  intros Hcwd. unfold relpath, same_file.
  destruct (decide (path = EmptyString)) as [|Hpath]; [discriminate|].
  set (S := segments (abspath cwd start)).
  set (P := segments (abspath cwd path)).
  destruct (commonprefix_take S P) as (Htake & HiS & HiP).
  set (i := length (commonprefix S P)) in *.
  pose proof (abspath_clean cwd start Hcwd) as HS. fold S in HS.
  pose proof (abspath_clean cwd path Hcwd) as HP. fold P in HP.
  set (rel_list := replicate (length S - i) ".." ++ drop i P).
  assert (Hrel : Forall (fun w => w <> EmptyString /\ slash_free w) rel_list).
  { apply Forall_app. split.
    - apply Forall_replicate. split; [discriminate|apply slash_free_dotdot].
    - apply Forall_drop. eapply Forall_impl; [exact HP|].
      intros w Hw. now apply clean_nonempty_slash_free. }
  assert (Hfold : foldl (norm_step 1) S rel_list = P).
  { unfold rel_list. rewrite foldl_app, foldl_norm_pops by (assumption || lia).
    rewrite foldl_norm_pushes by now apply Forall_drop.
    replace (length S - (length S - i))%nat with i by lia.
    rewrite Htake. apply take_drop. }
  intros Hr.
  assert (Hrseg : String.prefix "/" r = false
                  /\ foldl (norm_step 1) S (segments r) = P).
  { destruct rel_list as [|a rest] eqn:Erel.
    - injection Hr as <-. split; [reflexivity|].
      change (segments ".") with ["."]. cbn [foldl]. rewrite norm_step_dot.
      apply app_eq_nil in Erel as [Hrep Hdrop].
      rewrite <- (take_drop i P), Hdrop, app_nil_r, <- Htake.
      assert (length S - i = 0)%nat
        by (destruct (length S - i)%nat; [reflexivity|discriminate]).
      symmetry. apply firstn_all2. lia.
    - injection Hr as <-. inversion Hrel as [|? ? [Ha Hsf] Hrest]; subst.
      destruct (join_components rest a Ha (slash_free_not_rooted a Hsf) Hrest)
        as (Hseg & Hroot & _).
      split; [exact Hroot|].
      rewrite Hseg, (segments_of_component a) by assumption. exact Hfold. }
  destruct Hrseg as (Hrroot & Hrfold).
  cbn [join foldl]. rewrite abspath_segments by exact Hcwd.
  rewrite anchored_join_step by exact Hrroot.
  unfold resolve. rewrite foldl_app.
  fold (resolve (anchored cwd start)).
  rewrite <- abspath_segments by exact Hcwd. exact Hrfold.
Qed.

Lemma dict_get_fmap {V W : Type} (g : string -> V -> W)
    (d : list (string * V)) (k : string) :
  dict_get ((fun entry => (entry.1, g entry.1 entry.2)) <$> d) k
  = g k <$> dict_get d k.
Proof.
  induction d as [|[k0 v0] d IH]; [reflexivity|].
  rewrite fmap_cons. cbn [dict_get fst snd].
  destruct (decide (k0 = k)) as [->|_]; [reflexivity|exact IH].
Qed.

Lemma mapM_result_raise {A B : Type} (f : A -> result B) (e : exn)
    (l : list A) :
  Forall (fun a => forall e', f a = Raise e' -> e' = e) l ->
  Exists (fun a => f a = Raise e) l ->
  mapM f l = Raise e.
Proof.
  induction l as [|a l IH]; intros Hall Hex; [now apply Exists_nil in Hex|].
  apply Forall_cons in Hall as [Ha Hall]. cbn [mapM].
  destruct (f a) as [b|e'] eqn:Hfa.
  - apply Exists_cons in Hex as [Hex|Hex]; [congruence|].
    cbn [mbind result_bind]. now rewrite IH.
  - cbn [mbind result_bind]. f_equal. now apply Ha.
Qed.

Lemma relpath_raises (cwd path start : string) (e : exn) :
  relpath cwd path start = Raise e -> e = ValueError "no path specified".
Proof.
  unfold relpath. destruct (decide (path = EmptyString)); [congruence|].
  destruct (_ ++ _); discriminate.
Qed.

(** X16. With the process in an absolute current directory, saving a
    sprite that has no empty path and loading it again gives a sprite
    with the same identifier, name, description and cell size and the
    same animation names in the same order, in which every frame and the
    base image name the same file as before. *)
Theorem save_load_same_files (cwd sage_directory : string) (x : SpriteFile.t) :
  String.prefix "/" cwd = true ->
  NoDup (dict_keys (SpriteFile.animations x)) ->
  SpriteFile.nonempty_paths x ->
  exists d,
    SpriteFile.to_dict cwd x sage_directory = Ok d
    /\ let x' := SpriteFile.from_dict d sage_directory in
       SpriteFile.uuid x' = SpriteFile.uuid x
       /\ SpriteFile.name x' = SpriteFile.name x
       /\ SpriteFile.description x' = SpriteFile.description x
       /\ SpriteFile.width x' = SpriteFile.width x
       /\ SpriteFile.height x' = SpriteFile.height x
       /\ dict_keys (SpriteFile.animations x')
          = dict_keys (SpriteFile.animations x)
       /\ (forall k,
             Forall2 (same_file cwd)
                     (SpriteFile.get_animation_frames x' k)
                     (SpriteFile.get_animation_frames x k))
       /\ option_Forall2 (same_file cwd)
                         (SpriteFile.base_image x') (SpriteFile.base_image x).
Proof.
  intros Hcwd Hnd Hne.
  exists (SpriteFile.stored cwd sage_directory x).
  split; [now apply to_dict_stored|]. cbn zeta.
  destruct Hne as [Hbase Hframes].
  assert (Hsame : forall y, y <> EmptyString ->
            SpriteFile.rel cwd sage_directory y <> EmptyString
            /\ same_file cwd
                 (join sage_directory [SpriteFile.rel cwd sage_directory y]) y).
  { intros y Hy.
    pose proof (relpath_ok cwd sage_directory y Hy) as Hrel.
    split.
    - now destruct (relpath_join_stable _ _ _ _ Hcwd Hrel).
    - now apply (relpath_join_same_file _ _ _ _ Hcwd Hrel). }
  assert (Hnd' : NoDup (dict_keys (SpriteFile.data_animations
                                     (SpriteFile.stored cwd sage_directory x)))).
  { cbn. unfold dict_keys in *. now rewrite <- list_fmap_compose. }
  assert (Hanims :
    SpriteFile.animations
      (SpriteFile.from_dict (SpriteFile.stored cwd sage_directory x)
                            sage_directory)
    = (fun entry : string * Animation.t =>
         (entry.1,
          Animation.mk entry.1
            ((fun y => join sage_directory [y])
               <$> (SpriteFile.rel cwd sage_directory
                      <$> Animation.frames entry.2))))
        <$> SpriteFile.animations x).
  { rewrite (from_dict_animations sage_directory _ Hnd').
    cbn [SpriteFile.data_animations SpriteFile.stored].
    rewrite <- list_fmap_compose. apply list_fmap_ext.
    intros i [k a] _. reflexivity. }
  repeat split; try reflexivity.
  - rewrite Hanims. unfold dict_keys. now rewrite <- list_fmap_compose.
  - intros k. unfold SpriteFile.get_animation_frames. rewrite Hanims.
    rewrite (dict_get_fmap
               (fun k a => Animation.mk k
                  ((fun y => join sage_directory [y])
                     <$> (SpriteFile.rel cwd sage_directory
                            <$> Animation.frames a)))).
    destruct (dict_get (SpriteFile.animations x) k) as [a|] eqn:Hk;
      [|constructor].
    cbn [fmap option_fmap option_map Animation.frames].
    apply dict_get_elem_of in Hk.
    rewrite Forall_forall in Hframes. specialize (Hframes _ Hk).
    cbn [snd] in Hframes.
    induction Hframes as [|y l Hy Hl IH]; [constructor|].
    rewrite !fmap_cons. constructor; [now apply Hsame|exact IH].
  - cbn [SpriteFile.from_dict SpriteFile.base_image SpriteFile.data_base_image
         SpriteFile.stored].
    destruct (SpriteFile.base_image x) as [b|]; [|constructor].
    cbn [fmap option_fmap option_map].
    assert (Hb : b <> EmptyString) by congruence.
    destruct (Hsame b Hb) as [Hrne Hrsame].
    destruct (decide (SpriteFile.rel cwd sage_directory b = EmptyString));
      [contradiction|].
    now constructor.
Qed.

(** X17. [to_dict] of a sprite one of whose frames is the empty string
    raises [ValueError]: [relpath] refuses the empty path. *)
Theorem to_dict_empty_frame (cwd sage_directory : string) (x : SpriteFile.t)
    (k : string) :
  EmptyString ∈ SpriteFile.get_animation_frames x k ->
  SpriteFile.to_dict cwd x sage_directory
  = Raise (ValueError "no path specified").
Proof.
  intros Hin. unfold SpriteFile.to_dict.
  assert (Hbase : exists base,
            match SpriteFile.base_image x with
            | Some b =>
                if decide (b = EmptyString) then Ok (Some b)
                else Some <$> relpath cwd b sage_directory
            | None => Ok None
            end = Ok base).
  { destruct (SpriteFile.base_image x) as [b|]; [|eauto].
    destruct (decide (b = EmptyString)); [eauto|].
    unfold relpath. destruct (decide (b = EmptyString)); [contradiction|].
    destruct (_ ++ _); cbn; eauto. }
  destruct Hbase as [base ->]. cbn [mbind result_bind].
  assert (Hframes : forall k' e,
            SpriteFile.relative_frames cwd x sage_directory k' = Raise e ->
            e = ValueError "no path specified").
  { intros k' e. unfold SpriteFile.relative_frames.
    generalize (match dict_get (SpriteFile.animations x) k' with
                | Some a => Animation.frames a
                | None => []
                end) as l.
    induction l as [|y l IH]; cbn [mapM]; [discriminate|].
    destruct (relpath cwd y sage_directory) as [r|e'] eqn:Hy.
    - cbn [mbind result_bind]. destruct (mapM _ l); [discriminate|].
      intros [= <-]. now apply IH.
    - cbn [mbind result_bind]. intros [= <-]. now apply relpath_raises in Hy. }
  assert (Hk : SpriteFile.relative_frames cwd x sage_directory k
               = Raise (ValueError "no path specified")).
  { unfold SpriteFile.relative_frames.
    unfold SpriteFile.get_animation_frames in Hin.
    apply mapM_result_raise.
    - apply Forall_forall. intros y _ e. apply relpath_raises.
    - apply Exists_exists. exists EmptyString. split; [exact Hin|reflexivity]. }
  assert (Hkey : k ∈ dict_keys (SpriteFile.animations x)).
  { unfold SpriteFile.get_animation_frames in Hin.
    destruct (dict_get (SpriteFile.animations x) k) as [a|] eqn:Ha;
      [|now apply elem_of_nil in Hin].
    apply dict_get_elem_of in Ha. unfold dict_keys.
    apply list_elem_of_fmap. now exists (k, a). }
  rewrite (mapM_result_raise _ (ValueError "no path specified")); [reflexivity| |].
  - apply Forall_forall. intros k' _ e.
    destruct (SpriteFile.relative_frames cwd x sage_directory k') as [fr|e']
      eqn:Hk'; [discriminate|].
    cbn [mbind result_bind]. intros [= <-]. now apply (Hframes k').
  - apply Exists_exists. exists k. split; [exact Hkey|]. now rewrite Hk.
Qed.

Lemma join_nonempty (d x : string) :
  d <> EmptyString -> join d [x] <> EmptyString.
Proof.
  intros Hd. cbn [join foldl]. unfold join_step.
  destruct (String.prefix "/" x) eqn:Hx.
  - intros ->. discriminate.
  - rewrite (bool_decide_eq_false_2 _ Hd). cbn [orb].
    destruct (endswith_sep d); intros Heq;
      apply (f_equal String.length) in Heq;
      rewrite ?EditorProps.length_append in Heq;
      destruct d; cbn in Heq; congruence || lia.
Qed.

Lemma commonprefix_refl (l : list string) : commonprefix l l = l.
Proof.
  induction l as [|x l IH]; [reflexivity|]. cbn [commonprefix].
  destruct (decide (x = x)); [now rewrite IH|congruence].
Qed.

(** The empty name joined to a directory leads back to the directory. *)
Lemma relpath_join_empty (cwd d : string) :
  String.prefix "/" cwd = true -> d <> EmptyString ->
  relpath cwd (join d [EmptyString]) d = Ok ".".
Proof.
  intros Hcwd Hd. unfold relpath.
  destruct (decide (join d [EmptyString] = EmptyString)) as [Hnil|_];
    [now apply join_nonempty in Hnil|].
  assert (Hseg : segments (abspath cwd (join d [EmptyString]))
                 = segments (abspath cwd d)).
  { cbn [join foldl]. rewrite !abspath_segments by exact Hcwd.
    rewrite anchored_join_step by reflexivity.
    now rewrite segments_nil, app_nil_r. }
  rewrite Hseg, commonprefix_refl, Nat.sub_diag, drop_all. reflexivity.
Qed.

Import SageFile.

Lemma sage_to_dict_ok (cwd : string) (d : data) (fp : string) :
  dirname fp <> EmptyString ->
  to_dict cwd (from_dict d fp)
  = Ok {| data_project_name := Some (default EmptyString (data_project_name d));
          data_version := Some (default EmptyString (data_version d));
          data_created_at := Some (default EmptyString (data_created_at d));
          data_project_description :=
            Some (default EmptyString (data_project_description d));
          data_keywords := Some (default EmptyString (data_keywords d));
          data_camera := Some (default EmptyString (data_camera d));
          data_reference_images :=
            Some ((fun x => SpriteFile.rel cwd (dirname fp) (join (dirname fp) [x]))
                    <$> default [] (data_reference_images d));
          data_last_saved := Some (default EmptyString (data_last_saved d)) |}.
Proof.
  intros Hdir. unfold to_dict, from_dict, directory.
  cbn [filepath reference_images project_name version created_at
       project_description keywords camera last_saved].
  rewrite (mapM_result_ok _ (SpriteFile.rel cwd (dirname fp))).
  - cbn [mbind result_bind mret result_ret]. now rewrite <- list_fmap_compose.
  - apply Forall_fmap, Forall_forall. intros x _. cbn.
    apply relpath_ok. now apply join_nonempty.
Qed.

(** X18. With the process in an absolute current directory and a project
    file that lies in a named directory, [to_dict] after [from_dict]
    never raises, keeps the number of reference images, and writes "."
    for every reference image that was the empty string: an empty slot
    does not stay empty. *)
Theorem sage_empty_slot_becomes_dot (cwd : string) (d : data) (fp : string) :
  String.prefix "/" cwd = true ->
  dirname fp <> EmptyString ->
  exists d' images,
    to_dict cwd (from_dict d fp) = Ok d'
    /\ data_reference_images d' = Some images
    /\ length images = length (default [] (data_reference_images d))
    /\ forall i, default [] (data_reference_images d) !! i = Some EmptyString ->
         images !! i = Some ".".
Proof.
  intros Hcwd Hdir. rewrite sage_to_dict_ok by exact Hdir.
  eexists. eexists. split; [reflexivity|]. split; [reflexivity|].
  split; [apply length_fmap|].
  intros i Hi. rewrite list_lookup_fmap, Hi. cbn [fmap option_fmap option_map].
  f_equal. unfold SpriteFile.rel.
  now rewrite relpath_join_empty.
Qed.

(** X19. For a project file given by a bare file name, so that its
    directory is the empty string, [to_dict] after [from_dict] raises
    [ValueError] as soon as one reference image is the empty string. *)
Theorem sage_bare_name_empty_slot (cwd : string) (d : data) (fp : string) :
  dirname fp = EmptyString ->
  EmptyString ∈ default [] (data_reference_images d) ->
  to_dict cwd (from_dict d fp) = Raise (ValueError "no path specified").
Proof.
  intros Hdir Hin. unfold to_dict, from_dict, directory.
  cbn [filepath reference_images]. rewrite Hdir.
  rewrite (mapM_result_raise _ (ValueError "no path specified")); [reflexivity| |].
  - apply Forall_forall. intros y _ e. apply relpath_raises.
  - apply Exists_exists. exists EmptyString. split; [|reflexivity].
    apply list_elem_of_fmap. exists EmptyString. split; [reflexivity|exact Hin].
Qed.

Lemma mapM_result_inv {A B : Type} (f : A -> result B) (l : list A)
    (k : list B) :
  mapM f l = Ok k -> Forall2 (fun a b => f a = Ok b) l k.
Proof.
  revert k. induction l as [|a l IH]; intros k; cbn [mapM].
  - intros [= <-]. constructor.
  - destruct (f a) as [b|e] eqn:Hfa; [|discriminate]. cbn [mbind result_bind].
    destruct (mapM f l) as [k'|e]; [|discriminate]. cbn.
    intros [= <-]. constructor; [exact Hfa|now apply IH].
Qed.

Lemma mapM_result_Forall2 {A B : Type} (f : A -> result B) (l : list A)
    (k : list B) :
  Forall2 (fun a b => f a = Ok b) l k -> mapM f l = Ok k.
Proof.
  induction 1 as [|a b l k Hab Hlk IH]; [reflexivity|].
  cbn [mapM]. rewrite Hab. cbn [mbind result_bind]. now rewrite IH.
Qed.

(** X20. With the process in an absolute current directory, the dict
    that [to_dict] returns for a loaded project is a fixed point of
    loading and saving: [from_dict] of it followed by [to_dict] returns
    it again. *)
Theorem sage_to_dict_stable (cwd : string) (d d' : data) (fp : string) :
  String.prefix "/" cwd = true ->
  to_dict cwd (from_dict d fp) = Ok d' ->
  to_dict cwd (from_dict d' fp) = Ok d'.
Proof.
  intros Hcwd. unfold to_dict at 1.
  destruct (mapM _ (reference_images (from_dict d fp))) as [images|e] eqn:Hm;
    [|discriminate].
  cbn [mbind result_bind mret result_ret]. intros [= <-].
  unfold to_dict, from_dict at 1, directory.
  cbn [filepath reference_images data_reference_images default
       project_name version created_at project_description keywords camera
       last_saved data_project_name data_version data_created_at
       data_project_description data_keywords data_camera data_last_saved].
  apply mapM_result_inv in Hm.
  unfold directory in Hm. cbn [filepath from_dict] in Hm.
  rewrite (mapM_result_Forall2 _ _ images); [reflexivity|].
  apply Forall2_fmap_l.
  assert (Hall : Forall (fun r => exists p,
                           relpath cwd p (dirname fp) = Ok r) images).
  { apply Forall_forall. intros r Hr.
    apply list_elem_of_lookup in Hr as [i Hi].
    destruct (Forall2_lookup_r _ _ _ _ _ Hm Hi) as (p & _ & Hp). eauto. }
  clear Hm. induction Hall as [|r l [p Hp] Hl IH]; constructor; [|exact IH].
  now destruct (relpath_join_stable _ _ _ _ Hcwd Hp).
Qed.

Lemma save_load_same_files_witness :
  let x := knight_sprite in
  (String.prefix "/" "/home/artist" = true
   /\ NoDup (dict_keys (SpriteFile.animations x))
   /\ SpriteFile.nonempty_paths x)
  /\ exists d,
      SpriteFile.to_dict "/home/artist" x "/games/quest" = Ok d
      /\ let x' := SpriteFile.from_dict d "/games/quest" in
         SpriteFile.uuid x' = SpriteFile.uuid x
         /\ SpriteFile.name x' = SpriteFile.name x
         /\ SpriteFile.description x' = SpriteFile.description x
         /\ SpriteFile.width x' = SpriteFile.width x
         /\ SpriteFile.height x' = SpriteFile.height x
         /\ dict_keys (SpriteFile.animations x')
            = dict_keys (SpriteFile.animations x)
         /\ (forall k,
               Forall2 (same_file "/home/artist")
                       (SpriteFile.get_animation_frames x' k)
                       (SpriteFile.get_animation_frames x k))
         /\ option_Forall2 (same_file "/home/artist")
                           (SpriteFile.base_image x') (SpriteFile.base_image x).
Proof.
  intros x.
  assert (Hnd : NoDup (dict_keys (SpriteFile.animations x))).
  { cbn. apply NoDup_cons. split; [|apply NoDup_singleton].
    intros Hin%list_elem_of_singleton. discriminate. }
  assert (Hne : SpriteFile.nonempty_paths x).
  { split; [discriminate|]. repeat constructor; discriminate. }
  split; [split; [reflexivity|split; assumption]|].
  exact (save_load_same_files "/home/artist" "/games/quest" x eq_refl Hnd Hne).
Defined.

Lemma to_dict_empty_frame_witness :
  EmptyString ∈ SpriteFile.get_animation_frames empty_frame_sprite "idle"
  /\ SpriteFile.to_dict "/home/artist" empty_frame_sprite "/games/quest"
     = Raise (ValueError "no path specified").
Proof.
  assert (Hin : EmptyString
                ∈ SpriteFile.get_animation_frames empty_frame_sprite "idle").
  { cbn. apply elem_of_cons. right. apply elem_of_cons. now left. }
  split; [exact Hin|].
  exact (to_dict_empty_frame "/home/artist" "/games/quest" empty_frame_sprite
           "idle" Hin).
Defined.

Lemma sage_empty_slot_becomes_dot_witness :
  let fp := "/games/quest/quest.sage" in
  (String.prefix "/" "/home/artist" = true /\ dirname fp <> EmptyString)
  /\ exists d' images,
      to_dict "/home/artist" (from_dict EMPTY_SAGE_TEMPLATE fp) = Ok d'
      /\ data_reference_images d' = Some images
      /\ length images
         = length (default [] (data_reference_images EMPTY_SAGE_TEMPLATE))
      /\ forall i,
           default [] (data_reference_images EMPTY_SAGE_TEMPLATE) !! i
           = Some EmptyString ->
           images !! i = Some ".".
Proof.
  intros fp.
  assert (Hdir : dirname fp <> EmptyString) by (vm_compute; discriminate).
  split; [split; [reflexivity|exact Hdir]|].
  exact (sage_empty_slot_becomes_dot "/home/artist" EMPTY_SAGE_TEMPLATE fp
           eq_refl Hdir).
Defined.

Lemma sage_bare_name_empty_slot_witness :
  (dirname "quest.sage" = EmptyString
   /\ EmptyString ∈ default [] (data_reference_images EMPTY_SAGE_TEMPLATE))
  /\ to_dict "/home/artist" (from_dict EMPTY_SAGE_TEMPLATE "quest.sage")
     = Raise (ValueError "no path specified").
Proof.
  assert (Hin : EmptyString
                ∈ default [] (data_reference_images EMPTY_SAGE_TEMPLATE))
    by (cbn; apply elem_of_cons; now left).
  split; [split; [reflexivity|exact Hin]|].
  exact (sage_bare_name_empty_slot "/home/artist" EMPTY_SAGE_TEMPLATE
           "quest.sage" eq_refl Hin).
Defined.

Lemma sage_to_dict_stable_witness :
  let fp := "/games/quest/quest.sage" in
  exists d',
    (String.prefix "/" "/home/artist" = true
     /\ to_dict "/home/artist" (from_dict EMPTY_SAGE_TEMPLATE fp) = Ok d')
    /\ to_dict "/home/artist" (from_dict d' fp) = Ok d'.
Proof.
  intros fp.
  destruct (to_dict "/home/artist" (from_dict EMPTY_SAGE_TEMPLATE fp))
    as [d'|e] eqn:E; [|vm_compute in E; discriminate].
  exists d'. split; [split; reflexivity|].
  exact (sage_to_dict_stable "/home/artist" EMPTY_SAGE_TEMPLATE d' fp eq_refl E).
Defined.

End StoreLaws.

(** ** Further laws of the frame operations *)

Module EditorLaws.
Import os_path PathProps SpriteEditorView EditorProps.
Local Open Scope Z_scope.

Lemma copies_of_refl (files : gmap string image) : copies_of files files.
Proof. intros p img Hp. eauto. Qed.

Lemma copies_of_trans (f1 f2 f3 : gmap string image) :
  copies_of f1 f2 -> copies_of f2 f3 -> copies_of f1 f3.
Proof.
  intros H12 H23 p img Hp. destruct (H23 _ _ Hp) as [q Hq]. eauto.
Qed.

Lemma free_target_free (files : gmap string image)
    (base_dir name ext : string) (fuel : nat) :
  forall (counter : Z) (target t : string),
    free_target fuel files base_dir name ext counter target = Some t ->
    files !! t = None.
Proof.
  induction fuel as [|fuel IH]; intros counter target t; cbn [free_target];
    [discriminate|].
  destruct (decide (is_Some (files !! target))) as [_|Hfree].
  - apply IH.
  - intros [= <-]. now apply eq_None_not_Some.
Qed.

Lemma copy_into_base_keeps (files files' : gmap string image)
    (base_dir abs_input : string) (r : result string) :
  copy_into_base files base_dir abs_input = Some (r, files') ->
  files ⊆ files' /\ copies_of files files'.
Proof.
  unfold copy_into_base.
  destruct (splitext (basename abs_input)) as [name ext].
  destruct (free_target _ files base_dir name ext 1 _) as [t|] eqn:Ht;
    [|discriminate].
  apply free_target_free in Ht.
  destruct (files !! abs_input) as [img|] eqn:Hsrc.
  - intros [= _ <-]. split; [now apply insert_subseteq|].
    intros p img' Hp. destruct (decide (t = p)) as [->|Hne].
    + rewrite lookup_insert_eq in Hp. injection Hp as <-. eauto.
    + rewrite lookup_insert_ne in Hp by exact Hne. eauto.
  - intros [= _ <-]. split; [reflexivity|apply copies_of_refl].
Qed.

Lemma resolve_input_keeps (cwd : string) (files files' : gmap string image)
    (base_dir fpath : string) (r : result string) :
  resolve_input cwd files base_dir fpath = Some (r, files') ->
  files ⊆ files' /\ copies_of files files'.
Proof.
  unfold resolve_input. destruct (String.prefix _ _).
  - intros [= _ <-]. split; [reflexivity|apply copies_of_refl].
  - apply copy_into_base_keeps.
Qed.

Lemma insert_loop_keeps (cwd base_dir : string) (file_paths : list string) :
  forall st st',
    insert_loop cwd base_dir file_paths st = Some st' ->
    files_after st ⊆ files_after st'
    /\ copies_of (files_after st) (files_after st').
Proof.
  induction file_paths as [|fpath rest IH]; intros st st'; cbn [insert_loop].
  - intros [= <-]. split; [reflexivity|apply copies_of_refl].
  - destruct (resolve_input cwd (files_after st) base_dir fpath)
      as [[r files']|] eqn:Hres; [|discriminate].
    destruct (resolve_input_keeps _ _ _ _ _ _ Hres) as [Hsub Hcop].
    assert (Hstep : forall st1, files_after st1 = files' ->
              insert_loop cwd base_dir rest st1 = Some st' ->
              files_after st ⊆ files_after st'
              /\ copies_of (files_after st) (files_after st')).
    { intros st1 Hst1 Hrun. destruct (IH _ _ Hrun) as [Hsub' Hcop'].
      rewrite Hst1 in Hsub', Hcop'. split.
      - now transitivity files'.
      - now apply (copies_of_trans _ files'). }
    destruct r as [p|e].
    + destruct (decide (p ∈ frame_list st)); intros Hrun;
        (eapply Hstep; [|exact Hrun]; reflexivity).
    + intros Hrun. eapply Hstep; [|exact Hrun]. reflexivity.
Qed.

(** X21. [_insert_frames_at_index] never overwrites and never removes a
    file: every file that existed before is there afterwards with the
    image it held, and every file afterwards holds the image of a file
    that existed before (the added files are copies). *)
Theorem insert_frames_keeps_files (cwd : string) (self : t)
    (files : gmap string image) (file_paths : list string) (i : Z)
    (o : outcome) :
  _insert_frames_at_index cwd self files file_paths i = Some o ->
  files ⊆ SpriteEditorView.files o
  /\ copies_of files (SpriteEditorView.files o).
Proof.
  unfold _insert_frames_at_index.
  assert (Hsame : forall o',
            SpriteEditorView.files o' = files ->
            files ⊆ SpriteEditorView.files o'
            /\ copies_of files (SpriteEditorView.files o')).
  { intros o' ->. split; [reflexivity|apply copies_of_refl]. }
  destruct (anim_current self) as [anim_name|];
    [|intros [= <-]; now apply Hsame].
  destruct (_base_dir self) as [base_dir|];
    [|intros [= <-]; now apply Hsame].
  destruct (decide (base_dir = EmptyString));
    [intros [= <-]; now apply Hsame|].
  destruct (insert_loop cwd base_dir file_paths _) as [st|] eqn:Hloop;
    [|discriminate].
  intros [= <-]. cbn [SpriteEditorView.files].
  exact (insert_loop_keeps _ _ _ _ _ Hloop).
Qed.

Lemma list_insert_at_perm (l : list string) (i : Z) (x : string) :
  list_insert_at l i x ≡ₚ x :: l.
Proof.
  unfold list_insert_at. set (j := Z.to_nat _).
  rewrite <- (take_drop j l) at 3. symmetry. apply Permutation_middle.
Qed.

Lemma insert_many_perm (news l : list string) (i : Z) :
  insert_many l i news ≡ₚ news ++ l.
Proof.
  revert l i. induction news as [|x news IH]; intros l i; cbn [insert_many];
    [reflexivity|].
  rewrite IH, list_insert_at_perm. cbn [app]. symmetry.
  apply Permutation_middle.
Qed.

(** The frames of the selected animation after an insertion. *)
Lemma insert_frames_frames (cwd : string) (self : t)
    (files : gmap string image) (file_paths : list string) (i : Z)
    (anim_name base_dir : string) :
  anim_current self = Some anim_name ->
  _base_dir self = Some base_dir -> base_dir <> EmptyString ->
  let frames := SpriteFile.get_animation_frames (sprite_data self) anim_name in
  exists o,
    _insert_frames_at_index cwd self files file_paths i = Some o
    /\ SpriteFile.get_animation_frames (sprite_data (view o)) anim_name
       = insert_many frames i (inserted o).*2
    /\ NoDup (inserted o).*2
    /\ (forall q, q ∈ (inserted o).*2 -> q ∉ frames).
Proof.
  intros Hanim Hbase Hne frames.
  destruct (insert_frames_result cwd self files file_paths i anim_name base_dir
              Hanim Hbase Hne)
    as (o & st & Hrun & Hloop & Hins & _ & _ & Htouched & Huntouched).
  destruct (insert_loop_spec _ _ _ _ _ Hloop)
    as (news & Hfl & Hadd & _ & _ & Hnd & Hfresh & _ & Hnone).
  cbn [frame_list added insertion_index fmap list_fmap app] in Hfl, Hadd, Hfresh.
  exists o. split; [exact Hrun|]. rewrite Hins, Hadd.
  split; [|split; [exact Hnd|exact Hfresh]].
  destruct (touched st) eqn:Ht.
  - rewrite Htouched by reflexivity. exact Hfl.
  - rewrite Huntouched, Hnone by reflexivity. reflexivity.
Qed.

(** X22. An insertion at any index, negative ones included, loses no
    frame of the selected animation: the new frame list is a
    rearrangement of the inserted paths together with the old frames;
    and a frame list without duplicates stays without duplicates. *)
Theorem insert_frames_keeps_frames (cwd : string) (self : t)
    (files : gmap string image) (file_paths : list string) (i : Z)
    (anim_name base_dir : string) :
  anim_current self = Some anim_name ->
  _base_dir self = Some base_dir -> base_dir <> EmptyString ->
  let frames := SpriteFile.get_animation_frames (sprite_data self) anim_name in
  exists o,
    _insert_frames_at_index cwd self files file_paths i = Some o
    /\ let frames' :=
         SpriteFile.get_animation_frames (sprite_data (view o)) anim_name in
       frames' ≡ₚ (inserted o).*2 ++ frames
       /\ (NoDup frames -> NoDup frames').
Proof.
  intros Hanim Hbase Hne frames.
  destruct (insert_frames_frames cwd self files file_paths i anim_name base_dir
              Hanim Hbase Hne) as (o & Hrun & Hframes & Hnd & Hfresh).
  exists o. split; [exact Hrun|]. cbn zeta. rewrite Hframes.
  split; [apply insert_many_perm|].
  intros Hold. rewrite insert_many_perm. apply NoDup_app.
  split; [exact Hnd|]. split; [exact Hfresh|exact Hold].
Qed.

Lemma dict_get_set_ne {V : Type} (d : list (string * V)) (k k' : string)
    (v : V) :
  k <> k' -> dict_get (dict_set d k v) k' = dict_get d k'.
Proof.
  intros Hne. induction d as [|[k0 v0] d IH]; cbn [dict_set dict_get].
  - destruct (decide (k = k')); [contradiction|reflexivity].
  - destruct (decide (k0 = k)) as [->|Hk0]; cbn [dict_get].
    + destruct (decide (k = k')); [contradiction|reflexivity].
    + destruct (decide (k0 = k')); [reflexivity|exact IH].
Qed.


Lemma list_index_lookup (l : list string) (i : nat) (x : string) :
  l !! i = Some x -> list_index l (Z.of_nat i) = Some x.
Proof.
  intros Hi. pose proof (lookup_lt_Some _ _ _ Hi) as Hlt. unfold list_index.
  destruct (decide (Z.of_nat i < 0)); [lia|].
  destruct (decide (0 <= Z.of_nat i < Z.of_nat (length l))); [|lia].
  now rewrite Nat2Z.id.
Qed.

Lemma list_insert_at_nat (l : list string) (i : nat) (x : string) :
  (i <= length l)%nat ->
  list_insert_at l (Z.of_nat i) x = take i l ++ x :: drop i l.
Proof.
  intros Hi. unfold list_insert_at.
  destruct (decide (Z.of_nat i < 0)); [lia|].
  now replace (Z.to_nat (Z.min (Z.of_nat i) (Z.of_nat (length l)))) with i by lia.
Qed.

(** X24. A frame generated for the gap between two neighbouring frames
    lands in that gap: with [f1] at row [g - 1] and [f2] at row [g],
    "add AI frame before" on row [g] and "add AI frame after" on row
    [g - 1] both send one generate-between request with the images
    [(f1, f2)] and insert the result at index [g]. The backend returns a
    new image in the sprite directory. *)
Theorem ai_frame_lands_between (cwd : string)
    (ai : ai_request -> option string) (self : t)
    (files : gmap string image) (g : nat) (f1 f2 R anim_name base_dir : string) :
  let frames := SpriteFile.get_animation_frames (sprite_data self) anim_name in
  anim_current self = Some anim_name ->
  _base_dir self = Some base_dir -> base_dir <> EmptyString ->
  (0 < g)%nat -> frames !! (g - 1)%nat = Some f1 -> frames !! g = Some f2 ->
  (forall request, ai request = Some R) -> R <> EmptyString ->
  under_base cwd base_dir R = true ->
  abspath cwd R ∉ frames ->
  let between :=
    generate_sprite_between_images (sage_directory self) anim_name
      [Some f1; Some f2] (camera self) in
  let landed (r : option (result outcome)) :=
    exists o,
      r = Some (Ok o)
      /\ requests o = [between]
      /\ inserted o = [(Z.of_nat g, abspath cwd R)]
      /\ SpriteFile.get_animation_frames (sprite_data (view o)) anim_name
         = take g frames ++ abspath cwd R :: drop g frames in
  (frame_current self = Some (Z.of_nat g) ->
   landed (_add_ai_generated_frame_before cwd ai self files))
  /\ (frame_current self = Some (Z.of_nat g - 1) ->
      landed (_add_ai_generated_frame_after cwd ai self files)).
Proof.
  intros frames Hanim Hbase Hne Hg Hf1 Hf2 Hai HR Hunder Hnew between landed.
  pose proof (lookup_lt_Some _ _ _ Hf2) as Hlen.
  destruct (insert_single_frame cwd self files R (Z.of_nat g) anim_name base_dir
              Hanim Hbase Hne Hunder Hnew) as (o & Hrun & Hins & Hframes).
  fold frames in Hframes. rewrite list_insert_at_nat in Hframes by lia.
  assert (Hi1 : list_index frames (Z.of_nat g - 1) = Some f1).
  { replace (Z.of_nat g - 1) with (Z.of_nat (g - 1)) by lia.
    now apply list_index_lookup. }
  assert (Hi2 : list_index frames (Z.of_nat g) = Some f2)
    by now apply list_index_lookup.
  assert (Hdone : forall request,
            request = between ->
            landed (Ok <$> insert_generated cwd self files request
                             (ai request) (Z.of_nat g))).
  { intros request ->. unfold insert_generated. rewrite Hai.
    destruct (decide (R = EmptyString)); [contradiction|].
    unfold _add_frame_at_index. rewrite Hrun. cbn [fmap option_fmap option_map].
    eexists. split; [reflexivity|].
    cbn [requests inserted view]. auto. }
  split; intros Hrow.
  - unfold _add_ai_generated_frame_before. rewrite Hrow, Hanim.
    change (default 0 (Some (Z.of_nat g))) with (Z.of_nat g). fold frames.
    assert (Hreq : request_before self anim_name frames (Z.of_nat g) = Ok between).
    { unfold request_before.
      destruct (decide (Z.of_nat (length frames) = 0)); [lia|].
      destruct (decide (Z.of_nat g = 0)); [lia|].
      now rewrite Hi1, Hi2. }
    rewrite Hreq. now apply Hdone.
  - unfold _add_ai_generated_frame_after. rewrite Hrow, Hanim.
    change (default 0 (Some (Z.of_nat g - 1))) with (Z.of_nat g - 1).
    fold frames.
    assert (Hreq : request_after self anim_name frames (Z.of_nat g - 1)
                   = Ok between).
    { unfold request_after.
      destruct (decide (Z.of_nat (length frames) = 0)); [lia|].
      destruct (decide (Z.of_nat g - 1 = Z.of_nat (length frames) - 1)); [lia|].
      replace (Z.of_nat g - 1 + 1) with (Z.of_nat g) by lia.
      now rewrite Hi1, Hi2. }
    rewrite Hreq.
    destruct (decide (Z.of_nat (length frames) = 0)); [lia|].
    replace (Z.of_nat g - 1 + 1) with (Z.of_nat g) by lia.
    now apply Hdone.
Qed.

(** X25. When the backend returns nothing, or an empty path, an AI frame
    operation that does not raise leaves the view and the files as they
    were and inserts nothing; it has sent at most one request. *)
Theorem ai_failure_changes_nothing (cwd : string)
    (ai : ai_request -> option string) (self : t)
    (files : gmap string image) (o : outcome) :
  (forall request, ai request = None \/ ai request = Some EmptyString) ->
  _add_ai_generated_frame_before cwd ai self files = Some (Ok o)
  \/ _add_ai_generated_frame_after cwd ai self files = Some (Ok o) ->
  view o = self /\ SpriteEditorView.files o = files /\ inserted o = []
  /\ (length (requests o) <= 1)%nat.
Proof.
  intros Hai.
  assert (Hgen : forall request idx,
            Ok <$> insert_generated cwd self files request (ai request) idx
            = Some (Ok o) ->
            view o = self /\ SpriteEditorView.files o = files
            /\ inserted o = [] /\ (length (requests o) <= 1)%nat).
  { intros request idx. unfold insert_generated.
    destruct (Hai request) as [-> | ->].
    - intros [= <-]. cbn. auto.
    - destruct (decide (EmptyString = EmptyString)); [|congruence].
      intros [= <-]. cbn. auto. }
  intros [Hrun|Hrun]; revert Hrun.
  - unfold _add_ai_generated_frame_before.
    destruct (anim_current self) as [anim_name|].
    + destruct (request_before _ _ _ _) as [request|e]; [apply Hgen|discriminate].
    + intros [= <-]. cbn. auto.
  - unfold _add_ai_generated_frame_after.
    destruct (anim_current self) as [anim_name|].
    + destruct (request_after _ _ _ _) as [request|e]; [apply Hgen|discriminate].
    + intros [= <-]. cbn. auto.
Qed.

Lemma list_pop_at_middle (pre post : list string) (x : string) :
  list_pop_at (pre ++ x :: post) (Z.of_nat (length pre)) = Some (pre ++ post, x).
Proof.
  unfold list_pop_at. rewrite length_app. cbn [length].
  destruct (decide (Z.of_nat (length pre) < 0)); [lia|].
  destruct (decide (0 <= Z.of_nat (length pre)
                    < Z.of_nat (length pre + S (length post)))); [|lia].
  rewrite Nat2Z.id. rewrite list_lookup_middle by reflexivity.
  rewrite take_app_length.
  replace (S (length pre)) with (length (pre ++ [x]))
    by (rewrite length_app; cbn [length]; lia).
  change (pre ++ x :: post) with (pre ++ [x] ++ post).
  rewrite app_assoc, drop_app_length. reflexivity.
Qed.

Lemma list_insert_at_middle (pre post : list string) (x : string) :
  list_insert_at (pre ++ post) (Z.of_nat (length pre)) x = pre ++ x :: post.
Proof.
  rewrite list_insert_at_nat by (rewrite length_app; lia).
  now rewrite take_app_length, drop_app_length.
Qed.



Lemma frames_key (data : SpriteFile.t) (anim_name : string) :
  SpriteFile.get_animation_frames data anim_name <> [] ->
  exists a, dict_get (SpriteFile.animations data) anim_name = Some a
            /\ Animation.frames a
               = SpriteFile.get_animation_frames data anim_name.
Proof.
  unfold SpriteFile.get_animation_frames.
  destruct (dict_get _ _) as [a|]; [eauto|congruence].
Qed.

Lemma get_frames_set_frames (data : SpriteFile.t) (anim_name : string)
    (frames : list string) :
  SpriteFile.get_animation_frames data anim_name <> [] ->
  SpriteFile.get_animation_frames (set_frames data anim_name frames) anim_name
  = frames.
Proof.
  intros [a [Ha _]]%frames_key. unfold set_frames. rewrite Ha.
  unfold SpriteFile.get_animation_frames. cbn [SpriteFile.animations].
  now rewrite dict_get_set_same.
Qed.

Lemma get_frames_set_frames_ne (data : SpriteFile.t) (anim_name other : string)
    (frames : list string) :
  other <> anim_name ->
  SpriteFile.get_animation_frames (set_frames data anim_name frames) other
  = SpriteFile.get_animation_frames data other.
Proof.
  intros Hne. unfold set_frames.
  destruct (dict_get _ anim_name) as [a|]; [|reflexivity].
  unfold SpriteFile.get_animation_frames. cbn [SpriteFile.animations].
  now rewrite dict_get_set_ne by congruence.
Qed.


Section Move.
Variables (self : t) (current_file_path : option string)
          (anim_name : string) (pre post : list string) (a b : string).
Hypothesis Hanim : anim_current self = Some anim_name.
Hypothesis Hpath : no_file_path current_file_path = false.
Hypothesis Hframes :
  SpriteFile.get_animation_frames (sprite_data self) anim_name
  = pre ++ a :: b :: post.

Lemma move_frame_up_eq :
  frame_current self = Some (Z.of_nat (S (length pre))) ->
  _move_frame_up self current_file_path
  = with_frames self
      (set_frames (sprite_data self) anim_name (pre ++ b :: a :: post))
      (Z.of_nat (length pre)).
Proof.
  intros Hrow. unfold _move_frame_up. rewrite Hanim, Hrow, Hpath, Hframes.
  destruct (decide (Z.of_nat (S (length pre)) > 0)); [|lia].
  rewrite length_app. cbn [length].
  destruct (decide (Z.of_nat (length pre + S (S (length post)))
                    > Z.of_nat (S (length pre)))); [|lia].
  replace (S (length pre)) with (length (pre ++ [a]))
    by (rewrite length_app; cbn [length]; lia).
  replace (pre ++ a :: b :: post) with ((pre ++ [a]) ++ b :: post)
    by now rewrite <- app_assoc.
  rewrite list_pop_at_middle. rewrite <- app_assoc. cbn [app].
  replace (Z.of_nat (length (pre ++ [a])) - 1) with (Z.of_nat (length pre))
    by (rewrite length_app; cbn [length]; lia).
  now rewrite list_insert_at_middle.
Qed.

End Move.


(** X26. [_move_frame_up] on row [r > 0] of the selected animation
    exchanges the frames of the rows [r - 1] and [r] and leaves every
    other frame and every other animation in place; the selection
    follows the moved frame to row [r - 1]. *)
Theorem move_frame_up_swaps (self : t) (current_file_path : option string)
    (anim_name : string) (pre post : list string) (a b : string) :
  anim_current self = Some anim_name ->
  no_file_path current_file_path = false ->
  SpriteFile.get_animation_frames (sprite_data self) anim_name
  = pre ++ a :: b :: post ->
  frame_current self = Some (Z.of_nat (S (length pre))) ->
  let self' := _move_frame_up self current_file_path in
  SpriteFile.get_animation_frames (sprite_data self') anim_name
  = pre ++ b :: a :: post
  /\ frame_current self' = Some (Z.of_nat (length pre))
  /\ forall other, other <> anim_name ->
       SpriteFile.get_animation_frames (sprite_data self') other
       = SpriteFile.get_animation_frames (sprite_data self) other.
Proof.
  intros Hanim Hpath Hframes Hrow self'. unfold self'.
  rewrite (move_frame_up_eq self current_file_path anim_name pre post a b)
    by assumption.
  cbn [with_frames sprite_data frame_current].
  split; [|split; [reflexivity|]].
  - apply get_frames_set_frames. rewrite Hframes. now destruct pre.
  - intros other Hother. now apply get_frames_set_frames_ne.
Qed.


(** The name that the search for a free name ends with: the first
    target if it is free, else the candidate of the least counter from
    [counter] on that is free. *)
Lemma free_target_least (files : gmap string image)
    (base_dir name ext : string) (fuel : nat) :
  forall (counter : Z) (target t : string),
    free_target fuel files base_dir name ext counter target = Some t ->
    (t = target /\ files !! target = None)
    \/ exists k,
         counter <= k
         /\ t = join base_dir [name +:+ "_" +:+ str_of_int k +:+ ext]
         /\ is_Some (files !! target)
         /\ (forall j, counter <= j < k ->
               is_Some (files !! join base_dir
                                    [name +:+ "_" +:+ str_of_int j +:+ ext]))
         /\ files !! t = None.
Proof.
  induction fuel as [|fuel IH]; intros counter target t; cbn [free_target];
    [discriminate|].
  destruct (decide (is_Some (files !! target))) as [Htaken|Hfree].
  - intros Hrun. right.
    destruct (IH _ _ _ Hrun) as [[-> Hnone]|(k & Hk & -> & Hc & Hbelow & Hnone)].
    + exists counter.
      split; [lia|]. split; [reflexivity|]. split; [exact Htaken|].
      split; [intros j Hj; lia|exact Hnone].
    + exists k.
      split; [lia|]. split; [reflexivity|]. split; [exact Htaken|].
      split; [|exact Hnone].
      intros j Hj. destruct (decide (j = counter)) as [->|Hne];
        [exact Hc|apply Hbelow; lia].
  - intros [= <-]. left. split; [reflexivity|now apply eq_None_not_Some].
Qed.

(** X28. A file from outside the sprite directory is copied under the
    first free name: its own base name if no file of the sprite directory
    has it, else [<name>_<k><ext>] for the least [k >= 1] that is free.
    The copy holds the image of the source, and the path stored for it is
    the normal form of that name. *)
Theorem copy_takes_first_free_name (files files' : gmap string image)
    (base_dir abs_input stored : string) :
  copy_into_base files base_dir abs_input = Some (Ok stored, files') ->
  let own := join base_dir [basename abs_input] in
  let numbered (k : Z) :=
    join base_dir [(splitext (basename abs_input)).1 +:+ "_" +:+ str_of_int k
                   +:+ (splitext (basename abs_input)).2] in
  exists target img,
    files !! abs_input = Some img
    /\ files !! target = None
    /\ files' = <[target := img]> files
    /\ stored = normpath target
    /\ (target = own
        \/ exists k,
             1 <= k /\ target = numbered k /\ is_Some (files !! own)
             /\ forall j, 1 <= j < k -> is_Some (files !! numbered j)).
Proof.
  unfold copy_into_base.
  destruct (splitext (basename abs_input)) as [name ext]. cbn [fst snd].
  destruct (free_target _ files base_dir name ext 1 _) as [t|] eqn:Ht;
    [|discriminate].
  destruct (files !! abs_input) as [img|]; [|discriminate].
  intros [= <- <-]. exists t, img.
  pose proof (free_target_free _ _ _ _ _ _ _ _ Ht) as Hnone.
  repeat split; try assumption.
  destruct (free_target_least _ _ _ _ _ _ _ _ Ht)
    as [[-> _]|(k & Hk & -> & Hown & Hbelow & _)]; [now left|].
  right. exists k. auto.
Qed.

Lemma copy_takes_first_free_name_witness :
  let own := join "/games/quest" [basename "/downloads/b.png"] in
  let numbered (k : Z) :=
    join "/games/quest"
         [(splitext (basename "/downloads/b.png")).1 +:+ "_" +:+ str_of_int k
          +:+ (splitext (basename "/downloads/b.png")).2] in
  exists stored files',
    copy_into_base quest_files "/games/quest" "/downloads/b.png"
    = Some (Ok stored, files')
    /\ exists target img,
        quest_files !! "/downloads/b.png" = Some img
        /\ quest_files !! target = None
        /\ files' = <[target := img]> quest_files
        /\ stored = normpath target
        /\ (target = own
            \/ exists k,
                 1 <= k /\ target = numbered k
                 /\ is_Some (quest_files !! own)
                 /\ forall j, 1 <= j < k -> is_Some (quest_files !! numbered j)).
Proof.
  intros own numbered.
  destruct (copy_into_base quest_files "/games/quest" "/downloads/b.png")
    as [[[stored|e] files']|] eqn:E; try (vm_compute in E; discriminate).
  exists stored, files'. split; [reflexivity|].
  exact (copy_takes_first_free_name quest_files files' "/games/quest"
           "/downloads/b.png" stored E).
Defined.

Lemma insert_frames_keeps_files_witness :
  let self := hero_view ["/games/quest/a.png"; "/games/quest/b.png"] (Some 0) in
  exists o,
    _insert_frames_at_index "/home/artist" self quest_files
      ["/downloads/b.png"] 1 = Some o
    /\ quest_files ⊆ SpriteEditorView.files o
    /\ copies_of quest_files (SpriteEditorView.files o).
Proof.
  intros self.
  destruct (_insert_frames_at_index "/home/artist" self quest_files
              ["/downloads/b.png"] 1) as [o|] eqn:E;
    [|vm_compute in E; discriminate].
  exists o. split; [reflexivity|].
  exact (insert_frames_keeps_files "/home/artist" self quest_files
           ["/downloads/b.png"] 1 o E).
Defined.

Lemma insert_frames_keeps_frames_witness :
  let self := hero_view ["/games/quest/a.png"; "/games/quest/b.png"] (Some 0) in
  let frames := SpriteFile.get_animation_frames (sprite_data self) "walk" in
  exists o,
    _insert_frames_at_index "/home/artist" self quest_files
      ["/games/quest/c.png"; "/games/quest/a.png"] (-1) = Some o
    /\ let frames' :=
         SpriteFile.get_animation_frames (sprite_data (view o)) "walk" in
       frames' ≡ₚ (inserted o).*2 ++ frames
       /\ (NoDup frames -> NoDup frames').
Proof.
  intros self frames.
  apply (insert_frames_keeps_frames "/home/artist" self quest_files
           ["/games/quest/c.png"; "/games/quest/a.png"] (-1) "walk"
           "/games/quest"); [reflexivity|reflexivity|discriminate].
Defined.


Lemma ai_frame_lands_between_witness :
  let A := "/games/quest/a.png" in
  let B := "/games/quest/b.png" in
  let C := "/games/quest/c.png" in
  let R := "/games/quest/gen.png" in
  let between :=
    generate_sprite_between_images "/games/quest" "walk" [Some A; Some B]
                                   "side" in
  let landed (r : option (result outcome)) :=
    exists o,
      r = Some (Ok o)
      /\ requests o = [between]
      /\ inserted o = [(1, R)]
      /\ SpriteFile.get_animation_frames (sprite_data (view o)) "walk"
         = [A; R; B; C] in
  landed (_add_ai_generated_frame_before "/home/artist" sample_backend
            (hero_view [A; B; C] (Some 1)) quest_files)
  /\ landed (_add_ai_generated_frame_after "/home/artist" sample_backend
               (hero_view [A; B; C] (Some 0)) quest_files).
Proof.
  intros A B C R between landed.
  assert (Hnew : abspath "/home/artist" R ∉ [A; B; C]).
  { intros Hin. repeat (apply elem_of_cons in Hin as [Heq|Hin]; [discriminate|]).
    now apply elem_of_nil in Hin. }
  split.
  - apply (ai_frame_lands_between "/home/artist" sample_backend
             (hero_view [A; B; C] (Some 1)) quest_files 1 A B R "walk"
             "/games/quest");
      try reflexivity; try discriminate; try exact Hnew; try lia.
  - apply (ai_frame_lands_between "/home/artist" sample_backend
             (hero_view [A; B; C] (Some 0)) quest_files 1 A B R "walk"
             "/games/quest");
      try reflexivity; try discriminate; try exact Hnew; try lia.
Defined.

Lemma ai_failure_changes_nothing_witness :
  let self := hero_view ["/games/quest/a.png"] (Some 0) in
  let ai : ai_request -> option string := fun _ => None in
  exists o,
    ((forall request, ai request = None \/ ai request = Some EmptyString)
     /\ (_add_ai_generated_frame_before "/home/artist" ai self quest_files
         = Some (Ok o)
         \/ _add_ai_generated_frame_after "/home/artist" ai self quest_files
            = Some (Ok o)))
    /\ view o = self /\ SpriteEditorView.files o = quest_files
    /\ inserted o = [] /\ (length (requests o) <= 1)%nat.
Proof.
  intros self ai.
  assert (Hai : forall request,
            ai request = None \/ ai request = Some EmptyString)
    by (intros request; left; reflexivity).
  destruct (_add_ai_generated_frame_before "/home/artist" ai self quest_files)
    as [[o|e]|] eqn:E; try (vm_compute in E; discriminate).
  exists o. split; [split; [exact Hai|left; reflexivity]|].
  exact (ai_failure_changes_nothing "/home/artist" ai self quest_files o Hai
           (or_introl E)).
Defined.

Lemma move_frame_up_swaps_witness :
  let A := "/games/quest/a.png" in
  let B := "/games/quest/b.png" in
  let C := "/games/quest/c.png" in
  let self := hero_view [A; B; C] (Some 2) in
  let self' := _move_frame_up self (Some "/games/quest/hero.sprite") in
  SpriteFile.get_animation_frames (sprite_data self') "walk" = [A] ++ C :: B :: []
  /\ frame_current self' = Some 1
  /\ forall other, other <> "walk" ->
       SpriteFile.get_animation_frames (sprite_data self') other
       = SpriteFile.get_animation_frames (sprite_data self) other.
Proof.
  intros A B C self.
  apply (move_frame_up_swaps self (Some "/games/quest/hero.sprite") "walk"
           [A] [] B C); reflexivity.
Defined.


End EditorLaws.
